(** * Recursive Drive folder mirror: a shallow embedding of [download_folder.py]

    The development follows the three functions of the script,
    [download_folder], [download_folder_contents] and [download_file].
    The Drive client ([service]) and the local file system are the two
    effects of the program.  The client is an interface whose calls either
    return a response or raise; the file system is a finite map from resolved
    paths to entries.  Every function of the script is a computation in a
    state-and-exception monad over a [World] made of the file system and the
    trace of client calls and console lines.

    What the model takes from outside the script:
    - a client call returns its response or raises a subclass of
      [Exception]; a listing is answered in one page, and a download ends
      after finitely many chunks;
    - paths are POSIX paths, resolved against a working directory that is
      the root of the file system, without symbolic links;
    - the recursion of [download_folder_contents] is bounded by a fuel
      argument, and running out of it is an outcome of its own, distinct
      from returning and from raising. *)

From stdpp Require Import gmap strings list.
From Stdlib.Strings Require Import Ascii Byte.

Set Warnings "-register-all".

(** ** Python values *)

(** The exceptions the script can meet.  All of them are subclasses of
    Python's [Exception]; [HttpError] stands for whatever the client raises. *)
Inductive exn : Type :=
| HttpError (msg : string)
| AttributeError (msg : string)
| FileExistsError (path : string)
| IsADirectoryError (path : string)
| NotADirectoryError (path : string)
| FileNotFoundError (path : string).

(** [str(e)].  The file name of an [OSError] is shown between single quotes,
    as Python shows a name that has no quote and no escape character in it. *)
Definition str (e : exn) : string :=
  match e with
  | HttpError msg => msg
  | AttributeError msg => msg
  | FileExistsError p => "[Errno 17] File exists: '" +:+ p +:+ "'"
  | IsADirectoryError p => "[Errno 21] Is a directory: '" +:+ p +:+ "'"
  | NotADirectoryError p => "[Errno 20] Not a directory: '" +:+ p +:+ "'"
  | FileNotFoundError p => "[Errno 2] No such file or directory: '" +:+ p +:+ "'"
  end.

Abbreviation bytes := (list byte).

(** ** Paths: [os.path.join] and path resolution *)

Fixpoint endswith_slash (s : string) : bool :=
  match s with
  | "" => false
  | String c "" => bool_decide (c = "/"%char)
  | String _ r => endswith_slash r
  end.

(** [posixpath.join(a, b)] *)
Definition os_path_join (a b : string) : string :=
  if String.prefix "/" b then b
  else if bool_decide (a = "") || endswith_slash a then a +:+ b
  else a +:+ "/" +:+ b.

(** The segments of a path between slashes. *)
Fixpoint split_slash (s : string) : list string :=
  match s with
  | "" => [""]
  | String c r =>
      if bool_decide (c = "/"%char) then "" :: split_slash r
      else match split_slash r with
           | [] => [String c ""]
           | h :: t => String c h :: t
           end
  end.

Definition proper_segment (s : string) : bool :=
  negb (bool_decide (s = "")) && negb (bool_decide (s = ".")).

(** A path resolves to the list of its segments, empty and ["."] segments
    dropped.  The working directory is taken to be the root of the file
    system, so absolute and relative spellings of a path resolve alike and
    the empty list is the working directory.  Parent references [".."] are
    not interpreted: they stay as segments, and a slash at the end of a path
    is dropped with the empty segment after it.  So the resolved path is the
    place the operating system means for a path that has no [".."] segment
    and, where a regular file is meant, no slash at its end; there are no
    links. *)
Definition resolve (p : string) : list string :=
  List.filter proper_segment (split_slash p).

(** ** The local file system *)

Inductive Entry : Type :=
| Dir
| File (content : bytes).

Abbreviation FS := (gmap (list string) Entry).

(** What is at a resolved path; the working directory always exists. *)
Definition stat (m : FS) (k : list string) : option Entry :=
  match k with
  | [] => Some Dir
  | _ => m !! k
  end.

(** The [mkdir] calls of [os.makedirs], outermost directory first: [made] is
    the part of the path already known to be a directory.  An error carries
    the path given to [os.makedirs], not the component at which [mkdir]
    failed. *)
Fixpoint mkdirs (path : string) (exist_ok : bool) (made todo : list string)
    (m : FS) : exn + FS :=
  match todo with
  | [] => inr m
  | c :: rest =>
      let k := made ++ [c] in
      match stat m k, rest with
      | Some Dir, [] => if exist_ok then inr m else inl (FileExistsError path)
      | Some Dir, _ => mkdirs path exist_ok k rest m
      | Some (File _), [] => inl (FileExistsError path)
      | Some (File _), _ => inl (NotADirectoryError path)
      | None, _ => mkdirs path exist_ok k rest (<[k := Dir]> m)
      end
  end.

(** [os.makedirs(path, exist_ok=exist_ok)] *)
Definition makedirs (path : string) (exist_ok : bool) (m : FS) : exn + FS :=
  if bool_decide (path = "") then inl (FileNotFoundError path)
  else match resolve path with
       | [] => if exist_ok then inr m else inl (FileExistsError path)
       | k => mkdirs path exist_ok [] k m
       end.

(** [open(path, 'wb')]: the file is created, or truncated when it exists.
    The directory that holds the file and the file itself are looked at; the
    directories further up are taken to be there when that one is. *)
Definition open_wb (path : string) (m : FS) : exn + FS :=
  if bool_decide (path = "") then inl (FileNotFoundError path)
  else
    let k := resolve path in
    match k with
    | [] => inl (IsADirectoryError path)
    | _ =>
        match stat m (removelast k) with
        | None => inl (FileNotFoundError path)
        | Some (File _) => inl (NotADirectoryError path)
        | Some Dir =>
            match stat m k with
            | Some Dir => inl (IsADirectoryError path)
            | _ => inr (<[k := File []]> m)
            end
        end
    end.

(** [f.write(chunk)] on the file opened at [k]. *)
Definition fd_write (k : list string) (chunk : bytes) (m : FS) : FS :=
  match m !! k with
  | Some (File b) => <[k := File (b ++ chunk)]> m
  | _ => m
  end.

(** ** The Drive client *)

(** The response of [files().get]: [folder['name']] is read by subscript and
    [file_metadata.get('mimeType')] by [dict.get], which yields [None] when
    the key is missing. *)
Record Metadata : Type := mkMetadata {
  md_name : string;
  md_mimeType : option string
}.

(** One entry of a listing, with the fields the script asks for:
    [fields="files(id, name, mimeType)"]. *)
Record Item : Type := mkItem {
  id : string;
  name : string;
  mimeType : string
}.

Record ListResponse : Type := mkListResponse {
  files : option (list Item)
}.

(** The search the script sends:
    [q = "'{folder_id}' in parents and trashed=false"]. *)
Record Query : Type := mkQuery {
  q_parent : string;
  q_trashed : bool
}.

(** What the successive [downloader.next_chunk()] calls of one download do:
    deliver a chunk and report [done = False], deliver the last chunk and
    report [done = True], or raise. *)
Inductive Transfer : Type :=
| TMore (chunk : bytes) (rest : Transfer)
| TDone (chunk : bytes)
| TFail (e : exn).

Record Service : Type := mkService {
  (** [service.files().get(fileId=..).execute()] *)
  files_get : string -> exn + Metadata;
  (** [service.files().list(q=.., fields=..).execute()] *)
  files_list : Query -> exn + ListResponse;
  (** [MediaIoBaseDownload(f, service.files().get_media(fileId=..))] *)
  get_media : string -> Transfer
}.

(** ** The world and the monad *)

(** What the script does to the outside, in order: the calls it makes on the
    client and the lines it prints. *)
Inductive Event : Type :=
| CallGet (fileId : string)
| CallList (q : Query)
| CallNextChunk (fileId : string)
| Print (msg : string).

Record World : Type := mkWorld {
  fs : FS;
  log : list Event
}.

(** How a call ends: it returns, it raises, or the fuel of the walk ran
    out. *)
Inductive Outcome (A : Type) : Type :=
| Ret (a : A)
| Raise (e : exn)
| OutOfFuel.

Arguments Ret {A} a.
Arguments Raise {A} e.
Arguments OutOfFuel {A}.

Definition M (A : Type) : Type := World -> Outcome A * World.

Definition ret {A} (a : A) : M A := fun w => (Ret a, w).

Definition raise {A} (e : exn) : M A := fun w => (Raise e, w).

Definition bind {A B} (c : M A) (k : A -> M B) : M B :=
  fun w =>
    match c w with
    | (Ret a, w') => k a w'
    | (Raise e, w') => (Raise e, w')
    | (OutOfFuel, w') => (OutOfFuel, w')
    end.

Notation "x <- c ;; k" := (bind c (fun x => k))
  (at level 100, c at next level, right associativity).
Notation "c ;;; k" := (bind c (fun _ => k))
  (at level 100, right associativity).

(** [try: body / except Exception as e: handler(e)] *)
Definition try_except {A} (body : M A) (handler : exn -> M A) : M A :=
  fun w =>
    match body w with
    | (Raise e, w') => handler e w'
    | r => r
    end.

Definition emit (ev : Event) : M unit :=
  fun w => (Ret tt, mkWorld (fs w) (log w ++ [ev])).

Definition print (msg : string) : M unit := emit (Print msg).

Definition lift {A} (r : exn + A) : M A :=
  match r with
  | inl e => raise e
  | inr a => ret a
  end.

Definition fs_op (f : FS -> exn + FS) : M unit :=
  fun w =>
    match f (fs w) with
    | inl e => (Raise e, w)
    | inr m => (Ret tt, mkWorld m (log w))
    end.

Definition get_execute (svc : Service) (fileId : string) : M Metadata :=
  emit (CallGet fileId) ;;; lift (files_get svc fileId).

Definition list_execute (svc : Service) (q : Query) : M ListResponse :=
  emit (CallList q) ;;; lift (files_list svc q).

Definition os_makedirs (path : string) (exist_ok : bool) : M unit :=
  fs_op (makedirs path exist_ok).

Fixpoint for_each {A} (l : list A) (body : A -> M unit) : M unit :=
  match l with
  | [] => ret tt
  | x :: rest => body x ;;; for_each rest body
  end.

(** ** The script *)

Definition folder_mime : string := "application/vnd.google-apps.folder".
Definition workspace_prefix : string := "application/vnd.google-apps.".

(** [mime_type.startswith('application/vnd.google-apps.')], where
    [mime_type] comes from [dict.get] and may be [None]. *)
Definition startswith_workspace (mime_type : option string) : M bool :=
  match mime_type with
  | Some s => ret (String.prefix workspace_prefix s)
  | None => raise (AttributeError "'NoneType' object has no attribute 'startswith'")
  end.

(** The loop [while done is False: status, done = downloader.next_chunk()]
    inside [with open(file_path, 'wb') as f]. *)
Fixpoint next_chunks (file_id : string) (k : list string) (t : Transfer) : M unit :=
  match t with
  | TMore chunk rest =>
      emit (CallNextChunk file_id) ;;;
      (fun w => (Ret tt, mkWorld (fd_write k chunk (fs w)) (log w))) ;;;
      next_chunks file_id k rest
  | TDone chunk =>
      emit (CallNextChunk file_id) ;;;
      (fun w => (Ret tt, mkWorld (fd_write k chunk (fs w)) (log w)))
  | TFail e =>
      emit (CallNextChunk file_id) ;;; raise e
  end.

(** The body of the [try] block of [download_file]. *)
Definition download_file_body (svc : Service)
    (file_id file_name local_path : string) : M unit :=
  file_metadata <- get_execute svc file_id ;;
  let mime_type := md_mimeType file_metadata in
  skip <- startswith_workspace mime_type ;;
  if skip then
    print ("⚠️  Skipping Google Workspace file: " +:+ file_name)
  else
    let request := get_media svc file_id in
    let file_path := os_path_join local_path file_name in
    fs_op (open_wb file_path) ;;;
    next_chunks file_id (resolve file_path) request ;;;
    print ("📄 Downloaded: " +:+ file_name).

Definition download_file (svc : Service)
    (file_id file_name local_path : string) : M unit :=
  try_except
    (download_file_body svc file_id file_name local_path)
    (fun e => print ("❌ Failed to download " +:+ file_name +:+ ": " +:+ str e)).

Definition children_query (folder_id : string) : Query :=
  mkQuery folder_id false.

(** [results.get('files', [])] *)
Definition get_files (results : ListResponse) : list Item :=
  match files results with
  | Some items => items
  | None => []
  end.

(** The body of the loop [for item in items], with the recursive call
    [download_folder_contents(service, item_id, subfolder_path)] as
    [recurse]. *)
Definition process_item (recurse : string -> string -> M unit) (svc : Service)
    (local_path : string) (item : Item) : M unit :=
  let item_name := name item in
  let item_id := id item in
  let mime_type := mimeType item in
  if String.eqb mime_type folder_mime then
    let subfolder_path := os_path_join local_path item_name in
    os_makedirs subfolder_path true ;;;
    print ("📁 Created folder: " +:+ item_name) ;;;
    recurse item_id subfolder_path
  else
    download_file svc item_id item_name local_path.

(** The recursion of the script is bounded by [fuel], the depth of
    folders the walk may enter. *)
Fixpoint download_folder_contents (fuel : nat) (svc : Service)
    (folder_id local_path : string) : M unit :=
  match fuel with
  | O => fun w => (OutOfFuel, w)
  | S fuel' =>
      results <- list_execute svc (children_query folder_id) ;;
      let items := get_files results in
      for_each items
        (process_item (download_folder_contents fuel' svc) svc local_path)
  end.

Definition download_folder (fuel : nat) (svc : Service)
    (folder_id local_path : string) : M string :=
  folder <- get_execute svc folder_id ;;
  let folder_name := md_name folder in
  print ("Downloading folder: " +:+ folder_name) ;;;
  let local_folder_path := os_path_join local_path folder_name in
  os_makedirs local_folder_path true ;;;
  download_folder_contents fuel svc folder_id local_folder_path ;;;
  print ("✅ Download complete: " +:+ local_folder_path) ;;;
  ret local_folder_path.

(** ** What one download delivers *)

(** The bytes written by the [next_chunk] calls of a download, up to its end
    or its failure. *)
Fixpoint delivered (t : Transfer) : bytes :=
  match t with
  | TMore chunk rest => chunk ++ delivered rest
  | TDone chunk => chunk
  | TFail _ => []
  end.

(** The exception that ends a download, if one does. *)
Fixpoint transfer_error (t : Transfer) : option exn :=
  match t with
  | TMore _ rest => transfer_error rest
  | TDone _ => None
  | TFail e => Some e
  end.

Fixpoint chunk_calls (t : Transfer) : nat :=
  match t with
  | TMore _ rest => S (chunk_calls rest)
  | _ => 1
  end.

Definition failed_line (file_name : string) (e : exn) : Event :=
  Print ("❌ Failed to download " +:+ file_name +:+ ": " +:+ str e).

Definition skipped_line (file_name : string) : Event :=
  Print ("⚠️  Skipping Google Workspace file: " +:+ file_name).

Definition downloaded_line (file_name : string) : Event :=
  Print ("📄 Downloaded: " +:+ file_name).

(** ** Services given by tables

    A client that answers from three tables, keyed by file id: the metadata
    of each file, the children of each folder and the download of each file.
    An id missing from a table gets the client's not-found error. *)

Fixpoint assoc {A} (key : string) (table : list (string * A)) : option A :=
  match table with
  | [] => None
  | (k, v) :: rest => if String.eqb key k then Some v else assoc key rest
  end.

Definition not_found (fileId : string) : exn :=
  HttpError ("File not found: " +:+ fileId).

Definition table_service
    (metas : list (string * (exn + Metadata)))
    (listings : list (string * (exn + list Item)))
    (medias : list (string * Transfer)) : Service :=
  {| files_get := fun i => default (inl (not_found i)) (assoc i metas);
     files_list := fun q =>
       match assoc (q_parent q) listings with
       | Some (inr items) => inr (mkListResponse (Some items))
       | Some (inl e) => inl e
       | None => inl (not_found (q_parent q))
       end;
     get_media := fun i => default (TFail (not_found i)) (assoc i medias) |}.

Definition plain (n : string) : exn + Metadata :=
  inr (mkMetadata n (Some "text/plain")).

(** Root ["R"] holds a file, an online document, a folder ["S"] with one
    file, a file whose download breaks after its first chunk, and a file
    whose metadata cannot be fetched. *)
Definition demo_svc : Service :=
  table_service
    [ ("root", inr (mkMetadata "R" (Some folder_mime)));
      ("f1", plain "a.txt");
      ("d1", inr (mkMetadata "notes" (Some "application/vnd.google-apps.document")));
      ("s1", inr (mkMetadata "S" (Some folder_mime)));
      ("f2", plain "b.txt");
      ("f3", plain "broken.bin");
      ("f4", inl (HttpError "403 Forbidden")) ]
    [ ("root", inr [ mkItem "f3" "broken.bin" "text/plain";
                     mkItem "f4" "gone.txt" "text/plain";
                     mkItem "f1" "a.txt" "text/plain";
                     mkItem "d1" "notes" "application/vnd.google-apps.document";
                     mkItem "s1" "S" folder_mime ]);
      ("s1", inr [ mkItem "f2" "b.txt" "text/plain" ]) ]
    [ ("f1", TMore ["h"; "e"]%byte (TDone ["y"]%byte));
      ("f2", TDone ["b"]%byte);
      ("f3", TMore ["x"]%byte (TFail (HttpError "connection reset"))) ].

Definition empty_world : World := mkWorld ∅ [].

(** A world in which the directory ["R"] already exists. *)
Definition world_with_R : World := mkWorld {[ ["R"] := Dir ]} [].

(** ** Traces

    [emits c Φ]: from every world, the computation [c] only appends events
    to the log, and its outcome and the appended events satisfy [Φ]. *)
Definition emits {A} (c : M A) (Φ : Outcome A -> list Event -> Prop) : Prop :=
  forall w, exists evs,
    log (snd (c w)) = log w ++ evs /\ Φ (fst (c w)) evs.

(** Once the listing [q] has been asked for, the computation has raised [e]
    and asked for nothing after it. *)
Definition fatal_listing {A} (q : Query) (e : exn)
    (out : Outcome A) (evs : list Event) : Prop :=
  In (CallList q) evs ->
  out = Raise e /\ exists evs', evs = evs' ++ [CallList q].

(** No constraint: used to say only that the log grows. *)
Definition any_trace {A} : Outcome A -> list Event -> Prop := fun _ _ => True.

Definition is_listing (ev : Event) : bool :=
  match ev with CallList _ => true | _ => false end.

(** Root ["R"] holds a folder whose listing is refused, followed by a file. *)
Definition refused_svc : Service :=
  table_service
    [ ("root", inr (mkMetadata "R" (Some folder_mime)));
      ("c1", inr (mkMetadata "C" (Some folder_mime)));
      ("f1", plain "a.txt") ]
    [ ("root", inr [ mkItem "c1" "C" folder_mime;
                     mkItem "f1" "a.txt" "text/plain" ]);
      ("c1", inl (HttpError "500 Internal Server Error")) ]
    [ ("f1", TDone ["a"]%byte) ].

(** Root ["R"] holds one online document. *)
Definition notes_svc : Service :=
  table_service
    [ ("root", inr (mkMetadata "R" (Some folder_mime)));
      ("d1", inr (mkMetadata "notes" (Some "application/vnd.google-apps.document"))) ]
    [ ("root", inr [ mkItem "d1" "notes" "application/vnd.google-apps.document" ]) ]
    [ ].

(** ** Directories *)

Definition is_dir (m : FS) (k : list string) : Prop := stat m k = Some Dir.

(** The directory at [path] exists, and so does every directory above it. *)
Definition dir_exists (m : FS) (path : string) : Prop :=
  path <> "" /\ forall i, is_dir m (take i (resolve path)).

(** Every directory of [m] is a directory of [m']. *)
Definition dirs_le (m m' : FS) : Prop := forall k, is_dir m k -> is_dir m' k.

(** A computation that never removes a directory. *)
Definition keeps_dirs {A} (c : M A) : Prop :=
  forall w, dirs_le (fs w) (fs (snd (c w))).

(** A computation that, having completed once, completes again from any
    world that still has the directories the first run left. *)
Definition rerunnable (c : M unit) : Prop :=
  forall w w1,
    c w = (Ret tt, w1) ->
    forall w', dirs_le (fs w1) (fs w') ->
    exists w'', c w' = (Ret tt, w'') /\ dirs_le (fs w') (fs w'').

(** ** Drive as a store of files

    The files of a Drive, each with its parents and its trashed flag, and the
    client that answers from them.  A search returns the files that satisfy
    both terms of the query, ['<id>' in parents] and [trashed=<flag>], in the
    order of the store. *)

Record DriveFile : Type := mkDriveFile {
  df_id : string;
  df_name : string;
  df_mimeType : string;
  df_parents : list string;
  df_trashed : bool;
  df_media : Transfer
}.

Definition matches (q : Query) (f : DriveFile) : bool :=
  existsb (String.eqb (q_parent q)) (df_parents f) &&
  Bool.eqb (df_trashed f) (q_trashed q).

Definition item_of (f : DriveFile) : Item :=
  mkItem (df_id f) (df_name f) (df_mimeType f).

Definition find_file (store : list DriveFile) (fileId : string) : option DriveFile :=
  List.find (fun f => String.eqb (df_id f) fileId) store.

Definition drive_service (store : list DriveFile) : Service :=
  {| files_get := fun i =>
       match find_file store i with
       | Some f => inr (mkMetadata (df_name f) (Some (df_mimeType f)))
       | None => inl (not_found i)
       end;
     files_list := fun q =>
       inr (mkListResponse (Some (map item_of (List.filter (matches q) store))));
     get_media := fun i =>
       match find_file store i with
       | Some f => df_media f
       | None => TFail (not_found i)
       end |}.

Definition live (f : DriveFile) : bool := negb (df_trashed f).

(** The file id an event is about. *)
Definition event_id (ev : Event) : option string :=
  match ev with
  | CallGet i => Some i
  | CallList q => Some (q_parent q)
  | CallNextChunk i => Some i
  | Print _ => None
  end.

(** [i] is the id of a file of the store that is not in the trash. *)
Definition live_id (store : list DriveFile) (i : string) : Prop :=
  exists f, In f store /\ df_id f = i /\ df_trashed f = false.

(** A Drive whose root holds a file, a trashed file, and a trashed folder
    with a file in it. *)
Definition trash_store : list DriveFile :=
  [ mkDriveFile "root" "R" folder_mime [] false (TFail (not_found "root"));
    mkDriveFile "f1" "a.txt" "text/plain" ["root"] false (TDone ["a"]%byte);
    mkDriveFile "f2" "old.txt" "text/plain" ["root"] true (TDone ["o"]%byte);
    mkDriveFile "s1" "Bin" folder_mime ["root"] true (TFail (not_found "s1"));
    mkDriveFile "f3" "deep.txt" "text/plain" ["s1"] false (TDone ["d"]%byte) ].

(** ** The remote tree

    A folder with the nodes its listing returns, in the order the listing
    returns them, or a file; a file is an online document when its MIME type
    has the Workspace prefix. *)

Inductive RemoteNode : Type :=
| RFolder (node_id node_name : string) (children : list RemoteNode)
| RFile (node_id node_name mime : string).

Definition node_item (t : RemoteNode) : Item :=
  match t with
  | RFolder i n _ => mkItem i n folder_mime
  | RFile i n m => mkItem i n m
  end.

Definition name_of (t : RemoteNode) : string := name (node_item t).

Inductive Kind : Type := KFolder | KFile | KVirtualDocument.

Definition kind_of (mime : string) : Kind :=
  if String.eqb mime folder_mime then KFolder
  else if String.prefix workspace_prefix mime then KVirtualDocument
  else KFile.

(** The client lists the tree: the listing of every folder succeeds and
    returns the items of the folder's children. *)
Inductive served (svc : Service) : RemoteNode -> Prop :=
| served_folder i n kids resp :
    files_list svc (children_query i) = inr resp ->
    get_files resp = map node_item kids ->
    Forall (served svc) kids ->
    served svc (RFolder i n kids)
| served_file i n m :
    String.eqb m folder_mime = false ->
    served svc (RFile i n m).

(** Every call for a file of the tree succeeds: the metadata fetch returns
    the MIME type the listing gave, and the download of a file that is not an
    online document runs to its end. *)
Inductive healthy (svc : Service) : RemoteNode -> Prop :=
| healthy_folder i n kids :
    Forall (healthy svc) kids ->
    healthy svc (RFolder i n kids)
| healthy_file i n m md :
    files_get svc i = inr md ->
    md_mimeType md = Some m ->
    (String.prefix workspace_prefix m = false ->
     transfer_error (get_media svc i) = None) ->
    healthy svc (RFile i n m).

Fixpoint has_slash (s : string) : bool :=
  match s with
  | "" => false
  | String c r => bool_decide (c = "/"%char) || has_slash r
  end.

(** A name that is one path segment: not empty, without a slash, and neither
    ["."] nor [".."]. *)
Definition safe_name (n : string) : bool :=
  negb (has_slash n) && proper_segment n && negb (bool_decide (n = "..")).

(** In every folder the children have safe names, no two of them the same. *)
Inductive well_named : RemoteNode -> Prop :=
| well_named_folder i n kids :
    NoDup (map name_of kids) ->
    Forall (fun t => safe_name (name_of t) = true) kids ->
    Forall well_named kids ->
    well_named (RFolder i n kids)
| well_named_file i n m :
    well_named (RFile i n m).

Fixpoint depth (t : RemoteNode) : nat :=
  match t with
  | RFolder _ _ kids => S (list_max (map depth kids))
  | RFile _ _ _ => 0
  end.

(** [located kids rel t]: the node [t] is reached from the nodes [kids] by
    the chain of names [rel], which ends with the name of [t]. *)
Inductive located : list RemoteNode -> list string -> RemoteNode -> Prop :=
| located_child kids t :
    In t kids ->
    located kids [name_of t] t
| located_below kids i n kids' rel t :
    In (RFolder i n kids') kids ->
    located kids' rel t ->
    located kids (n :: rel) t.

(** Whether [download_file] gets to open the local file: the metadata is
    there and its MIME type is not a Workspace one. *)
Definition reaches_open (svc : Service) (file_id : string) : bool :=
  match files_get svc file_id with
  | inr md =>
      match md_mimeType md with
      | Some m => negb (String.prefix workspace_prefix m)
      | None => false
      end
  | inl _ => false
  end.

(** What the download of one file leaves at its fresh local path. *)
Definition leaf_entry (svc : Service) (file_id : string) : option Entry :=
  if reaches_open svc file_id then Some (File (delivered (get_media svc file_id)))
  else None.

Definition find_child (c : string) (kids : list RemoteNode) : option RemoteNode :=
  List.find (fun t => String.eqb (name_of t) c) kids.

(** The remote tree read as a file system: the entry expected at the
    relative path [rel] below the directory that mirrors [kids]. *)
Fixpoint expected (svc : Service) (kids : list RemoteNode) (rel : list string)
    : option Entry :=
  match rel with
  | [] => None
  | c :: rel' =>
      match find_child c kids, rel' with
      | None, _ => None
      | Some (RFile i _ _), [] => leaf_entry svc i
      | Some (RFile _ _ _), _ :: _ => None
      | Some (RFolder _ _ _), [] => Some Dir
      | Some (RFolder _ _ kids'), _ :: _ => expected svc kids' rel'
      end
  end.

Definition expected_node (svc : Service) (t : RemoteNode) (rel : list string)
    : option Entry :=
  match t, rel with
  | RFile i _ _, [] => leaf_entry svc i
  | RFile _ _ _, _ :: _ => None
  | RFolder _ _ _, [] => Some Dir
  | RFolder _ _ kids', _ :: _ => expected svc kids' rel
  end.

(** Every directory from the working directory down to [k] exists. *)
Definition dir_chain (m : FS) (k : list string) : Prop :=
  forall i, is_dir m (take i k).

(** The local file system [m'] holds the image of [kids] below the directory
    [pk], and is [m] everywhere else. *)
Definition mirrored (svc : Service) (pk : list string) (kids : list RemoteNode)
    (m m' : FS) : Prop :=
  (forall n rel, In n (map name_of kids) ->
     m' !! (pk ++ n :: rel) = expected svc kids (n :: rel)) /\
  (forall k, (forall n rel, In n (map name_of kids) -> k ≠ pk ++ n :: rel) ->
     m' !! k = m !! k).

(** The walk of any folder of depth below [fuel], into an existing local
    directory with nothing yet under the names of the folder's children,
    completes and leaves the image of the children there. *)
Definition contents_ok (svc : Service) (fuel : nat) : Prop :=
  forall i nm kids path w,
    served svc (RFolder i nm kids) ->
    well_named (RFolder i nm kids) ->
    list_max (map depth kids) < fuel ->
    dir_chain (fs w) (resolve path) ->
    (forall n rel, In n (map name_of kids) ->
       fs w !! (resolve path ++ n :: rel) = None) ->
    exists w',
      download_folder_contents fuel svc i path w = (Ret tt, w') /\
      mirrored svc (resolve path) kids (fs w) (fs w').

(** The children of the root of [demo_svc], as listed. *)
Definition demo_kids : list RemoteNode :=
  [ RFile "f3" "broken.bin" "text/plain";
    RFile "f4" "gone.txt" "text/plain";
    RFile "f1" "a.txt" "text/plain";
    RFile "d1" "notes" "application/vnd.google-apps.document";
    RFolder "s1" "S" [ RFile "f2" "b.txt" "text/plain" ] ].

(** Root ["R"] holds ["a.txt"] (10 bytes), an online document and a folder
    ["S"] that holds ["b.txt"] (5 bytes); every call succeeds. *)
Definition scenario_svc : Service :=
  table_service
    [ ("root", inr (mkMetadata "R" (Some folder_mime)));
      ("f1", plain "a.txt");
      ("d1", inr (mkMetadata "notes" (Some "application/vnd.google-apps.document")));
      ("s1", inr (mkMetadata "S" (Some folder_mime)));
      ("f2", plain "b.txt") ]
    [ ("root", inr [ mkItem "s1" "S" folder_mime;
                     mkItem "d1" "notes" "application/vnd.google-apps.document";
                     mkItem "f1" "a.txt" "text/plain" ]);
      ("s1", inr [ mkItem "f2" "b.txt" "text/plain" ]) ]
    [ ("f1", TMore ["0"; "1"; "2"; "3"]%byte
               (TMore ["4"; "5"; "6"; "7"]%byte (TDone ["8"; "9"]%byte)));
      ("f2", TDone ["h"; "e"; "l"; "l"; "o"]%byte) ].

Definition scenario_kids : list RemoteNode :=
  [ RFolder "s1" "S" [ RFile "f2" "b.txt" "text/plain" ];
    RFile "d1" "notes" "application/vnd.google-apps.document";
    RFile "f1" "a.txt" "text/plain" ].

(** Root ["R"] holds two files that are both named ["a.txt"]; every call
    succeeds. *)
Definition twins_svc : Service :=
  table_service
    [ ("root", inr (mkMetadata "R" (Some folder_mime)));
      ("f1", plain "a.txt");
      ("f2", plain "a.txt") ]
    [ ("root", inr [ mkItem "f1" "a.txt" "text/plain";
                     mkItem "f2" "a.txt" "text/plain" ]) ]
    [ ("f1", TDone ["1"]%byte);
      ("f2", TDone ["2"]%byte) ].

Definition twins_kids : list RemoteNode :=
  [ RFile "f1" "a.txt" "text/plain"; RFile "f2" "a.txt" "text/plain" ].

(** A world in which ["R/a.txt"] already exists, with five bytes. *)
Definition world_with_old_file : World :=
  mkWorld {[ ["R"] := Dir;
             ["R"; "a.txt"] := File ["o"; "l"; "d"; "e"; "r"]%byte ]} [].

(** A client that knows one file, whose metadata has no [mimeType]. *)
Definition untyped_svc : Service :=
  table_service [("f9", inr (mkMetadata "x.bin" None))] [] [].

(** ** What the walk keeps *)

Definition same_kind (a b : Entry) : Prop :=
  match a, b with
  | Dir, Dir => True
  | File _, File _ => True
  | _, _ => False
  end.

(** Every entry of [m] is still there in [m'], a directory as a directory
    and a file as a file. *)
Definition kinds_kept (m m' : FS) : Prop :=
  forall k e, m !! k = Some e -> exists e', m' !! k = Some e' /\ same_kind e e'.

Definition keeps_kinds {A} (c : M A) : Prop :=
  forall w, kinds_kept (fs w) (fs (snd (c w))).

(** Root ["R"] lists a file ["a"] and then a folder that is also named
    ["a"]. *)
Definition clash_svc : Service :=
  table_service
    [ ("root", inr (mkMetadata "R" (Some folder_mime)));
      ("f1", plain "a");
      ("s1", inr (mkMetadata "a" (Some folder_mime))) ]
    [ ("root", inr [ mkItem "f1" "a" "text/plain";
                     mkItem "s1" "a" folder_mime;
                     mkItem "f2" "later.txt" "text/plain" ]);
      ("s1", inr []) ]
    [ ("f1", TDone ["1"]%byte) ].

(** Root ["R"] holds a file whose metadata cannot be fetched, then a file
    and a folder that share the name ["a"], then one more file. *)
Definition unlucky_svc : Service :=
  table_service
    [ ("root", inr (mkMetadata "R" (Some folder_mime)));
      ("f0", inl (HttpError "403 Forbidden"));
      ("f1", plain "a");
      ("s1", inr (mkMetadata "a" (Some folder_mime)));
      ("f2", plain "later.txt") ]
    [ ("root", inr [ mkItem "f0" "gone.txt" "text/plain";
                     mkItem "f1" "a" "text/plain";
                     mkItem "s1" "a" folder_mime;
                     mkItem "f2" "later.txt" "text/plain" ]);
      ("s1", inr []) ]
    [ ("f1", TDone ["1"]%byte);
      ("f2", TDone ["2"]%byte) ].

Definition unlucky_kids : list RemoteNode :=
  [ RFile "f0" "gone.txt" "text/plain";
    RFile "f1" "a" "text/plain";
    RFolder "s1" "a" [];
    RFile "f2" "later.txt" "text/plain" ].

(** A world in which a file named ["R"] is in the working directory. *)
Definition world_with_file_R : World :=
  mkWorld {[ ["R"] := File ["x"]%byte ]} [].

(** The image of [kids] is already at [pk] in [m]. *)
Definition image_present (svc : Service) (pk : list string) (kids : list RemoteNode)
    (m : FS) : Prop :=
  forall n rel, In n (map name_of kids) ->
    m !! (pk ++ n :: rel) = expected svc kids (n :: rel).

(** The walk of a folder whose image is already there completes and leaves
    the file system as it is. *)
Definition contents_settled (svc : Service) (fuel : nat) : Prop :=
  forall i nm kids path w,
    served svc (RFolder i nm kids) ->
    well_named (RFolder i nm kids) ->
    list_max (map depth kids) < fuel ->
    dir_chain (fs w) (resolve path) ->
    image_present svc (resolve path) kids (fs w) ->
    exists w',
      download_folder_contents fuel svc i path w = (Ret tt, w') /\
      fs w' = fs w.

(** The same nodes are found under the same chains of names in [kids] and
    in [kids']. *)
Definition same_places (kids kids' : list RemoteNode) : Prop :=
  (forall rel i n m,
     located kids rel (RFile i n m) <-> located kids' rel (RFile i n m)) /\
  (forall rel,
     (exists i n k, located kids rel (RFolder i n k)) <->
     (exists i n k, located kids' rel (RFolder i n k))).

(** [scenario_svc] with the listing of the root in the opposite order. *)
Definition scenario_svc_reversed : Service :=
  table_service
    [ ("root", inr (mkMetadata "R" (Some folder_mime)));
      ("f1", plain "a.txt");
      ("d1", inr (mkMetadata "notes" (Some "application/vnd.google-apps.document")));
      ("s1", inr (mkMetadata "S" (Some folder_mime)));
      ("f2", plain "b.txt") ]
    [ ("root", inr [ mkItem "f1" "a.txt" "text/plain";
                     mkItem "d1" "notes" "application/vnd.google-apps.document";
                     mkItem "s1" "S" folder_mime ]);
      ("s1", inr [ mkItem "f2" "b.txt" "text/plain" ]) ]
    [ ("f1", TMore ["0"; "1"; "2"; "3"]%byte
               (TMore ["4"; "5"; "6"; "7"]%byte (TDone ["8"; "9"]%byte)));
      ("f2", TDone ["h"; "e"; "l"; "l"; "o"]%byte) ].

Definition scenario_kids_reversed : list RemoteNode :=
  [ RFile "f1" "a.txt" "text/plain";
    RFile "d1" "notes" "application/vnd.google-apps.document";
    RFolder "s1" "S" [ RFile "f2" "b.txt" "text/plain" ] ].

(** ** [authenticate] and [main] *)

(** A credentials object, with the attributes the script reads
    ([creds.valid], [creds.expired], [creds.refresh_token]) and the access
    token that tells one object from another. *)
Record Credentials : Type := mkCredentials {
  token : string;
  valid : bool;
  expired : bool;
  refresh_token : option string
}.

(** The truth value of [creds.refresh_token]: [None] and the empty string
    are false. *)
Definition truthy (s : option string) : bool :=
  match s with
  | Some r => negb (String.eqb r "")
  | None => false
  end.

(** An installed-app flow, given by what [flow.run_local_server(port=8080,
    open_browser=True)] comes back with. *)
Record Flow : Type := mkFlow {
  run_local_server : exn + Credentials
}.

(** What [authenticate] takes from its libraries. *)
Record AuthEnv : Type := mkAuthEnv {
  (** [pickle.load(token)] on the bytes of the file *)
  pickle_load : bytes -> exn + option Credentials;
  (** the bytes [pickle.dump(creds, token)] writes *)
  pickle_dump : Credentials -> bytes;
  (** [creds.refresh(Request())]: the object after the call *)
  refresh : Credentials -> exn + Credentials;
  (** [InstalledAppFlow.from_client_secrets_file('credentials.json', SCOPES)]
      on the bytes of the file *)
  from_client_secrets_file : bytes -> exn + Flow;
  (** [build('drive', 'v3', credentials=creds)] *)
  build : Credentials -> Service
}.

(** Reading a file that is opened by name. *)
Definition read_file (path : string) (m : FS) : exn + bytes :=
  match stat m (resolve path) with
  | Some (File b) => inr b
  | Some Dir => inl (IsADirectoryError path)
  | None => inl (FileNotFoundError path)
  end.

(** [if os.path.exists('token.pickle'): ... creds = pickle.load(token)] *)
Definition load_token (env : AuthEnv) : M (option Credentials) :=
  fun w =>
    match stat (fs w) (resolve "token.pickle") with
    | None => (Ret None, w)
    | Some _ =>
        match read_file "token.pickle" (fs w) with
        | inl e => (Raise e, w)
        | inr b => lift (pickle_load env b) w
        end
    end.

(** [with open('token.pickle', 'wb') as token: pickle.dump(creds, token)] *)
Definition save_token (env : AuthEnv) (creds : Credentials) : M unit :=
  fs_op (open_wb "token.pickle") ;;;
  (fun w => (Ret tt,
             mkWorld (fd_write (resolve "token.pickle") (pickle_dump env creds) (fs w))
                     (log w))).

(** The [else] branch: the browser flow. *)
Definition browser_flow (env : AuthEnv) : M Credentials :=
  print "🔐 Opening browser for Google Drive authentication..." ;;;
  print "📋 Please sign in and authorize access to Google Drive" ;;;
  secrets <- (fun w => lift (read_file "credentials.json" (fs w)) w) ;;
  flow <- lift (from_client_secrets_file env secrets) ;;
  creds <- lift (run_local_server flow) ;;
  print "✅ Authentication successful!" ;;;
  ret creds.

(** The body of [if not creds or not creds.valid:]. *)
Definition renew (env : AuthEnv) (creds : option Credentials) : M Credentials :=
  new <- match creds with
         | Some c =>
             if expired c && truthy (refresh_token c) then lift (refresh env c)
             else browser_flow env
         | None => browser_flow env
         end ;;
  save_token env new ;;;
  ret new.

Definition authenticate (env : AuthEnv) : M Service :=
  creds <- load_token env ;;
  match creds with
  | Some c =>
      if valid c then ret (build env c)
      else creds <- renew env creds ;; ret (build env creds)
  | None =>
      creds <- renew env creds ;; ret (build env creds)
  end.

(** White space as [str.strip()] sees it among the ASCII characters. *)
Definition is_space (c : ascii) : bool :=
  let n := nat_of_ascii c in
  (9 <=? n) && (n <=? 13) || (28 <=? n) && (n <=? 32).

Fixpoint lstrip (s : string) : string :=
  match s with
  | String c r => if is_space c then lstrip r else s
  | EmptyString => s
  end.

Fixpoint rstrip (s : string) : string :=
  match s with
  | String c r =>
      let r' := rstrip r in
      if is_space c && String.eqb r' "" then "" else String c r'
  | EmptyString => s
  end.

(** [str.strip()], for a string whose white space is ASCII. *)
Definition strip (s : string) : string := rstrip (lstrip s).

(** The [try] block of [main], with the default [local_path='.'] of
    [download_folder]. *)
Definition main_body (fuel : nat) (env : AuthEnv) (FOLDER_ID : string) : M unit :=
  service <- authenticate env ;;
  download_folder fuel service FOLDER_ID "." ;;;
  ret tt.

(** [main()]; [line] is what [input("Enter Google Drive folder ID: ")]
    returned. *)
Definition main (fuel : nat) (env : AuthEnv) (line : string) : M unit :=
  let FOLDER_ID := strip line in
  if String.eqb FOLDER_ID "" then
    print "No folder ID provided"
  else
    try_except
      (main_body fuel env FOLDER_ID)
      (fun e => print ("❌ Error: " +:+ str e)).

(** *** A pickle for the examples

    Three flag bytes, the length of the token in unary, the token, and the
    refresh token to the end. *)

Definition bool_byte (b : bool) : byte := if b then x01 else x00.

Definition byte_bool (b : byte) : bool := Byte.eqb b x01.

Definition toy_dump (c : Credentials) : bytes :=
  let tok := String.list_byte_of_string (token c) in
  [bool_byte (valid c); bool_byte (expired c);
   bool_byte (bool_decide (is_Some (refresh_token c)))] ++
  replicate (length tok) x01 ++ [x00] ++ tok ++
  match refresh_token c with
  | Some r => String.list_byte_of_string r
  | None => []
  end.

Fixpoint split_unary (l : bytes) : option (nat * bytes) :=
  match l with
  | [] => None
  | b :: r =>
      if Byte.eqb b x00 then Some (0, r)
      else if Byte.eqb b x01 then
        match split_unary r with
        | Some (n, r') => Some (S n, r')
        | None => None
        end
      else None
  end.

Definition toy_load (l : bytes) : exn + option Credentials :=
  match l with
  | v :: e :: h :: r =>
      match split_unary r with
      | Some (n, r') =>
          inr (Some (mkCredentials
                       (String.string_of_list_byte (take n r'))
                       (byte_bool v) (byte_bool e)
                       (if byte_bool h then Some (String.string_of_list_byte (drop n r'))
                        else None)))
      | None => inl (AttributeError "unpickling stack underflow")
      end
  | _ => inl (AttributeError "unpickling stack underflow")
  end.

(** An environment for the examples: refreshing gives a valid credential,
    the browser flow gives another, and every credential opens
    [demo_svc]. *)
Definition demo_env : AuthEnv :=
  {| pickle_load := toy_load;
     pickle_dump := toy_dump;
     refresh := fun c =>
       inr (mkCredentials ("refreshed:" +:+ token c) true false (refresh_token c));
     from_client_secrets_file := fun _ =>
       inr (mkFlow (inr (mkCredentials "from-browser" true false (Some "r1"))));
     build := fun _ => demo_svc |}.

Definition stale_credentials : Credentials :=
  mkCredentials "old" false true (Some "r0").

Definition good_credentials : Credentials :=
  mkCredentials "good" true false (Some "r0").

Definition world_with_token (c : Credentials) : World :=
  mkWorld {[ ["token.pickle"] := File (toy_dump c) ]} [].

Definition world_with_secrets : World :=
  mkWorld {[ ["credentials.json"] := File ["{"; "}"]%byte ]} [].

Fixpoint all_space (s : string) : bool :=
  match s with
  | String c r => is_space c && all_space r
  | EmptyString => true
  end.

(** ** Counting remote calls *)

Fixpoint folders_in (t : RemoteNode) : nat :=
  match t with
  | RFolder _ _ kids => S (list_sum (map folders_in kids))
  | RFile _ _ _ => 0
  end.

Fixpoint files_in (t : RemoteNode) : nat :=
  match t with
  | RFolder _ _ kids => list_sum (map files_in kids)
  | RFile _ _ _ => 1
  end.

Definition is_get (ev : Event) : bool :=
  match ev with CallGet _ => true | _ => false end.

Definition count_lists (evs : list Event) : nat := length (List.filter is_listing evs).

Definition count_gets (evs : list Event) : nat := length (List.filter is_get evs).

(** When the computation completes, it has made [lists] listing calls and
    [gets] metadata calls. *)
Definition calls {A} (lists gets : nat) (out : Outcome A) (evs : list Event) : Prop :=
  (exists a, out = Ret a) -> count_lists evs = lists /\ count_gets evs = gets.

(** The same, for the calls about one id: the listings of the folder [j]
    and the metadata fetches of the file [j]. *)
Definition is_listing_of (j : string) (ev : Event) : bool :=
  match ev with CallList q => String.eqb (q_parent q) j | _ => false end.

Definition is_get_of (j : string) (ev : Event) : bool :=
  match ev with CallGet i => String.eqb i j | _ => false end.

Definition count_lists_of (j : string) (evs : list Event) : nat :=
  length (List.filter (is_listing_of j) evs).

Definition count_gets_of (j : string) (evs : list Event) : nat :=
  length (List.filter (is_get_of j) evs).

Definition one_if (b : bool) : nat := if b then 1 else 0.

(** The folders of the tree that have the id [j]. *)
Fixpoint folders_with (j : string) (t : RemoteNode) : nat :=
  match t with
  | RFolder i _ kids => one_if (String.eqb i j) + list_sum (map (folders_with j) kids)
  | RFile _ _ _ => 0
  end.

(** The files of the tree that have the id [j]. *)
Fixpoint files_with (j : string) (t : RemoteNode) : nat :=
  match t with
  | RFolder _ _ kids => list_sum (map (files_with j) kids)
  | RFile i _ _ => one_if (String.eqb i j)
  end.

Definition calls_of {A} (j : string) (lists gets : nat) (out : Outcome A)
    (evs : list Event) : Prop :=
  (exists a, out = Ret a) -> count_lists_of j evs = lists /\ count_gets_of j evs = gets.

(** A client whose root is a plain file: it has a name and no children. *)
Definition plain_root_svc : Service :=
  table_service
    [ ("file0", plain "report.pdf") ]
    [ ("file0", inr []) ]
    [ ("file0", TDone ["%"]%byte) ].

(** ** The streaming loop *)

Lemma next_chunks_spec (file_id : string) (k : list string) (t : Transfer) :
  forall (w : World) (b : bytes),
    fs w !! k = Some (File b) ->
    next_chunks file_id k t w =
      (match transfer_error t with None => Ret tt | Some e => Raise e end,
       mkWorld (<[k := File (b ++ delivered t)]> (fs w))
               (log w ++ replicate (chunk_calls t) (CallNextChunk file_id))).
Proof.
  induction t as [chunk rest IH | chunk | e]; intros w b Hk.
  - cbn [next_chunks]. unfold bind at 1. unfold emit. unfold bind at 1.
    cbn [fs log]. unfold fd_write. rewrite Hk.
    rewrite (IH _ (b ++ chunk)); cbn [fs log].
    + rewrite insert_insert_eq. cbn [delivered chunk_calls replicate].
      rewrite <- !app_assoc. reflexivity.
    + apply lookup_insert_eq.
  - cbn. unfold bind, emit. cbn. unfold fd_write. rewrite Hk. reflexivity.
  - cbn. unfold bind, emit, raise. cbn. rewrite app_nil_r.
    rewrite insert_id by exact Hk. reflexivity.
Qed.

(** ** The four ways through [download_file] *)

Section DownloadFile.
Variable svc : Service.
Variables file_id file_name local_path : string.

Let file_path := os_path_join local_path file_name.

Lemma download_file_get_fails (w : World) (e : exn) :
  files_get svc file_id = inl e ->
  download_file svc file_id file_name local_path w =
    (Ret tt, mkWorld (fs w) (log w ++ [CallGet file_id; failed_line file_name e])).
Proof.
  intros Hget.
  unfold download_file, try_except, download_file_body, get_execute, bind,
    print, emit, lift, raise, failed_line.
  rewrite Hget. cbn. rewrite <- app_assoc. reflexivity.
Qed.

Lemma download_file_no_mime (w : World) (md : Metadata) :
  files_get svc file_id = inr md ->
  md_mimeType md = None ->
  download_file svc file_id file_name local_path w =
    (Ret tt,
     mkWorld (fs w)
       (log w ++ [CallGet file_id;
                  failed_line file_name
                    (AttributeError "'NoneType' object has no attribute 'startswith'")])).
Proof.
  intros Hget Hm.
  unfold download_file, try_except, download_file_body, get_execute, bind,
    print, emit, lift, raise, ret, failed_line, startswith_workspace.
  rewrite Hget. cbn. rewrite Hm. cbn. rewrite <- app_assoc. reflexivity.
Qed.

Lemma download_file_skips (w : World) (md : Metadata) (m : string) :
  files_get svc file_id = inr md ->
  md_mimeType md = Some m ->
  String.prefix workspace_prefix m = true ->
  download_file svc file_id file_name local_path w =
    (Ret tt, mkWorld (fs w) (log w ++ [CallGet file_id; skipped_line file_name])).
Proof.
  intros Hget Hm Hp.
  unfold download_file, try_except, download_file_body, get_execute, bind,
    print, emit, lift, raise, ret, skipped_line, startswith_workspace.
  rewrite Hget. cbn. rewrite Hm. cbn. rewrite Hp. cbn.
  rewrite <- app_assoc. reflexivity.
Qed.

Lemma download_file_open_fails (w : World) (md : Metadata) (m : string) (e : exn) :
  files_get svc file_id = inr md ->
  md_mimeType md = Some m ->
  String.prefix workspace_prefix m = false ->
  open_wb file_path (fs w) = inl e ->
  download_file svc file_id file_name local_path w =
    (Ret tt, mkWorld (fs w) (log w ++ [CallGet file_id; failed_line file_name e])).
Proof.
  intros Hget Hm Hp Hopen.
  unfold download_file, try_except, download_file_body, get_execute, bind,
    print, emit, lift, raise, ret, failed_line, startswith_workspace, fs_op.
  rewrite Hget. cbn. rewrite Hm. cbn. rewrite Hp. cbn.
  fold file_path. rewrite Hopen. cbn. rewrite <- app_assoc. reflexivity.
Qed.

Lemma open_wb_inv (m m1 : FS) :
  open_wb file_path m = inr m1 ->
  m1 = <[resolve file_path := File []]> m.
Proof.
  unfold open_wb. case_bool_decide; [discriminate|].
  destruct (resolve file_path) as [|c k] eqn:Hk; [discriminate|].
  destruct (stat m (removelast (c :: k))) as [[|?]|]; try discriminate.
  destruct (stat m (c :: k)) as [[|?]|]; try discriminate; congruence.
Qed.

Lemma download_file_streams (w : World) (md : Metadata) (m : string) (m1 : FS) :
  files_get svc file_id = inr md ->
  md_mimeType md = Some m ->
  String.prefix workspace_prefix m = false ->
  open_wb file_path (fs w) = inr m1 ->
  download_file svc file_id file_name local_path w =
    (Ret tt,
     mkWorld (<[resolve file_path := File (delivered (get_media svc file_id))]> (fs w))
       (log w ++ CallGet file_id ::
          replicate (chunk_calls (get_media svc file_id)) (CallNextChunk file_id) ++
          [match transfer_error (get_media svc file_id) with
           | None => downloaded_line file_name
           | Some e => failed_line file_name e
           end])).
Proof.
  intros Hget Hm Hp Hopen.
  pose proof (open_wb_inv _ _ Hopen) as ->.
  unfold download_file, try_except, download_file_body, get_execute.
  unfold bind at 1. unfold bind at 1. unfold emit at 1.
  unfold lift. rewrite Hget. unfold ret at 1. cbn [md_mimeType].
  unfold bind at 1. rewrite Hm. unfold startswith_workspace, ret at 1.
  rewrite Hp. unfold bind at 1. unfold fs_op at 1. cbn [fs log].
  fold file_path. rewrite Hopen.
  unfold bind at 1.
  rewrite (next_chunks_spec _ _ _ _ []) by (cbn; apply lookup_insert_eq).
  cbn [fs log app]. rewrite insert_insert_eq.
  destruct (transfer_error (get_media svc file_id)) as [e|];
    unfold print, emit, downloaded_line, failed_line; cbn [fs log];
    rewrite <- !app_assoc; reflexivity.
Qed.

End DownloadFile.

Lemma download_file_returns (svc : Service) (file_id file_name local_path : string)
    (w : World) :
  fst (download_file svc file_id file_name local_path w) = Ret tt.
Proof.
  destruct (files_get svc file_id) as [e|md] eqn:Hget.
  - by rewrite (download_file_get_fails _ _ _ _ _ _ Hget).
  - destruct (md_mimeType md) as [m|] eqn:Hm.
    + destruct (String.prefix workspace_prefix m) eqn:Hp.
      * by rewrite (download_file_skips _ _ _ _ _ _ _ Hget Hm Hp).
      * destruct (open_wb (os_path_join local_path file_name) (fs w)) as [e|m1] eqn:Ho.
        -- by rewrite (download_file_open_fails _ _ _ _ _ _ _ _ Hget Hm Hp Ho).
        -- by rewrite (download_file_streams _ _ _ _ _ _ _ _ Hget Hm Hp Ho).
    + by rewrite (download_file_no_mime _ _ _ _ _ _ Hget Hm).
Qed.

(** ** The file materializer *)

(** C5. [download_file] returns normally on every input: whatever the [try]
    block raises, during the metadata fetch, the opening of the local file or
    the streaming, is caught; the console then gets the failure line made of
    the file name and [str(e)], and nothing else changes. *)
Theorem download_file_never_raises (svc : Service)
    (file_id file_name local_path : string) (w : World) :
  fst (download_file svc file_id file_name local_path w) = Ret tt /\
  match download_file_body svc file_id file_name local_path w with
  | (Raise e, w') =>
      snd (download_file svc file_id file_name local_path w) =
        mkWorld (fs w') (log w' ++ [failed_line file_name e])
  | (_, w') =>
      snd (download_file svc file_id file_name local_path w) = w'
  end.
Proof.
  split; [apply download_file_returns|].
  unfold download_file, try_except.
  destruct (download_file_body svc file_id file_name local_path w) as [[a|e|] w'];
    reflexivity.
Qed.

(** C8. [download_file] begins with the metadata fetch, and when the fetched
    MIME type starts with the Workspace prefix it returns normally with the
    file system untouched and no [next_chunk] call made: the only events are
    the fetch and the skip line. *)
Theorem download_file_skips_workspace (svc : Service)
    (file_id file_name local_path : string) (w : World) :
  (exists evs,
     log (snd (download_file svc file_id file_name local_path w)) =
       log w ++ CallGet file_id :: evs) /\
  (forall md m,
     files_get svc file_id = inr md ->
     md_mimeType md = Some m ->
     String.prefix workspace_prefix m = true ->
     download_file svc file_id file_name local_path w =
       (Ret tt, mkWorld (fs w) (log w ++ [CallGet file_id; skipped_line file_name]))).
Proof.
  split.
  - destruct (files_get svc file_id) as [e|md] eqn:Hget.
    { rewrite (download_file_get_fails _ _ _ _ _ _ Hget). by eexists. }
    destruct (md_mimeType md) as [m|] eqn:Hm.
    2:{ rewrite (download_file_no_mime _ _ _ _ _ _ Hget Hm). by eexists. }
    destruct (String.prefix workspace_prefix m) eqn:Hp.
    { rewrite (download_file_skips _ _ _ _ _ _ _ Hget Hm Hp). by eexists. }
    destruct (open_wb (os_path_join local_path file_name) (fs w)) as [e|m1] eqn:Ho.
    + rewrite (download_file_open_fails _ _ _ _ _ _ _ _ Hget Hm Hp Ho). by eexists.
    + rewrite (download_file_streams _ _ _ _ _ _ _ _ Hget Hm Hp Ho). by eexists.
  - intros md m Hget Hm Hp. by apply download_file_skips with md m.
Qed.

Lemma download_file_skips_workspace_witness :
  download_file demo_svc "d1" "notes" "R" world_with_R =
    (Ret tt,
     mkWorld (fs world_with_R)
       (log world_with_R ++ [CallGet "d1"; skipped_line "notes"])).
Proof.
  apply (proj2 (download_file_skips_workspace demo_svc "d1" "notes" "R" world_with_R)
           (mkMetadata "notes" (Some "application/vnd.google-apps.document"))
           "application/vnd.google-apps.document");
    reflexivity.
Defined.

(** C9. The local file is opened only once the metadata is there and the
    skip check has passed: a failed fetch or a skipped Workspace file leaves
    the file system as it was.  Once the file is open, a failure of a later
    [next_chunk] call is caught like any other, and the file stays on disk
    with the chunks written before the failure. *)
Theorem download_file_not_atomic (svc : Service)
    (file_id file_name local_path : string) (w : World) :
  let file_path := os_path_join local_path file_name in
  let r := download_file svc file_id file_name local_path w in
  (forall e, files_get svc file_id = inl e -> fs (snd r) = fs w) /\
  (forall md m,
     files_get svc file_id = inr md ->
     md_mimeType md = Some m ->
     String.prefix workspace_prefix m = true ->
     fs (snd r) = fs w) /\
  (forall md m m1 e,
     files_get svc file_id = inr md ->
     md_mimeType md = Some m ->
     String.prefix workspace_prefix m = false ->
     open_wb file_path (fs w) = inr m1 ->
     transfer_error (get_media svc file_id) = Some e ->
     r = (Ret tt,
          mkWorld
            (<[resolve file_path := File (delivered (get_media svc file_id))]> (fs w))
            (log w ++ CallGet file_id ::
               replicate (chunk_calls (get_media svc file_id)) (CallNextChunk file_id) ++
               [failed_line file_name e]))).
Proof.
  cbv zeta. split; [|split].
  - intros e Hget. by rewrite (download_file_get_fails _ _ _ _ _ _ Hget).
  - intros md m Hget Hm Hp. by rewrite (download_file_skips _ _ _ _ _ _ _ Hget Hm Hp).
  - intros md m m1 e Hget Hm Hp Ho He.
    rewrite (download_file_streams _ _ _ _ _ _ _ _ Hget Hm Hp Ho).
    by rewrite He.
Qed.

Lemma download_file_not_atomic_witness :
  fs (snd (download_file demo_svc "f4" "gone.txt" "R" world_with_R)) = fs world_with_R /\
  fs (snd (download_file demo_svc "d1" "notes" "R" world_with_R)) = fs world_with_R /\
  download_file demo_svc "f3" "broken.bin" "R" world_with_R =
    (Ret tt,
     mkWorld (<[ ["R"; "broken.bin"] := File ["x"%byte] ]> (fs world_with_R))
       [CallGet "f3"; CallNextChunk "f3"; CallNextChunk "f3";
        failed_line "broken.bin" (HttpError "connection reset")]).
Proof.
  pose proof (download_file_not_atomic demo_svc "f4" "gone.txt" "R" world_with_R) as H4.
  pose proof (download_file_not_atomic demo_svc "d1" "notes" "R" world_with_R) as Hd.
  pose proof (download_file_not_atomic demo_svc "f3" "broken.bin" "R" world_with_R) as H3.
  cbv zeta in H4, Hd, H3.
  split; [|split].
  - apply (proj1 H4 (HttpError "403 Forbidden")). reflexivity.
  - apply (proj1 (proj2 Hd)
             (mkMetadata "notes" (Some "application/vnd.google-apps.document"))
             "application/vnd.google-apps.document"); reflexivity.
  - apply (proj2 (proj2 H3) (mkMetadata "broken.bin" (Some "text/plain")) "text/plain"
             (<[ ["R"; "broken.bin"] := File [] ]> (fs world_with_R))
             (HttpError "connection reset")); reflexivity.
Defined.

(** ** The root of the walk *)

(** C6. When the metadata of the root cannot be fetched, [download_folder]
    raises that very exception to its caller.  Nothing has been written by
    then: the file system is unchanged and the only event is the failed
    fetch. *)
Theorem root_failure_propagates (fuel : nat) (svc : Service)
    (folder_id local_path : string) (w : World) (e : exn) :
  files_get svc folder_id = inl e ->
  download_folder fuel svc folder_id local_path w =
    (Raise e, mkWorld (fs w) (log w ++ [CallGet folder_id])).
Proof.
  intros Hget. unfold download_folder, get_execute, bind, emit, lift, raise.
  rewrite Hget. reflexivity.
Qed.

Lemma root_failure_propagates_witness :
  download_folder 5 demo_svc "nowhere" "." empty_world =
    (Raise (not_found "nowhere"), mkWorld ∅ [CallGet "nowhere"]).
Proof.
  apply (root_failure_propagates 5 demo_svc "nowhere" "." empty_world). reflexivity.
Defined.

(** ** Traces of the walk *)

Lemma emits_weaken {A} (c : M A) (Φ Ψ : Outcome A -> list Event -> Prop) :
  emits c Φ -> (forall out evs, Φ out evs -> Ψ out evs) -> emits c Ψ.
Proof. intros Hc HΦ w. destruct (Hc w) as (evs & ? & ?). eauto. Qed.

Lemma emits_bind {A B} (c : M A) (k : A -> M B)
    (Φ : Outcome A -> list Event -> Prop)
    (Ψ : A -> Outcome B -> list Event -> Prop)
    (Θ : Outcome B -> list Event -> Prop) :
  emits c Φ ->
  (forall a, emits (k a) (Ψ a)) ->
  (forall a evs1 out evs2, Φ (Ret a) evs1 -> Ψ a out evs2 -> Θ out (evs1 ++ evs2)) ->
  (forall e evs, Φ (Raise e) evs -> Θ (Raise e) evs) ->
  (forall evs, Φ OutOfFuel evs -> Θ OutOfFuel evs) ->
  emits (bind c k) Θ.
Proof.
  intros Hc Hk Hret Hraise Hfuel w. unfold bind.
  destruct (Hc w) as (evs1 & Hlog1 & HΦ).
  destruct (c w) as [[a|e|] w1]; cbn [fst snd] in *.
  - destruct (Hk a w1) as (evs2 & Hlog2 & HΨ).
    exists (evs1 ++ evs2). rewrite Hlog2, Hlog1, app_assoc. eauto.
  - exists evs1. eauto.
  - exists evs1. eauto.
Qed.

Lemma emits_emit (ev : Event) :
  emits (emit ev) (fun out evs => out = Ret tt /\ evs = [ev]).
Proof. intros w. exists [ev]. by cbn. Qed.

Lemma emits_fs_op (f : FS -> exn + FS) :
  emits (fs_op f) (fun out evs => evs = []).
Proof.
  intros w. exists []. unfold fs_op.
  destruct (f (fs w)); cbn; by rewrite app_nil_r.
Qed.

Lemma emits_download_file (svc : Service) (file_id file_name local_path : string) :
  emits (download_file svc file_id file_name local_path)
    (fun out evs =>
       out = Ret tt /\
       exists rest,
         evs = CallGet file_id :: rest /\
         forallb (fun ev => negb (is_listing ev)) evs = true /\
         (forall md m,
            files_get svc file_id = inr md ->
            md_mimeType md = Some m ->
            String.prefix workspace_prefix m = true ->
            rest = [skipped_line file_name])).
Proof.
  intros w. destruct (files_get svc file_id) as [e|md] eqn:Hget.
  { rewrite (download_file_get_fails _ _ _ _ _ _ Hget). cbn.
    eexists; split; [done|]. split; [done|]. eexists; split; [done|].
    split; [done|]. congruence. }
  destruct (md_mimeType md) as [m|] eqn:Hm.
  2:{ rewrite (download_file_no_mime _ _ _ _ _ _ Hget Hm). cbn.
      eexists; split; [done|]. split; [done|]. eexists; split; [done|].
      split; [done|]. congruence. }
  destruct (String.prefix workspace_prefix m) eqn:Hp.
  { rewrite (download_file_skips _ _ _ _ _ _ _ Hget Hm Hp). cbn.
    eexists; split; [done|]. split; [done|]. eexists; split; [done|]. done. }
  destruct (open_wb (os_path_join local_path file_name) (fs w)) as [e|m1] eqn:Ho.
  - rewrite (download_file_open_fails _ _ _ _ _ _ _ _ Hget Hm Hp Ho). cbn.
    eexists; split; [done|]. split; [done|]. eexists; split; [done|].
    split; [done|]. congruence.
  - rewrite (download_file_streams _ _ _ _ _ _ _ _ Hget Hm Hp Ho). cbn [fst snd log].
    eexists; split; [done|]. split; [done|]. eexists; split; [done|].
    split; [|congruence].
    cbn [forallb is_listing negb andb]. rewrite forallb_app. cbn.
    destruct (transfer_error _); cbn; rewrite andb_true_r;
      by induction (chunk_calls (get_media svc file_id)).
Qed.

Lemma not_listing_not_In (evs : list Event) (q : Query) :
  forallb (fun ev => negb (is_listing ev)) evs = true -> ~ In (CallList q) evs.
Proof.
  intros Hall Hin. rewrite forallb_forall in Hall. by apply Hall in Hin.
Qed.

(** *** Every computation of the walk extends the log *)

Lemma emits_for_each {A} (l : list A) (body : A -> M unit)
    (Φ : Outcome unit -> list Event -> Prop) :
  Φ (Ret tt) [] ->
  (forall out evs1 evs2, Φ (Ret tt) evs1 -> Φ out evs2 -> Φ out (evs1 ++ evs2)) ->
  (forall x, In x l -> emits (body x) Φ) ->
  emits (for_each l body) Φ.
Proof.
  intros Hnil Happ. induction l as [|x l IH]; intros Hbody.
  - intros w. exists []. cbn. by rewrite app_nil_r.
  - cbn [for_each].
    apply emits_bind with (Φ := Φ) (Ψ := fun _ => Φ).
    + apply Hbody. by left.
    + intros _. apply IH. intros y Hy. apply Hbody. by right.
    + intros [] evs1 out evs2. apply Happ.
    + done.
    + done.
Qed.

(** *** A listing that raises ends the walk *)

Section FatalListing.
Variable svc : Service.
Variable q : Query.
Variable e : exn.
Hypothesis Hraises : files_list svc q = inl e.

Lemma fatal_app {A} (out : Outcome A) (evs1 evs2 : list Event) (a : unit) :
  fatal_listing q e (Ret a) evs1 ->
  fatal_listing q e out evs2 ->
  fatal_listing q e out (evs1 ++ evs2).
Proof.
  intros H1 H2 Hin. apply in_app_or in Hin as [Hin|Hin].
  - by destruct (H1 Hin).
  - destruct (H2 Hin) as (-> & evs' & ->). split; [done|].
    exists (evs1 ++ evs'). by rewrite app_assoc.
Qed.

Lemma fatal_bind {A B} (c : M A) (k : A -> M B) :
  emits c (fatal_listing q e) ->
  (forall a, emits (k a) (fatal_listing q e)) ->
  emits (bind c k) (fatal_listing q e).
Proof.
  intros Hc Hk.
  apply emits_bind with (Φ := fatal_listing q e) (Ψ := fun _ => fatal_listing q e).
  - exact Hc.
  - exact Hk.
  - intros a evs1 out evs2 H1 H2 Hin. apply in_app_or in Hin as [Hin|Hin].
    + by destruct (H1 Hin).
    + destruct (H2 Hin) as (-> & evs' & ->). split; [done|].
      exists (evs1 ++ evs'). by rewrite app_assoc.
  - intros e' evs H Hin. destruct (H Hin) as ([= ->] & evs' & ->). split; [done|].
    by exists evs'.
  - intros evs H Hin. by destruct (H Hin).
Qed.

Lemma fatal_quiet {A} (c : M A) :
  emits c (fun _ evs => forallb (fun ev => negb (is_listing ev)) evs = true) ->
  emits c (fatal_listing q e).
Proof.
  intros Hc. eapply emits_weaken; [exact Hc|].
  intros out evs Hall Hin. by apply not_listing_not_In in Hin.
Qed.

Lemma fatal_print {A} (msg : string) (k : M A) :
  emits k (fatal_listing q e) ->
  emits (print msg ;;; k) (fatal_listing q e).
Proof.
  intros Hk. apply fatal_bind; [|done].
  apply fatal_quiet. eapply emits_weaken; [apply emits_emit|].
  by intros out evs [_ ->].
Qed.

Lemma fatal_makedirs {A} (path : string) (k : M A) :
  emits k (fatal_listing q e) ->
  emits (os_makedirs path true ;;; k) (fatal_listing q e).
Proof.
  intros Hk. apply fatal_bind; [|done].
  apply fatal_quiet. eapply emits_weaken; [apply emits_fs_op|].
  by intros out evs ->.
Qed.

Lemma fatal_list_execute (q' : Query) :
  emits (list_execute svc q')
    (fun out evs =>
       fatal_listing q e out evs /\ forall r, out = Ret r -> files_list svc q' = inr r).
Proof.
  intros w. exists [CallList q']. unfold list_execute, bind, emit, lift, raise, ret.
  destruct (files_list svc q') as [e'|r] eqn:Hq'; cbn; (split; [done|]).
  - split; [|done]. intros [[= ->]|[]]. split; [congruence|]. by exists [].
  - split; [|congruence]. intros [[= ->]|[]]. congruence.
Qed.

Lemma fatal_get_execute (fileId : string) :
  emits (get_execute svc fileId) (fatal_listing q e).
Proof.
  apply fatal_quiet. intros w. exists [CallGet fileId].
  unfold get_execute, bind, emit, lift, raise, ret.
  by destruct (files_get svc fileId).
Qed.

Lemma fatal_download_file (file_id file_name local_path : string) :
  emits (download_file svc file_id file_name local_path) (fatal_listing q e).
Proof.
  apply fatal_quiet. eapply emits_weaken; [apply emits_download_file|].
  by intros out evs (_ & rest & _ & Hall & _).
Qed.

Lemma fatal_download_folder_contents (fuel : nat) :
  forall folder_id local_path,
    emits (download_folder_contents fuel svc folder_id local_path)
      (fatal_listing q e).
Proof.
  induction fuel as [|fuel IH]; intros folder_id local_path.
  - intros w. exists []. cbn. by rewrite app_nil_r.
  - cbn [download_folder_contents].
    apply fatal_bind.
    { eapply emits_weaken; [apply fatal_list_execute|]. by intros ?? []. }
    intros results. apply emits_for_each.
    + by intros [].
    + intros out evs1 evs2. apply fatal_app.
    + intros item _. unfold process_item.
      destruct (String.eqb (mimeType item) folder_mime).
      * apply fatal_makedirs, fatal_print, IH.
      * apply fatal_download_file.
Qed.

Lemma fatal_download_folder (fuel : nat) (folder_id local_path : string) :
  emits (download_folder fuel svc folder_id local_path) (fatal_listing q e).
Proof.
  unfold download_folder.
  apply fatal_bind; [apply fatal_get_execute|]. intros folder.
  apply fatal_print, fatal_makedirs, fatal_bind;
    [apply fatal_download_folder_contents|].
  intros _. apply fatal_print. intros w. exists []. cbn. by rewrite app_nil_r.
Qed.

End FatalListing.

(** C4 (as the code has it).  Listing errors are not caught anywhere in the
    walk.  When the listing of a folder [c], the root or any folder below it,
    raises [e], then as soon as the walk asks for that listing,
    [download_folder] raises [e] to its caller, and that request is the last
    thing the walk did: no later sibling is visited. *)
Theorem listing_error_aborts_walk (fuel : nat) (svc : Service)
    (folder_id local_path c : string) (e : exn) (w : World) :
  files_list svc (children_query c) = inl e ->
  let r := download_folder fuel svc folder_id local_path w in
  exists evs,
    log (snd r) = log w ++ evs /\
    (In (CallList (children_query c)) evs ->
     fst r = Raise e /\ exists evs', evs = evs' ++ [CallList (children_query c)]).
Proof.
  intros Hraises. exact (fatal_download_folder svc _ e Hraises fuel folder_id local_path w).
Qed.

Lemma listing_error_aborts_walk_witness :
  exists evs,
    log (snd (download_folder 3 refused_svc "root" "." empty_world)) =
      log empty_world ++ evs /\
    (In (CallList (children_query "c1")) evs ->
     fst (download_folder 3 refused_svc "root" "." empty_world) =
       Raise (HttpError "500 Internal Server Error") /\
     exists evs', evs = evs' ++ [CallList (children_query "c1")]).
Proof.
  apply (listing_error_aborts_walk 3 refused_svc "root" "." "c1"
           (HttpError "500 Internal Server Error") empty_world).
  reflexivity.
Defined.

(** C4, refuted as stated: the folder ["C"] cannot be listed; the error is
    not caught, [download_folder] raises it, and the sibling ["a.txt"] that
    follows ["C"] in the listing is never fetched. *)
Lemma listing_error_not_isolated :
  download_folder 3 refused_svc "root" "." empty_world =
    (Raise (HttpError "500 Internal Server Error"),
     mkWorld {[ ["R"] := Dir; ["R"; "C"] := Dir ]}
       [CallGet "root"; Print "Downloading folder: R";
        CallList (children_query "root");
        Print "📁 Created folder: C";
        CallList (children_query "c1")]).
Proof. reflexivity. Qed.

(** *** The log only grows *)

Lemma grows_bind {A B} (c : M A) (k : A -> M B) :
  emits c any_trace -> (forall a, emits (k a) any_trace) -> emits (bind c k) any_trace.
Proof.
  intros Hc Hk.
  by apply emits_bind with (Φ := any_trace) (Ψ := fun _ => any_trace).
Qed.

Lemma grows_download_folder_contents (svc : Service) (fuel : nat) :
  forall folder_id local_path,
    emits (download_folder_contents fuel svc folder_id local_path) any_trace.
Proof.
  induction fuel as [|fuel IH]; intros folder_id local_path.
  - intros w. exists []. cbn. by rewrite app_nil_r.
  - cbn [download_folder_contents]. apply grows_bind.
    { apply grows_bind; [eapply emits_weaken; [apply emits_emit|done]|].
      intros _ w. exists []. unfold lift, raise, ret.
      destruct (files_list svc _); cbn; by rewrite app_nil_r. }
    intros results. apply emits_for_each; [done..|].
    intros item _. unfold process_item.
    destruct (String.eqb (mimeType item) folder_mime).
    + apply grows_bind; [eapply emits_weaken; [apply emits_fs_op|done]|].
      intros _. apply grows_bind; [eapply emits_weaken; [apply emits_emit|done]|].
      intros _. apply IH.
    + eapply emits_weaken; [apply emits_download_file|done].
Qed.

(** When the loop completes, the events of each of its items are in the
    trace. *)
Lemma for_each_visits {A} (l : list A) (body : A -> M unit) (x : A)
    (Ψ : list Event -> Prop) :
  In x l ->
  (forall y, emits (body y) any_trace) ->
  emits (body x) (fun _ evs => Ψ evs) ->
  emits (for_each l body)
    (fun out evs =>
       out = Ret tt ->
       exists before mid after, evs = before ++ mid ++ after /\ Ψ mid).
Proof.
  intros Hin Hany Hx. induction l as [|y l IH]; [done|].
  cbn [for_each].
  assert (Hrest : emits (for_each l body) any_trace).
  { apply emits_for_each; [done..|]. intros; apply Hany. }
  destruct Hin as [->|Hin].
  - apply emits_bind with (Φ := fun _ evs => Ψ evs) (Ψ := fun _ => any_trace);
      try done.
    intros _ evs1 out evs2 HΨ _ _. by exists [], evs1, evs2.
  - apply emits_bind with
      (Φ := any_trace)
      (Ψ := fun _ out evs =>
         out = Ret tt ->
         exists before mid after, evs = before ++ mid ++ after /\ Ψ mid);
      try done.
    + intros _. by apply IH.
    + intros _ evs1 out evs2 _ H Hout.
      destruct (H Hout) as (before & mid & after & -> & HΨ).
      exists (evs1 ++ before), mid, after. by rewrite <- app_assoc.
Qed.

(** C2 (as the code has it).  The loop of [download_folder_contents] tests a
    child for one thing only, being a folder.  Every other child, an online
    document like any other, is handed to [download_file]: when the walk of
    the directory completes, the metadata fetch that [download_file] makes
    for the child is in the trace, and for a Workspace MIME type it is
    followed at once by the skip line, which [download_file] prints.  The
    Workspace test is made in [download_file] alone. *)
Theorem non_folder_children_reach_download_file (fuel : nat) (svc : Service)
    (folder_id local_path : string) (w : World) (resp : ListResponse) (item : Item) :
  files_list svc (children_query folder_id) = inr resp ->
  In item (get_files resp) ->
  String.eqb (mimeType item) folder_mime = false ->
  let r := download_folder_contents fuel svc folder_id local_path w in
  (forall recurse path,
     process_item recurse svc path item =
       download_file svc (id item) (name item) path) /\
  (fst r = Ret tt ->
   exists before rest after,
     log (snd r) = log w ++ before ++ (CallGet (id item) :: rest) ++ after /\
     forall md m,
       files_get svc (id item) = inr md ->
       md_mimeType md = Some m ->
       String.prefix workspace_prefix m = true ->
       rest = [skipped_line (name item)]).
Proof.
  intros Hlist Hin Hmime r. split.
  { intros recurse path. unfold process_item. by rewrite Hmime. }
  subst r. destruct fuel as [|fuel]; [done|].
  cbn [download_folder_contents]. unfold bind at 1.
  unfold list_execute, bind, emit, lift. rewrite Hlist. unfold ret. cbn [fs log].
  set (w1 := mkWorld (fs w) (log w ++ [CallList (children_query folder_id)])).
  pose proof (for_each_visits (get_files resp)
    (process_item (download_folder_contents fuel svc) svc local_path) item
    (fun evs => exists rest, evs = CallGet (id item) :: rest /\
       forall md m,
         files_get svc (id item) = inr md ->
         md_mimeType md = Some m ->
         String.prefix workspace_prefix m = true ->
         rest = [skipped_line (name item)]) Hin) as Hvis.
  destruct (Hvis) with (w := w1) as (evs & Hlog & Hevs).
  - intros y. unfold process_item.
    destruct (String.eqb (mimeType y) folder_mime).
    + apply grows_bind; [eapply emits_weaken; [apply emits_fs_op|done]|].
      intros _. apply grows_bind; [eapply emits_weaken; [apply emits_emit|done]|].
      intros _. apply grows_download_folder_contents.
    + eapply emits_weaken; [apply emits_download_file|done].
  - unfold process_item. rewrite Hmime.
    eapply emits_weaken; [apply emits_download_file|].
    intros out evs (_ & rest & -> & _ & Hskip). by exists rest.
  - intros Hret. destruct (Hevs Hret) as (before & mid & after & -> & rest & -> & Hskip).
    exists (CallList (children_query folder_id) :: before), rest, after.
    split; [|done]. rewrite Hlog. subst w1. cbn [log].
    by rewrite <- !app_assoc.
Qed.

Lemma non_folder_children_reach_download_file_witness :
  (forall recurse path,
     process_item recurse notes_svc path
         (mkItem "d1" "notes" "application/vnd.google-apps.document") =
       download_file notes_svc "d1" "notes" path) /\
  (fst (download_folder_contents 1 notes_svc "root" "R" world_with_R) = Ret tt ->
   exists before rest after,
     log (snd (download_folder_contents 1 notes_svc "root" "R" world_with_R)) =
       log world_with_R ++ before ++ (CallGet "d1" :: rest) ++ after /\
     forall md m,
       files_get notes_svc "d1" = inr md ->
       md_mimeType md = Some m ->
       String.prefix workspace_prefix m = true ->
       rest = [skipped_line "notes"]).
Proof.
  apply (non_folder_children_reach_download_file 1 notes_svc "root" "R" world_with_R
           (mkListResponse
              (Some [mkItem "d1" "notes" "application/vnd.google-apps.document"]))
           (mkItem "d1" "notes" "application/vnd.google-apps.document")).
  - reflexivity.
  - left. reflexivity.
  - reflexivity.
Defined.

(** C2, refuted as stated: the only child of ["R"] is an online document, and
    the walk does hand it to [download_file], whose metadata fetch
    [CallGet "d1"] is in the trace; the skip line that follows is the one
    [download_file] prints, and the walk prints none of its own. *)
Lemma virtual_child_is_dispatched :
  download_folder 3 notes_svc "root" "." empty_world =
    (Ret "./R",
     mkWorld {[ ["R"] := Dir ]}
       [CallGet "root"; Print "Downloading folder: R";
        CallList (children_query "root");
        CallGet "d1"; skipped_line "notes";
        Print "✅ Download complete: ./R"]).
Proof. reflexivity. Qed.

(** ** Directory creation *)

Lemma dirs_le_refl (m : FS) : dirs_le m m.
Proof. by intros k. Qed.

Lemma dirs_le_trans (m1 m2 m3 : FS) : dirs_le m1 m2 -> dirs_le m2 m3 -> dirs_le m1 m3.
Proof. intros H12 H23 k Hk. by apply H23, H12. Qed.

Lemma is_dir_insert_None (m : FS) (k k' : list string) (x : Entry) :
  stat m k ≠ Some Dir -> is_dir m k' -> is_dir (<[k := x]> m) k'.
Proof.
  unfold is_dir, stat. intros Hk Hk'. destruct k' as [|c k']; [done|].
  rewrite lookup_insert_ne; [done|]. by intros ->.
Qed.

Lemma mkdirs_spec (path : string) (todo : list string) :
  forall (made : list string) (m m1 : FS),
    mkdirs path true made todo m = inr m1 ->
    dirs_le m m1 /\
    forall i, 0 < i <= length todo -> is_dir m1 (made ++ take i todo).
Proof.
  induction todo as [|c rest IH]; intros made m m1 Hrun.
  - cbn in Hrun. injection Hrun as <-. split; [apply dirs_le_refl|]. cbn. lia.
  - cbn [mkdirs] in Hrun.
    assert (Hne : made ++ [c] ≠ []) by (by destruct made).
    assert (Hstat : stat m (made ++ [c]) = m !! (made ++ [c])).
    { unfold stat. by destruct (made ++ [c]). }
    assert (Hstep : forall m0,
      is_dir m0 (made ++ [c]) -> dirs_le m m0 ->
      mkdirs path true (made ++ [c]) rest m0 = inr m1 ->
      dirs_le m m1 /\
      forall i, 0 < i <= length (c :: rest) -> is_dir m1 (made ++ take i (c :: rest))).
    { intros m0 Hdir Hle Hrest. destruct (IH _ _ _ Hrest) as [Hle1 Hpre].
      split; [by eapply dirs_le_trans|].
      intros [|i] Hi; [lia|]. cbn [take].
      destruct i as [|i].
      - rewrite take_0. by apply Hle1.
      - replace (made ++ c :: take (S i) rest) with ((made ++ [c]) ++ take (S i) rest)
          by (by rewrite <- app_assoc).
        apply Hpre. cbn [length] in Hi. lia. }
    destruct (stat m (made ++ [c])) as [[|b]|] eqn:Hs.
    + destruct rest as [|c' rest'].
      * injection Hrun as <-. split; [apply dirs_le_refl|].
        intros i Hi. cbn [length] in Hi. replace i with 1 by lia. done.
      * apply (Hstep m); [done|apply dirs_le_refl|done].
    + by destruct rest.
    + assert (Hins : dirs_le m (<[made ++ [c] := Dir]> m)).
      { intros k Hk. apply is_dir_insert_None; [|done]. by rewrite Hs. }
      assert (Hdir : is_dir (<[made ++ [c] := Dir]> m) (made ++ [c])).
      { unfold is_dir, stat. destruct (made ++ [c]) eqn:E; [done|].
        apply lookup_insert_eq. }
      destruct rest as [|c' rest'].
      * cbn in Hrun. injection Hrun as <-. split; [done|].
        intros i Hi. cbn [length] in Hi. replace i with 1 by lia. done.
      * apply (Hstep (<[made ++ [c] := Dir]> m)); done.
Qed.

Lemma mkdirs_existing (path : string) (todo : list string) :
  forall (made : list string) (m : FS),
    (forall i, 0 < i <= length todo -> is_dir m (made ++ take i todo)) ->
    mkdirs path true made todo m = inr m.
Proof.
  induction todo as [|c rest IH]; intros made m Hdirs; [done|].
  cbn [mkdirs].
  assert (H1 : is_dir m (made ++ [c])).
  { apply (Hdirs 1). cbn [length]. lia. }
  unfold is_dir in H1. rewrite H1.
  destruct rest as [|c' rest']; [done|].
  apply IH. intros i Hi.
  replace ((made ++ [c]) ++ take i (c' :: rest'))
    with (made ++ take (S i) (c :: c' :: rest')) by (by rewrite <- app_assoc).
  apply Hdirs. cbn [length] in *. lia.
Qed.

Lemma makedirs_spec (path : string) (m m1 : FS) :
  makedirs path true m = inr m1 ->
  dirs_le m m1 /\ dir_exists m1 path.
Proof.
  unfold makedirs, dir_exists. case_bool_decide as Hp; [done|].
  destruct (resolve path) as [|c k] eqn:Hk.
  - intros [= <-]. split; [apply dirs_le_refl|]. split; [done|].
    intros i. by rewrite take_nil.
  - intros Hrun. destruct (mkdirs_spec _ _ _ _ _ Hrun) as [Hle Hpre].
    split; [done|]. split; [done|]. intros i.
    destruct (decide (i = 0)) as [->|Hi]; [done|].
    destruct (decide (i <= length (c :: k))) as [Hle'|Hgt].
    + apply (Hpre i). lia.
    + rewrite take_ge by lia. rewrite <- (take_ge (c :: k) (length (c :: k))) by lia.
      apply (Hpre (length (c :: k))). cbn [length]. lia.
Qed.

Lemma makedirs_existing (path : string) (m : FS) :
  dir_exists m path -> makedirs path true m = inr m.
Proof.
  intros [Hp Hdirs]. unfold makedirs. case_bool_decide; [done|].
  destruct (resolve path) as [|c k] eqn:Hk; [done|].
  apply mkdirs_existing. intros i _. apply (Hdirs i).
Qed.

Lemma dir_exists_mono (m m' : FS) (path : string) :
  dirs_le m m' -> dir_exists m path -> dir_exists m' path.
Proof. intros Hle [Hp Hdirs]. split; [done|]. intros i. apply Hle, Hdirs. Qed.

(** *** Nothing in the walk removes a directory *)

Lemma keeps_dirs_bind {A B} (c : M A) (k : A -> M B) :
  keeps_dirs c -> (forall a, keeps_dirs (k a)) -> keeps_dirs (bind c k).
Proof.
  intros Hc Hk w. unfold bind. specialize (Hc w).
  destruct (c w) as [[a|e|] w1]; cbn [snd] in *; [|done..].
  eapply dirs_le_trans; [exact Hc|apply Hk].
Qed.

Lemma keeps_dirs_emit (ev : Event) : keeps_dirs (emit ev).
Proof. intros w. apply dirs_le_refl. Qed.

Lemma keeps_dirs_lift {A} (r : exn + A) : keeps_dirs (lift r).
Proof. intros w. destruct r; apply dirs_le_refl. Qed.

Lemma keeps_dirs_makedirs (path : string) : keeps_dirs (os_makedirs path true).
Proof.
  intros w. unfold os_makedirs, fs_op.
  destruct (makedirs path true (fs w)) as [e|m1] eqn:Hrun; cbn.
  - apply dirs_le_refl.
  - by destruct (makedirs_spec _ _ _ Hrun).
Qed.

Lemma open_wb_not_dir (path : string) (m m1 : FS) :
  open_wb path m = inr m1 -> stat m (resolve path) ≠ Some Dir.
Proof.
  unfold open_wb. case_bool_decide; [done|].
  destruct (resolve path) as [|c k]; [done|].
  destruct (stat m (removelast (c :: k))) as [[|?]|]; try done.
  by destruct (stat m (c :: k)) as [[|?]|].
Qed.

Lemma keeps_dirs_download_file (svc : Service) (file_id file_name local_path : string) :
  keeps_dirs (download_file svc file_id file_name local_path).
Proof.
  intros w. destruct (files_get svc file_id) as [e|md] eqn:Hget.
  { rewrite (download_file_get_fails _ _ _ _ _ _ Hget). apply dirs_le_refl. }
  destruct (md_mimeType md) as [m|] eqn:Hm.
  2:{ rewrite (download_file_no_mime _ _ _ _ _ _ Hget Hm). apply dirs_le_refl. }
  destruct (String.prefix workspace_prefix m) eqn:Hp.
  { rewrite (download_file_skips _ _ _ _ _ _ _ Hget Hm Hp). apply dirs_le_refl. }
  destruct (open_wb (os_path_join local_path file_name) (fs w)) as [e|m1] eqn:Ho.
  - rewrite (download_file_open_fails _ _ _ _ _ _ _ _ Hget Hm Hp Ho). apply dirs_le_refl.
  - rewrite (download_file_streams _ _ _ _ _ _ _ _ Hget Hm Hp Ho). cbn [snd fs].
    intros k Hk. apply is_dir_insert_None; [|done]. by eapply open_wb_not_dir.
Qed.

Lemma keeps_dirs_for_each {A} (l : list A) (body : A -> M unit) :
  (forall x, keeps_dirs (body x)) -> keeps_dirs (for_each l body).
Proof.
  intros Hbody. induction l as [|x l IH]; [intros w; apply dirs_le_refl|].
  cbn [for_each]. by apply keeps_dirs_bind.
Qed.

Lemma keeps_dirs_process_item (recurse : string -> string -> M unit) (svc : Service)
    (local_path : string) (item : Item) :
  (forall i p, keeps_dirs (recurse i p)) ->
  keeps_dirs (process_item recurse svc local_path item).
Proof.
  intros Hrec. unfold process_item.
  destruct (String.eqb (mimeType item) folder_mime).
  - apply keeps_dirs_bind; [apply keeps_dirs_makedirs|]. intros _.
    apply keeps_dirs_bind; [apply keeps_dirs_emit|]. intros _. apply Hrec.
  - apply keeps_dirs_download_file.
Qed.

Lemma keeps_dirs_download_folder_contents (svc : Service) (fuel : nat) :
  forall folder_id local_path,
    keeps_dirs (download_folder_contents fuel svc folder_id local_path).
Proof.
  induction fuel as [|fuel IH]; intros folder_id local_path.
  - intros w. apply dirs_le_refl.
  - cbn [download_folder_contents]. apply keeps_dirs_bind.
    + apply keeps_dirs_bind; [apply keeps_dirs_emit|]. intros _. apply keeps_dirs_lift.
    + intros results. apply keeps_dirs_for_each. intros item.
      by apply keeps_dirs_process_item.
Qed.

(** *** A completed walk can be run again *)

Lemma rerunnable_seq (c k : M unit) :
  rerunnable c -> rerunnable k -> keeps_dirs k -> rerunnable (c ;;; k).
Proof.
  intros Hc Hk Hkeep w w1 Hrun w' Hle. unfold bind in *.
  destruct (c w) as [[[]|e|] wa] eqn:Hcw; [|done..].
  assert (Hle_a : dirs_le (fs wa) (fs w')).
  { eapply dirs_le_trans; [|exact Hle].
    specialize (Hkeep wa). by rewrite Hrun in Hkeep. }
  destruct (Hc _ _ Hcw _ Hle_a) as (wa' & -> & Hle').
  destruct (Hk _ _ Hrun wa') as (w'' & -> & Hle'').
  { eapply dirs_le_trans; [exact Hle|exact Hle']. }
  exists w''. split; [done|]. by eapply dirs_le_trans.
Qed.

Lemma rerunnable_print (msg : string) : rerunnable (print msg).
Proof.
  intros w w1 _ w' _. eexists. split; [reflexivity|]. apply dirs_le_refl.
Qed.

Lemma rerunnable_makedirs (path : string) : rerunnable (os_makedirs path true).
Proof.
  intros w w1 Hrun w' Hle. unfold os_makedirs, fs_op in *.
  destruct (makedirs path true (fs w)) as [e|m1] eqn:Hmk; [done|].
  injection Hrun as <-. cbn [fs] in Hle.
  destruct (makedirs_spec _ _ _ Hmk) as [_ Hex].
  rewrite (makedirs_existing path (fs w')) by (by eapply dir_exists_mono).
  eexists. split; [reflexivity|]. apply dirs_le_refl.
Qed.

Lemma rerunnable_download_file (svc : Service) (file_id file_name local_path : string) :
  rerunnable (download_file svc file_id file_name local_path).
Proof.
  intros w w1 _ w' _.
  pose proof (download_file_returns svc file_id file_name local_path w') as Hret.
  pose proof (keeps_dirs_download_file svc file_id file_name local_path w') as Hkeep.
  destruct (download_file svc file_id file_name local_path w') as [out w''].
  cbn in *. subst out. by exists w''.
Qed.

Lemma rerunnable_for_each {A} (l : list A) (body : A -> M unit) :
  (forall x, rerunnable (body x)) ->
  (forall x, keeps_dirs (body x)) ->
  rerunnable (for_each l body).
Proof.
  intros Hrun Hkeep. induction l as [|x l IH].
  - intros w w1 _ w' _. eexists. split; [reflexivity|]. apply dirs_le_refl.
  - cbn [for_each]. apply rerunnable_seq; [apply Hrun|apply IH|].
    by apply keeps_dirs_for_each.
Qed.

Lemma rerunnable_download_folder_contents (svc : Service) (fuel : nat) :
  forall folder_id local_path,
    rerunnable (download_folder_contents fuel svc folder_id local_path).
Proof.
  induction fuel as [|fuel IH]; intros folder_id local_path; [done|].
  intros w w1 Hrun w' Hle. cbn [download_folder_contents] in *.
  unfold bind at 1 in Hrun. unfold bind at 1.
  unfold list_execute, bind, emit, lift, ret, raise in *.
  destruct (files_list svc (children_query folder_id)) as [e|results]; [done|].
  cbn [fs log] in *.
  assert (Hloop : rerunnable (for_each (get_files results)
            (process_item (download_folder_contents fuel svc) svc local_path))).
  { apply rerunnable_for_each.
    - intros item. unfold process_item.
      destruct (String.eqb (mimeType item) folder_mime).
      + apply rerunnable_seq; [apply rerunnable_makedirs| |].
        * apply rerunnable_seq; [apply rerunnable_print|apply IH|].
          apply keeps_dirs_download_folder_contents.
        * apply keeps_dirs_bind; [apply keeps_dirs_emit|]. intros _.
          apply keeps_dirs_download_folder_contents.
      + apply rerunnable_download_file.
    - intros item. apply keeps_dirs_process_item.
      apply keeps_dirs_download_folder_contents. }
  apply (Hloop _ _ Hrun (mkWorld (fs w') _)). exact Hle.
Qed.

(** [download_folder] is the root fetch followed by the four steps of the
    walk and the return of the local root path. *)
Lemma download_folder_unfold (fuel : nat) (svc : Service)
    (folder_id local_path : string) (w : World) :
  download_folder fuel svc folder_id local_path w =
    match files_get svc folder_id with
    | inl e => (Raise e, mkWorld (fs w) (log w ++ [CallGet folder_id]))
    | inr folder =>
        let path := os_path_join local_path (md_name folder) in
        match (print ("Downloading folder: " +:+ md_name folder) ;;;
               os_makedirs path true ;;;
               download_folder_contents fuel svc folder_id path ;;;
               print ("✅ Download complete: " +:+ path))
                (mkWorld (fs w) (log w ++ [CallGet folder_id])) with
        | (Ret _, w1) => (Ret path, w1)
        | (Raise e, w1) => (Raise e, w1)
        | (OutOfFuel, w1) => (OutOfFuel, w1)
        end
    end.
Proof.
  unfold download_folder, get_execute. unfold bind at 1. unfold bind at 1.
  unfold emit at 1, lift, ret, raise.
  destruct (files_get svc folder_id) as [e|folder]; [reflexivity|].
  cbv zeta. cbn [fs log md_name]. unfold bind.
  repeat match goal with
         | |- context [let (_, _) := ?c in _] => destruct c as [[[]|?|] ?]
         end; reflexivity.
Qed.

(** C7.  Both [os.makedirs] calls of the walk pass [exist_ok=True]: on a
    directory that exists the call succeeds and changes nothing.  So a walk
    that has completed completes again, with the same result, from the world
    it left, and from any later world that still has the directories it
    made: no run fails on a directory that is already there. *)
Theorem makedirs_idempotent_rerun :
  (forall path m, dir_exists m path -> makedirs path true m = inr m) /\
  (forall fuel svc folder_id local_path w p w1,
     download_folder fuel svc folder_id local_path w = (Ret p, w1) ->
     forall w', dirs_le (fs w1) (fs w') ->
     exists w'', download_folder fuel svc folder_id local_path w' = (Ret p, w'')).
Proof.
  split; [apply makedirs_existing|].
  intros fuel svc folder_id local_path w p w1 Hrun w' Hle.
  rewrite download_folder_unfold in Hrun |- *.
  destruct (files_get svc folder_id) as [e|folder]; [done|].
  cbv zeta in *.
  set (path := os_path_join local_path (md_name folder)) in *.
  assert (Hwalk : rerunnable
    (print ("Downloading folder: " +:+ md_name folder) ;;;
     os_makedirs path true ;;;
     download_folder_contents fuel svc folder_id path ;;;
     print ("✅ Download complete: " +:+ path))).
  { apply rerunnable_seq; [apply rerunnable_print| |].
    - apply rerunnable_seq; [apply rerunnable_makedirs| |].
      + apply rerunnable_seq;
          [apply rerunnable_download_folder_contents|apply rerunnable_print|].
        apply keeps_dirs_emit.
      + apply keeps_dirs_bind; [apply keeps_dirs_download_folder_contents|].
        intros _. apply keeps_dirs_emit.
    - apply keeps_dirs_bind; [apply keeps_dirs_makedirs|]. intros _.
      apply keeps_dirs_bind; [apply keeps_dirs_download_folder_contents|].
      intros _. apply keeps_dirs_emit. }
  match type of Hrun with
  | match ?c ?w0 with _ => _ end = _ => destruct (c w0) as [[[]|e|] wa] eqn:Hfirst
  end; try done.
  injection Hrun as <- <-.
  destruct (Hwalk _ _ Hfirst (mkWorld (fs w') (log w' ++ [CallGet folder_id])) Hle)
    as (w'' & -> & _).
  by exists w''.
Qed.

Lemma makedirs_idempotent_rerun_witness :
  makedirs "./R/S" true (fs (snd (download_folder 3 demo_svc "root" "." empty_world))) =
    inr (fs (snd (download_folder 3 demo_svc "root" "." empty_world))) /\
  exists w'',
    download_folder 3 demo_svc "root" "."
        (snd (download_folder 3 demo_svc "root" "." empty_world)) =
      (Ret "./R", w'').
Proof.
  split.
  - apply (proj1 makedirs_idempotent_rerun).
    split; [done|]. intros [|[|[|i]]]; reflexivity.
  - apply (proj2 makedirs_idempotent_rerun 3 demo_svc "root" "." empty_world "./R"
             (snd (download_folder 3 demo_svc "root" "." empty_world))).
    + reflexivity.
    + intros k Hk. exact Hk.
Defined.

(** ** Trashed children *)

Ltac download_file_cases w :=
  match goal with
  | |- context [download_file ?svc ?i ?n ?p w] =>
      let e := fresh "e" in
      let md := fresh "md" in
      let m := fresh "m" in
      let m1 := fresh "m1" in
      let Hget := fresh "Hget" in
      let Hm := fresh "Hm" in
      let Hp := fresh "Hp" in
      let Ho := fresh "Ho" in
      destruct (files_get svc i) as [e|md] eqn:Hget;
      [ rewrite (download_file_get_fails svc i n p w e Hget)
      | destruct (md_mimeType md) as [m|] eqn:Hm;
        [ destruct (String.prefix workspace_prefix m) eqn:Hp;
          [ rewrite (download_file_skips svc i n p w md m Hget Hm Hp)
          | destruct (open_wb (os_path_join p n) (fs w)) as [e|m1] eqn:Ho;
            [ rewrite (download_file_open_fails svc i n p w md m e Hget Hm Hp Ho)
            | rewrite (download_file_streams svc i n p w md m m1 Hget Hm Hp Ho) ] ]
        | rewrite (download_file_no_mime svc i n p w md Hget Hm) ] ]
  end.

Lemma emits_download_file_ids (svc : Service) (file_id file_name local_path : string) :
  emits (download_file svc file_id file_name local_path)
    (fun _ evs => Forall (fun ev => forall i, event_id ev = Some i -> i = file_id) evs).
Proof.
  intros w. download_file_cases w; cbn [snd fst log]; eexists; (split; [reflexivity|]).
  1-3,5: repeat apply List.Forall_cons; try apply List.Forall_nil;
    cbn; intros; congruence.
  apply List.Forall_cons; [cbn; congruence|]. apply Forall_app. split.
  - apply Forall_forall. intros ev Hev. apply elem_of_replicate in Hev as [-> _].
    cbn. congruence.
  - apply List.Forall_cons; [|apply List.Forall_nil]. by destruct (transfer_error _).
Qed.

Lemma download_file_ext (svc svc' : Service) (file_id file_name local_path : string)
    (w : World) :
  files_get svc file_id = files_get svc' file_id ->
  get_media svc file_id = get_media svc' file_id ->
  download_file svc file_id file_name local_path w =
    download_file svc' file_id file_name local_path w.
Proof.
  intros Hget Hmedia.
  unfold download_file, try_except, download_file_body, get_execute, bind, lift.
  by rewrite Hget, Hmedia.
Qed.

Lemma for_each_ext {A} (l : list A) (body body' : A -> M unit) :
  (forall x, In x l -> forall w, body x w = body' x w) ->
  forall w, for_each l body w = for_each l body' w.
Proof.
  induction l as [|x l IH]; intros Hext w; [done|].
  cbn [for_each]. unfold bind. rewrite (Hext x) by (by left).
  destruct (body' x w) as [[[]|e|] w1]; [|done..].
  apply IH. intros y Hy. apply Hext. by right.
Qed.

Lemma filter_filter_implied {A} (P Q : A -> bool) (l : list A) :
  (forall x, P x = true -> Q x = true) ->
  List.filter P (List.filter Q l) = List.filter P l.
Proof.
  intros HPQ. induction l as [|x l IH]; [done|].
  cbn [List.filter]. destruct (Q x) eqn:HQ.
  - cbn [List.filter]. by rewrite IH.
  - destruct (P x) eqn:HP; [|done]. apply HPQ in HP. congruence.
Qed.

Lemma matches_live (folder_id : string) (f : DriveFile) :
  matches (children_query folder_id) f = true -> live f = true.
Proof.
  intros Hm. unfold matches in Hm. apply andb_prop in Hm as [_ Htr].
  apply Bool.eqb_prop in Htr. cbn in Htr. unfold live. by rewrite Htr.
Qed.

Lemma list_execute_drive (store : list DriveFile) (folder_id : string) (w : World) :
  list_execute (drive_service store) (children_query folder_id) w =
    (Ret (mkListResponse
            (Some (map item_of
                     (List.filter (matches (children_query folder_id)) store)))),
     mkWorld (fs w) (log w ++ [CallList (children_query folder_id)])).
Proof. reflexivity. Qed.

Section Trash.
Variable store : list DriveFile.
Hypothesis Hids : NoDup (map df_id store).

Lemma find_file_In (l : list DriveFile) (f : DriveFile) :
  NoDup (map df_id l) -> In f l -> find_file l (df_id f) = Some f.
Proof.
  unfold find_file. induction l as [|g l IH]; intros Hnd Hin; [done|].
  cbn [map] in Hnd. apply NoDup_cons in Hnd as [Hg Hnd].
  cbn [find]. destruct (String.eqb_spec (df_id g) (df_id f)) as [Heq|Hne].
  - destruct Hin as [->|Hin]; [done|]. exfalso. apply Hg.
    rewrite Heq. apply list_elem_of_In, in_map, Hin.
  - destruct Hin as [->|Hin]; [done|]. by apply IH.
Qed.

Lemma NoDup_live : NoDup (map df_id (List.filter live store)).
Proof.
  clear -Hids. induction store as [|g l IH]; [done|].
  cbn [map] in Hids. apply NoDup_cons in Hids as [Hg Hnd].
  cbn [List.filter]. destruct (live g); [|by apply IH].
  cbn [map]. apply NoDup_cons. split; [|by apply IH].
  intros Hin. apply Hg. apply list_elem_of_In in Hin. apply list_elem_of_In.
  apply in_map_iff in Hin as (f & Hf & Hin). apply in_map_iff.
  exists f. split; [done|]. by apply filter_In in Hin as [? _].
Qed.

(** A search for untrashed files sees the same files whether or not the
    trashed ones are in the store. *)
Lemma listing_ignores_trash (folder_id : string) :
  files_list (drive_service store) (children_query folder_id) =
  files_list (drive_service (List.filter live store)) (children_query folder_id).
Proof.
  cbn. do 3 f_equal. symmetry. f_equal.
  apply filter_filter_implied, matches_live.
Qed.

Lemma listed_is_live (folder_id : string) (item : Item) :
  In item (map item_of (List.filter (matches (children_query folder_id)) store)) ->
  exists f, In f store /\ item = item_of f /\ df_trashed f = false /\
            In folder_id (df_parents f).
Proof.
  intros Hin. apply in_map_iff in Hin as (f & <- & Hin).
  apply filter_In in Hin as [Hin Hm]. exists f. split; [done|]. split; [done|].
  unfold matches in Hm. apply andb_prop in Hm as [Hpar Htr]. split.
  - apply Bool.eqb_prop in Htr. exact Htr.
  - apply existsb_exists in Hpar as (p & Hp & Heq).
    apply String.eqb_eq in Heq. by subst.
Qed.

Lemma find_live (f : DriveFile) :
  In f store -> df_trashed f = false ->
  find_file store (df_id f) = Some f /\
  find_file (List.filter live store) (df_id f) = Some f.
Proof.
  intros Hin Hlive. split.
  - by apply find_file_In.
  - apply find_file_In; [apply NoDup_live|].
    apply filter_In. split; [done|]. unfold live. by rewrite Hlive.
Qed.

Lemma walk_ignores_trash (fuel : nat) :
  forall folder_id local_path w,
    download_folder_contents fuel (drive_service store) folder_id local_path w =
    download_folder_contents fuel (drive_service (List.filter live store))
      folder_id local_path w.
Proof.
  induction fuel as [|fuel IH]; intros folder_id local_path w; [done|].
  cbn [download_folder_contents]. unfold bind.
  rewrite !list_execute_drive. unfold get_files. cbn [files].
  rewrite (filter_filter_implied _ live) by apply matches_live.
  apply for_each_ext. intros item Hin w1.
  destruct (listed_is_live _ _ Hin) as (f & Hf & -> & Hlive & _).
  unfold process_item. cbn [item_of mimeType id name].
  destruct (String.eqb (df_mimeType f) folder_mime).
  - unfold bind. destruct (os_makedirs _ true w1) as [[[]|e|] w2]; [|done..].
    destruct (print _ w2) as [[[]|e|] w3]; [|done..]. apply IH.
  - destruct (find_live f Hf Hlive) as [H1 H2].
    apply download_file_ext; cbn; by rewrite H1, H2.
Qed.

Lemma walk_mentions_live (fuel : nat) :
  forall folder_id local_path,
    emits (download_folder_contents fuel (drive_service store) folder_id local_path)
      (fun _ evs =>
         Forall (fun ev => forall i, event_id ev = Some i ->
                           i = folder_id \/ live_id store i) evs).
Proof.
  induction fuel as [|fuel IH]; intros folder_id local_path.
  { intros w. exists []. cbn. by rewrite app_nil_r. }
  intros w. cbn [download_folder_contents]. unfold bind.
  rewrite list_execute_drive. unfold get_files. cbn [files].
  set (w1 := mkWorld (fs w) (log w ++ [CallList (children_query folder_id)])).
  assert (Hloop : emits
    (for_each (map item_of (List.filter (matches (children_query folder_id)) store))
       (process_item (download_folder_contents fuel (drive_service store))
          (drive_service store) local_path))
    (fun _ evs => Forall (fun ev => forall i, event_id ev = Some i -> live_id store i) evs)).
  { apply emits_for_each.
    - constructor.
    - intros out evs1 evs2 H1 H2. apply Forall_app. by split.
    - intros item Hin. destruct (listed_is_live _ _ Hin) as (f & Hf & -> & Hlive & _).
      assert (Hok : live_id store (df_id f)) by (by exists f).
      unfold process_item. cbn [item_of mimeType id name].
      destruct (String.eqb (df_mimeType f) folder_mime).
      + apply emits_bind with (Φ := fun _ evs => evs = []) (Ψ := fun _ _ evs =>
          Forall (fun ev => forall i, event_id ev = Some i -> live_id store i) evs).
        * apply emits_fs_op.
        * intros _. apply emits_bind with (Φ := fun _ evs => exists msg, evs = [Print msg])
            (Ψ := fun _ _ evs =>
               Forall (fun ev => forall i, event_id ev = Some i -> live_id store i) evs).
          -- intros w2. eexists. split; [reflexivity|]. by eexists.
          -- intros _. eapply emits_weaken; [apply IH|].
             intros out evs Hall. eapply Forall_impl; [exact Hall|].
             intros ev Hev i Hi. destruct (Hev i Hi) as [->|]; done.
          -- intros _ evs1 out evs2 [msg ->] Hall. by constructor.
          -- intros e evs [msg ->]. by repeat constructor.
          -- intros evs [msg ->]. by repeat constructor.
        * by intros _ evs1 out evs2 -> Hall.
        * by intros e evs ->.
        * by intros evs ->.
      + eapply emits_weaken; [apply emits_download_file_ids|].
        intros out evs Hall. eapply Forall_impl; [exact Hall|].
        intros ev Hev i Hi. by rewrite (Hev i Hi). }
  destruct (Hloop w1) as (evs & Hlog & Hall).
  exists (CallList (children_query folder_id) :: evs). split.
  - rewrite Hlog. subst w1. cbn [log]. by rewrite <- app_assoc.
  - constructor.
    + intros i [= <-]. by left.
    + eapply Forall_impl; [exact Hall|]. intros ev Hev i Hi. right. by apply Hev.
Qed.

End Trash.

(** C10.  The listing asks for [trashed=false].  On a Drive whose files have
    distinct ids, the walk of a folder does exactly what it would do if the
    trashed files were not there at all: same outcome, same local file
    system, same calls.  And every call the walk makes is about the folder it
    was given or about a file that is not in the trash, so no trashed child
    is listed, fetched or downloaded. *)
Theorem trashed_children_are_ignored (store : list DriveFile) (fuel : nat)
    (folder_id local_path : string) (w : World) :
  NoDup (map df_id store) ->
  let r := download_folder_contents fuel (drive_service store) folder_id local_path w in
  r = download_folder_contents fuel (drive_service (List.filter live store))
        folder_id local_path w /\
  exists evs,
    log (snd r) = log w ++ evs /\
    Forall (fun ev => forall i, event_id ev = Some i ->
                      i = folder_id \/ live_id store i) evs.
Proof.
  intros Hids r. split.
  - by apply walk_ignores_trash.
  - apply (walk_mentions_live store fuel folder_id local_path w).
Qed.

Lemma trashed_children_are_ignored_witness :
  download_folder_contents 3 (drive_service trash_store) "root" "R" world_with_R =
    download_folder_contents 3 (drive_service (List.filter live trash_store))
      "root" "R" world_with_R /\
  exists evs,
    log (snd (download_folder_contents 3 (drive_service trash_store) "root" "R"
                world_with_R)) = log world_with_R ++ evs /\
    Forall (fun ev => forall i, event_id ev = Some i ->
                      i = "root" \/ live_id trash_store i) evs.
Proof.
  apply (trashed_children_are_ignored trash_store 3 "root" "R" world_with_R).
  apply (bool_decide_unpack _). vm_compute. reflexivity.
Defined.

(** ** Paths *)

Lemma split_slash_cons (c : ascii) (r : string) :
  split_slash (String c r) =
    if bool_decide (c = "/"%char) then "" :: split_slash r
    else match split_slash r with
         | [] => [String c ""]
         | h :: t => String c h :: t
         end.
Proof. reflexivity. Qed.

Lemma append_cons (c : ascii) (r b : string) :
  String c r +:+ b = String c (r +:+ b).
Proof. reflexivity. Qed.

Lemma split_slash_nonempty (s : string) : split_slash s ≠ [].
Proof.
  destruct s as [|c r]; [done|]. rewrite split_slash_cons.
  case_bool_decide; [done|]. by destruct (split_slash r).
Qed.

Lemma split_slash_no_slash (n : string) :
  has_slash n = false -> split_slash n = [n].
Proof.
  induction n as [|c r IH]; [done|]. rewrite split_slash_cons. cbn [has_slash].
  case_bool_decide; [done|]. cbn [orb]. intros Hr. by rewrite IH.
Qed.

Lemma split_slash_app_slash (a b : string) :
  split_slash (a +:+ String "/" b) = split_slash a ++ split_slash b.
Proof.
  induction a as [|c r IH]; [done|].
  rewrite append_cons, !split_slash_cons, IH.
  case_bool_decide; [done|].
  pose proof (split_slash_nonempty r). by destruct (split_slash r).
Qed.

Lemma endswith_slash_inv (a : string) :
  endswith_slash a = true -> exists a', a = a' +:+ "/".
Proof.
  induction a as [|c r IH]; [done|].
  destruct r as [|c' r'].
  - cbn [endswith_slash]. case_bool_decide; [|done]. subst. by exists "".
  - intros H. destruct (IH H) as [a' ->]. by exists (String c a').
Qed.

Lemma append_slash_assoc (a b : string) :
  (a +:+ "/") +:+ b = a +:+ String "/" b.
Proof. induction a as [|c r IH]; [done|]. rewrite !append_cons. by rewrite IH. Qed.

Lemma append_empty_inv (a b : string) : a +:+ b = "" -> b = "".
Proof. by destruct a. Qed.

Lemma safe_name_inv (n : string) :
  safe_name n = true ->
  has_slash n = false /\ proper_segment n = true /\ String.prefix "/" n = false /\ n ≠ "".
Proof.
  unfold safe_name. intros H.
  apply andb_prop in H as [H _]. apply andb_prop in H as [Hs Hp].
  apply negb_true_iff in Hs. repeat split; try done.
  - destruct n as [|c r]; [reflexivity|]. cbn [has_slash] in Hs.
    apply orb_false_iff in Hs as [Hc _]. apply bool_decide_eq_false in Hc.
    cbn [String.prefix]. destruct (ascii_dec "/" c) as [<-|]; [done|reflexivity].
  - intros ->. discriminate Hp.
Qed.

(** Joining a directory and a safe name adds one segment to the resolved
    path. *)
Lemma resolve_join (a n : string) :
  safe_name n = true ->
  resolve (os_path_join a n) = resolve a ++ [n] /\ os_path_join a n ≠ "".
Proof.
  intros Hsafe. destruct (safe_name_inv _ Hsafe) as (Hs & Hp & Hpre & Hne).
  unfold os_path_join. rewrite Hpre.
  assert (Hn : List.filter proper_segment [n] = [n]).
  { cbn [List.filter]. by rewrite Hp. }
  assert (He0 : List.filter proper_segment (split_slash "") = []) by reflexivity.
  case_bool_decide as Ha; cbn [orb].
  - subst a. change ("" +:+ n) with n. split; [|done]. unfold resolve.
    by rewrite (split_slash_no_slash _ Hs), He0, Hn.
  - destruct (endswith_slash a) eqn:He.
    + destruct (endswith_slash_inv _ He) as [a' ->]. split.
      * rewrite append_slash_assoc. unfold resolve.
        rewrite (split_slash_app_slash a' n), (split_slash_app_slash a' "").
        rewrite !List.filter_app, (split_slash_no_slash _ Hs), Hn, He0.
        by rewrite app_nil_r.
      * intros H. by apply append_empty_inv in H.
    + change ("/" +:+ n) with (String "/" n). split.
      * unfold resolve. rewrite split_slash_app_slash, List.filter_app.
        by rewrite (split_slash_no_slash _ Hs), Hn.
      * intros H. by apply append_empty_inv in H.
Qed.

(** ** Creating what is not there yet *)

Lemma stat_nonempty (m : FS) (pk : list string) (n : string) (rel : list string) :
  stat m (pk ++ n :: rel) = m !! (pk ++ n :: rel).
Proof. unfold stat. by destruct pk. Qed.

Lemma mkdirs_step_dir (path : string) (ok : bool) (made : list string) (c : string)
    (rest : list string) (m : FS) :
  is_dir m (made ++ [c]) ->
  rest ≠ [] ->
  mkdirs path ok made (c :: rest) m = mkdirs path ok (made ++ [c]) rest m.
Proof.
  intros Hdir Hrest. cbn [mkdirs]. unfold is_dir in Hdir. rewrite Hdir.
  by destruct rest.
Qed.

Lemma mkdirs_fresh (path : string) (n : string) (todo : list string) :
  forall (made : list string) (m : FS),
    (forall i, 0 < i <= length todo -> is_dir m (made ++ take i todo)) ->
    m !! (made ++ todo ++ [n]) = None ->
    mkdirs path true made (todo ++ [n]) m = inr (<[made ++ todo ++ [n] := Dir]> m).
Proof.
  induction todo as [|c rest IH]; intros made m Hdirs Hnone.
  - cbn [app mkdirs] in *. rewrite stat_nonempty, Hnone. reflexivity.
  - cbn [app].
    assert (H1 : is_dir m (made ++ [c])).
    { apply (Hdirs 1). cbn [length]. lia. }
    rewrite mkdirs_step_dir by (done || by destruct rest).
    replace (made ++ c :: rest ++ [n]) with ((made ++ [c]) ++ rest ++ [n])
      by (by rewrite <- app_assoc).
    apply IH.
    + intros i Hi.
      replace ((made ++ [c]) ++ take i rest) with (made ++ take (S i) (c :: rest))
        by (by rewrite <- app_assoc).
      apply Hdirs. cbn [length]. lia.
    + by rewrite <- app_assoc.
Qed.

Lemma makedirs_fresh (path : string) (pk : list string) (n : string) (m : FS) :
  path ≠ "" ->
  resolve path = pk ++ [n] ->
  dir_chain m pk ->
  m !! (pk ++ [n]) = None ->
  makedirs path true m = inr (<[pk ++ [n] := Dir]> m).
Proof.
  intros Hp Hk Hchain Hnone. unfold makedirs. case_bool_decide; [done|].
  rewrite Hk. destruct (pk ++ [n]) as [|c l] eqn:E; [by destruct pk|].
  rewrite <- E in *.
  apply (mkdirs_fresh path n pk [] m); [|done].
  intros i _. apply Hchain.
Qed.

Lemma open_wb_fresh (path : string) (pk : list string) (n : string) (m : FS) :
  path ≠ "" ->
  resolve path = pk ++ [n] ->
  is_dir m pk ->
  m !! (pk ++ [n]) = None ->
  open_wb path m = inr (<[pk ++ [n] := File []]> m).
Proof.
  intros Hp Hk Hdir Hnone. unfold open_wb. case_bool_decide; [done|].
  rewrite Hk. destruct (pk ++ [n]) as [|c l] eqn:E; [by destruct pk|].
  rewrite <- E in *.
  rewrite removelast_last. unfold is_dir in Hdir. rewrite Hdir.
  by rewrite stat_nonempty, Hnone.
Qed.

Lemma dir_chain_self (m : FS) (pk : list string) : dir_chain m pk -> is_dir m pk.
Proof. intros H. specialize (H (length pk)). by rewrite take_ge in H. Qed.

Lemma under_inj (pk : list string) (n n' : string) (rel rel' : list string) :
  pk ++ n :: rel = pk ++ n' :: rel' -> n = n' /\ rel = rel'.
Proof. intros H. apply app_inv_head in H. by injection H. Qed.

Lemma take_not_under (pk : list string) (j : nat) (n : string) (rel : list string) :
  take j pk ≠ pk ++ n :: rel.
Proof.
  intros H. apply (f_equal length) in H.
  rewrite length_app, length_take in H. cbn [length] in H. lia.
Qed.

Lemma dir_chain_frame (m m' : FS) (pk : list string) :
  (forall j, take j pk ≠ [] -> m' !! take j pk = m !! take j pk) ->
  dir_chain m pk -> dir_chain m' pk.
Proof.
  intros Hframe Hchain j. specialize (Hchain j). unfold is_dir, stat in *.
  destruct (take j pk) as [|c l] eqn:E; [done|].
  rewrite <- Hchain. rewrite <- E. apply Hframe. by rewrite E.
Qed.

Lemma dir_chain_extend (m : FS) (pk : list string) (n : string) :
  dir_chain m pk ->
  m !! (pk ++ [n]) = None ->
  dir_chain (<[pk ++ [n] := Dir]> m) (pk ++ [n]).
Proof.
  intros Hchain Hnone j. destruct (decide (j <= length pk)) as [Hj|Hj].
  - rewrite take_app_le by done. apply is_dir_insert_None; [|apply Hchain].
    by rewrite stat_nonempty, Hnone.
  - rewrite take_ge by (rewrite length_app; cbn; lia).
    unfold is_dir. rewrite stat_nonempty. apply lookup_insert_eq.
Qed.

(** ** The walk of a well-named tree *)

Lemma find_child_cons (c : string) (t : RemoteNode) (kids : list RemoteNode) :
  find_child c (t :: kids) =
    if String.eqb (name_of t) c then Some t else find_child c kids.
Proof. reflexivity. Qed.

Lemma find_child_None (c : string) (kids : list RemoteNode) :
  ~ In c (map name_of kids) -> find_child c kids = None.
Proof.
  induction kids as [|t kids IH]; [reflexivity|]. intros Hc.
  rewrite find_child_cons. destruct (String.eqb_spec (name_of t) c) as [Heq|Hne].
  - exfalso. apply Hc. by left.
  - apply IH. intros Hin. apply Hc. by right.
Qed.

Lemma expected_unfold (svc : Service) (kids : list RemoteNode) (c : string)
    (rel : list string) :
  expected svc kids (c :: rel) =
    match find_child c kids with
    | Some t => expected_node svc t rel
    | None => None
    end.
Proof.
  cbn [expected]. destruct (find_child c kids) as [[i n kids'|i n m]|]; by destruct rel.
Qed.

Lemma expected_cons (svc : Service) (t : RemoteNode) (kids : list RemoteNode)
    (c : string) (rel : list string) :
  expected svc (t :: kids) (c :: rel) =
    if String.eqb (name_of t) c then expected_node svc t rel
    else expected svc kids (c :: rel).
Proof.
  rewrite !expected_unfold, find_child_cons.
  by destruct (String.eqb (name_of t) c).
Qed.

Lemma depth_le_list_max (t : RemoteNode) (kids : list RemoteNode) :
  In t kids -> depth t <= list_max (map depth kids).
Proof.
  induction kids as [|t' kids IH]; [done|]. cbn [map].
  change (list_max (depth t' :: map depth kids))
    with (Nat.max (depth t') (list_max (map depth kids))).
  intros [->|Hin]; [lia|]. specialize (IH Hin). lia.
Qed.

(** The image of a folder: its directory, and below it the image of its
    children. *)
Lemma mirrored_folder (svc : Service) (pk : list string) (i n : string)
    (kids : list RemoteNode) (m m' : FS) :
  (forall rel, m !! (pk ++ n :: rel) = None) ->
  mirrored svc (pk ++ [n]) kids (<[pk ++ [n] := Dir]> m) m' ->
  (forall rel, m' !! (pk ++ n :: rel) = expected_node svc (RFolder i n kids) rel) /\
  (forall k, (forall rel, k ≠ pk ++ n :: rel) -> m' !! k = m !! k).
Proof.
  intros Hfresh [Himg Hframe].
  assert (Hlen : forall c rel, pk ++ [n] ≠ (pk ++ [n]) ++ c :: rel).
  { intros c rel H. apply (f_equal length) in H. rewrite !length_app in H.
    cbn [length] in H. lia. }
  split.
  - intros [|c rel]; cbn [expected_node].
    + rewrite Hframe; [apply lookup_insert_eq|]. intros n' rel' _. apply Hlen.
    + replace (pk ++ n :: c :: rel) with ((pk ++ [n]) ++ c :: rel)
        by (by rewrite <- app_assoc).
      destruct (in_dec String.string_dec c (map name_of kids)) as [Hc|Hc].
      * by apply Himg.
      * rewrite Hframe.
        -- rewrite lookup_insert_ne by apply Hlen.
           rewrite <- app_assoc. cbn [app]. rewrite Hfresh.
           by rewrite expected_unfold, find_child_None.
        -- intros n' rel' Hn' H. apply under_inj in H as [-> _]. done.
  - intros k Hk. rewrite Hframe.
    + rewrite lookup_insert_ne; [done|]. intros <-. by apply (Hk []).
    + intros n' rel' _ ->. apply (Hk (n' :: rel')). by rewrite <- app_assoc.
Qed.

Section Walk.
Variable svc : Service.
Variable fuel : nat.
Hypothesis IHfuel : contents_ok svc fuel.
Variable path : string.

Let pk := resolve path.

(** One item of the loop. *)
Lemma item_ok (t : RemoteNode) (w : World) :
  served svc t ->
  well_named t ->
  safe_name (name_of t) = true ->
  depth t <= fuel ->
  dir_chain (fs w) pk ->
  (forall rel, fs w !! (pk ++ name_of t :: rel) = None) ->
  exists w',
    process_item (download_folder_contents fuel svc) svc path (node_item t) w
      = (Ret tt, w') /\
    (forall rel, fs w' !! (pk ++ name_of t :: rel) = expected_node svc t rel) /\
    (forall k, (forall rel, k ≠ pk ++ name_of t :: rel) -> fs w' !! k = fs w !! k).
Proof.
  intros Hserved Hnamed Hsafe Hdepth Hchain Hfresh.
  destruct t as [i n kids|i n m]; unfold name_of in *; cbn [node_item name] in *.
  - (* a folder *)
    destruct (resolve_join path n Hsafe) as [Hk Hne]. fold pk in Hk.
    unfold process_item. cbn [mimeType name id]. rewrite String.eqb_refl.
    unfold bind at 1. unfold os_makedirs, fs_op.
    rewrite (makedirs_fresh _ pk n) by (done || apply (Hfresh [])).
    unfold bind at 1. unfold print, emit. cbn [fs log].
    set (w2 := mkWorld (<[pk ++ [n] := Dir]> (fs w)) _).
    destruct (IHfuel i n kids (os_path_join path n) w2) as (w' & Hrun & Himg & Hframe).
    + done.
    + done.
    + cbn [depth] in Hdepth. lia.
    + rewrite Hk. apply dir_chain_extend; [done|apply (Hfresh [])].
    + intros n' rel Hn'. rewrite Hk. subst w2. cbn [fs].
      rewrite <- app_assoc. cbn [app].
      rewrite lookup_insert_ne; [apply Hfresh|].
      intros H. apply (f_equal length) in H. rewrite !length_app in H.
      cbn [length] in H. lia.
    + rewrite Hk in Himg, Hframe. exists w'. split; [done|].
      by apply mirrored_folder.
  - (* a file *)
    inversion Hserved as [|? ? ? Hmime]; subst.
    destruct (resolve_join path n Hsafe) as [Hk Hne]. fold pk in Hk.
    unfold process_item. cbn [mimeType name id]. rewrite Hmime.
    assert (Hopen : open_wb (os_path_join path n) (fs w) =
                      inr (<[pk ++ [n] := File []]> (fs w))).
    { apply open_wb_fresh; [done..|by apply dir_chain_self|apply (Hfresh [])]. }
    download_file_cases w; cbn [fs]; (eexists; split; [reflexivity|]); cbn [fs].
    + split; [|done]. intros [|c rel]; cbn [expected_node]; [|apply Hfresh].
      unfold leaf_entry, reaches_open. rewrite Hget. apply Hfresh.
    + split; [|done]. intros [|c rel]; cbn [expected_node]; [|apply Hfresh].
      unfold leaf_entry, reaches_open. rewrite Hget, Hm, Hp. apply Hfresh.
    + congruence.
    + rewrite Hk. split.
      * intros [|c rel]; cbn [expected_node].
        -- unfold leaf_entry, reaches_open. rewrite Hget, Hm, Hp.
           apply lookup_insert_eq.
        -- rewrite lookup_insert_ne; [apply Hfresh|].
           intros H. apply (f_equal length) in H. rewrite !length_app in H.
           cbn [length] in H. lia.
      * intros k Hk'. rewrite lookup_insert_ne; [done|].
        intros <-. by apply (Hk' []).
    + split; [|done]. intros [|c rel]; cbn [expected_node]; [|apply Hfresh].
      unfold leaf_entry, reaches_open. rewrite Hget, Hm. apply Hfresh.
Qed.

(** The loop over the children. *)
Lemma loop_ok (kids : list RemoteNode) :
  forall w,
    Forall (served svc) kids ->
    Forall well_named kids ->
    NoDup (map name_of kids) ->
    Forall (fun t => safe_name (name_of t) = true) kids ->
    Forall (fun t => depth t <= fuel) kids ->
    dir_chain (fs w) pk ->
    (forall n rel, In n (map name_of kids) -> fs w !! (pk ++ n :: rel) = None) ->
    exists w',
      for_each (map node_item kids)
        (process_item (download_folder_contents fuel svc) svc path) w
        = (Ret tt, w') /\
      mirrored svc pk kids (fs w) (fs w').
Proof.
  induction kids as [|t kids IH];
    intros w Hserved Hnamed Hnodup Hsafe Hdepth Hchain Hfresh.
  { exists w. split; [done|]. split; [by intros n rel []|done]. }
  apply Forall_cons in Hserved as [Hs_t Hs]. apply Forall_cons in Hnamed as [Hn_t Hn].
  apply Forall_cons in Hsafe as [Hsafe_t Hsafe]. apply Forall_cons in Hdepth as [Hd_t Hd].
  cbn [map] in Hnodup. apply NoDup_cons in Hnodup as [Hnotin Hnodup].
  rewrite list_elem_of_In in Hnotin.
  destruct (item_ok t w Hs_t Hn_t Hsafe_t Hd_t Hchain) as (w1 & Hrun1 & Himg1 & Hframe1).
  { intros rel. apply Hfresh. by left. }
  destruct (IH w1 Hs Hn Hnodup Hsafe Hd) as (w' & Hrun & Himg & Hframe).
  { eapply dir_chain_frame; [|exact Hchain].
    intros j _. apply Hframe1. intros rel. apply take_not_under. }
  { intros n rel Hin. rewrite Hframe1; [apply Hfresh; by right|].
    intros rel' H. apply under_inj in H as [-> _]. done. }
  exists w'. split.
  { cbn [map for_each]. unfold bind. by rewrite Hrun1. }
  split.
  - intros n rel Hin. rewrite expected_cons.
    destruct (String.eqb_spec (name_of t) n) as [<-|Hne].
    + rewrite Hframe; [apply Himg1|].
      intros n' rel' Hn' H. apply under_inj in H as [<- _]. done.
    + destruct Hin as [Heq|Hin]; [done|]. by apply Himg.
  - intros k Hk. rewrite Hframe, Hframe1; [done| |].
    + intros rel. apply Hk. by left.
    + intros n rel Hin. apply Hk. by right.
Qed.

End Walk.

Lemma contents_ok_all (svc : Service) (fuel : nat) : contents_ok svc fuel.
Proof.
  induction fuel as [|fuel IH]; intros i nm kids path w Hserved Hnamed Hdepth Hchain Hfresh;
    [lia|].
  inversion Hserved as [? ? ? resp Hlist Hitems Hkids|]; subst.
  inversion Hnamed as [? ? ? Hnodup Hsafe Hwn|]; subst.
  cbn [download_folder_contents]. unfold bind at 1.
  unfold list_execute, bind, emit, lift. rewrite Hlist. unfold ret. rewrite Hitems.
  apply (loop_ok svc fuel IH path kids (mkWorld (fs w) _)); try done.
  apply Forall_forall. intros t Ht. apply list_elem_of_In in Ht.
  pose proof (depth_le_list_max t kids Ht). lia.
Qed.

(** The whole mirror of a well-named tree into a destination that exists and
    has nothing yet under the name of the root. *)
Lemma mirror_spec (svc : Service) (fuel : nat) (root_id dest : string) (w : World)
    (md : Metadata) (kids : list RemoteNode) :
  files_get svc root_id = inr md ->
  served svc (RFolder root_id (md_name md) kids) ->
  well_named (RFolder root_id (md_name md) kids) ->
  safe_name (md_name md) = true ->
  depth (RFolder root_id (md_name md) kids) <= fuel ->
  dir_chain (fs w) (resolve dest) ->
  (forall rel, fs w !! (resolve dest ++ md_name md :: rel) = None) ->
  exists w',
    download_folder fuel svc root_id dest w =
      (Ret (os_path_join dest (md_name md)), w') /\
    resolve (os_path_join dest (md_name md)) = resolve dest ++ [md_name md] /\
    (forall rel,
       fs w' !! (resolve dest ++ md_name md :: rel) =
         expected_node svc (RFolder root_id (md_name md) kids) rel) /\
    (forall k, (forall rel, k ≠ resolve dest ++ md_name md :: rel) ->
       fs w' !! k = fs w !! k).
Proof.
  intros Hget Hserved Hnamed Hsafe Hdepth Hchain Hfresh.
  destruct (resolve_join dest _ Hsafe) as [Hk Hne].
  rewrite download_folder_unfold, Hget. cbv zeta.
  unfold bind at 1. unfold print at 1, emit. cbn [fs log].
  unfold bind at 1. unfold os_makedirs, fs_op. cbn [fs log].
  rewrite (makedirs_fresh _ (resolve dest) (md_name md)) by (done || apply (Hfresh [])).
  unfold bind at 1.
  set (w2 := mkWorld (<[resolve dest ++ [md_name md] := Dir]> (fs w)) _).
  destruct (contents_ok_all svc fuel root_id (md_name md) kids
              (os_path_join dest (md_name md)) w2) as (w' & Hrun & Himg).
  - done.
  - done.
  - cbn [depth] in Hdepth. lia.
  - rewrite Hk. apply dir_chain_extend; [done|apply (Hfresh [])].
  - intros n' rel Hn'. rewrite Hk. subst w2. cbn [fs].
    rewrite <- app_assoc. cbn [app].
    rewrite lookup_insert_ne; [apply Hfresh|].
    intros H. apply (f_equal length) in H. rewrite !length_app in H.
    cbn [length] in H. lia.
  - rewrite Hrun. cbn [print emit]. eexists. split; [reflexivity|].
    split; [done|]. cbn [fs]. rewrite Hk in Himg.
    by apply mirrored_folder.
Qed.

(** ** Nodes of the tree and entries of the image *)

Lemma located_nonempty (kids : list RemoteNode) (rel : list string) (t : RemoteNode) :
  located kids rel t -> rel ≠ [].
Proof. by intros []. Qed.

Lemma find_child_In (kids : list RemoteNode) (t : RemoteNode) :
  NoDup (map name_of kids) -> In t kids -> find_child (name_of t) kids = Some t.
Proof.
  induction kids as [|t' kids IH]; [done|]. cbn [map]. intros Hnd Hin.
  apply NoDup_cons in Hnd as [Hnotin Hnd]. rewrite find_child_cons.
  destruct (String.eqb_spec (name_of t') (name_of t)) as [Heq|Hne].
  - destruct Hin as [->|Hin]; [done|]. exfalso. apply Hnotin.
    rewrite Heq. apply list_elem_of_In, in_map, Hin.
  - destruct Hin as [->|Hin]; [done|]. by apply IH.
Qed.

Lemma find_child_Some (c : string) (kids : list RemoteNode) (t : RemoteNode) :
  find_child c kids = Some t -> In t kids /\ name_of t = c.
Proof.
  unfold find_child. intros H. apply find_some in H as [Hin Heq].
  by apply String.eqb_eq in Heq.
Qed.

Lemma expected_located (svc : Service) (kids : list RemoteNode) (rel : list string)
    (t : RemoteNode) :
  located kids rel t ->
  NoDup (map name_of kids) ->
  Forall well_named kids ->
  expected svc kids rel = expected_node svc t [].
Proof.
  induction 1 as [kids t Hin|kids i n kids' rel t Hin Hloc IH]; intros Hnd Hwn.
  - by rewrite expected_unfold, (find_child_In _ _ Hnd Hin).
  - assert (Hf : find_child n kids = Some (RFolder i n kids'))
      by exact (find_child_In _ (RFolder i n kids') Hnd Hin).
    rewrite expected_unfold, Hf.
    pose proof (located_nonempty _ _ _ Hloc) as Hrel.
    destruct rel as [|c rel]; [done|]. cbn [expected_node].
    rewrite Forall_forall in Hwn. apply list_elem_of_In in Hin.
    specialize (Hwn _ Hin). inversion Hwn; subst. by apply IH.
Qed.

Lemma leaf_entry_not_dir (svc : Service) (i : string) : leaf_entry svc i ≠ Some Dir.
Proof. unfold leaf_entry. by destruct (reaches_open svc i). Qed.

Lemma expected_dir_located (svc : Service) (rel : list string) :
  forall kids,
    expected svc kids rel = Some Dir ->
    exists i n kids', located kids rel (RFolder i n kids').
Proof.
  induction rel as [|c rel IH]; intros kids Hexp; [done|].
  rewrite expected_unfold in Hexp.
  destruct (find_child c kids) as [t|] eqn:Hfind; [|done].
  apply find_child_Some in Hfind as [Hin <-].
  destruct t as [i n kids'|i n m].
  - destruct rel as [|c' rel].
    + exists i, n, kids'. by apply (located_child kids (RFolder i n kids')).
    + cbn [expected_node] in Hexp. destruct (IH _ Hexp) as (i' & n' & kids'' & Hloc).
      exists i', n', kids''. by apply located_below with i kids'.
  - destruct rel; cbn [expected_node] in Hexp; [|done].
    by apply leaf_entry_not_dir in Hexp.
Qed.

Lemma located_served (svc : Service) (kids : list RemoteNode) (rel : list string)
    (t : RemoteNode) :
  located kids rel t -> Forall (served svc) kids -> served svc t.
Proof.
  induction 1 as [kids t Hin|kids i n kids' rel t Hin Hloc IH]; intros Hall;
    rewrite Forall_forall in Hall; apply list_elem_of_In in Hin.
  - by apply Hall.
  - specialize (Hall _ Hin). inversion Hall; subst. by apply IH.
Qed.

Lemma located_healthy (svc : Service) (kids : list RemoteNode) (rel : list string)
    (t : RemoteNode) :
  located kids rel t -> Forall (healthy svc) kids -> healthy svc t.
Proof.
  induction 1 as [kids t Hin|kids i n kids' rel t Hin Hloc IH]; intros Hall;
    rewrite Forall_forall in Hall; apply list_elem_of_In in Hin.
  - by apply Hall.
  - specialize (Hall _ Hin). inversion Hall; subst. by apply IH.
Qed.

(** ** Creating the local root *)

(** With no regular file in the way, [os.makedirs] creates the directories
    that are missing on the way to [made ++ todo] and changes nothing else. *)
Lemma mkdirs_creates (path : string) (todo : list string) :
  forall (made : list string) (m : FS),
    (forall i b, 0 < i <= length todo ->
       m !! (made ++ take i todo) ≠ Some (File b)) ->
    exists m1,
      mkdirs path true made todo m = inr m1 /\
      (forall i, 0 < i <= length todo -> m1 !! (made ++ take i todo) = Some Dir) /\
      (forall k, (forall i, 0 < i <= length todo -> k ≠ made ++ take i todo) ->
         m1 !! k = m !! k).
Proof.
  induction todo as [|c rest IH]; intros made m Hfiles.
  { exists m. split; [done|]. split; [|done]. intros i Hi. cbn [length] in Hi. lia. }
  assert (Hstep : forall m0,
    m0 !! (made ++ [c]) = Some Dir ->
    (forall k, k ≠ made ++ [c] -> m0 !! k = m !! k) ->
    exists m1,
      mkdirs path true (made ++ [c]) rest m0 = inr m1 /\
      (forall i, 0 < i <= length (c :: rest) ->
         m1 !! (made ++ take i (c :: rest)) = Some Dir) /\
      (forall k, (forall i, 0 < i <= length (c :: rest) ->
                    k ≠ made ++ take i (c :: rest)) ->
         m1 !! k = m !! k)).
  { intros m0 Hdir Hsame.
    assert (Hshift : forall j,
      (made ++ [c]) ++ take j rest = made ++ take (S j) (c :: rest)).
    { intros j. by rewrite <- app_assoc. }
    assert (Hne : forall j, 0 < j <= length rest ->
      (made ++ [c]) ++ take j rest ≠ made ++ [c]).
    { intros j Hj H. apply (f_equal length) in H.
      rewrite !length_app, length_take in H. cbn [length] in H. lia. }
    destruct (IH (made ++ [c]) m0) as (m1 & Hrun & Hdirs & Hframe).
    { intros i b Hi. rewrite Hsame by (by apply Hne).
      rewrite Hshift. apply Hfiles. cbn [length]. lia. }
    exists m1. split; [done|]. split.
    - intros [|[|i]] Hi; [lia| |].
      + cbn [take]. rewrite take_0. rewrite Hframe; [done|].
        intros j Hj H. symmetry in H. by apply Hne in H.
      + rewrite <- Hshift. apply Hdirs. cbn [length] in Hi. lia.
    - intros k Hk. rewrite Hframe.
      + apply Hsame. intros ->. apply (Hk 1); [cbn [length]; lia|].
        cbn [take]. by rewrite take_0.
      + intros j Hj. rewrite Hshift. apply Hk. cbn [length]. lia. }
  cbn [mkdirs]. rewrite (stat_nonempty m made c []).
  destruct (m !! (made ++ [c])) as [[|b]|] eqn:Hs.
  - destruct rest as [|c' rest'].
    + exists m. split; [done|]. split; [|done].
      intros i Hi. cbn [length] in Hi. replace i with 1 by lia. done.
    + apply (Hstep m); done.
  - exfalso. apply (Hfiles 1 b); [cbn [length]; lia|].
    cbn [take]. by rewrite take_0.
  - destruct (Hstep (<[made ++ [c] := Dir]> m)) as (m1 & Hrun & Hrest).
    + apply lookup_insert_eq.
    + intros k Hk. by rewrite lookup_insert_ne.
    + exists m1. split; [|done]. by destruct rest.
Qed.

Lemma makedirs_creates (path : string) (m : FS) :
  resolve path ≠ [] ->
  (forall i b, stat m (take i (resolve path)) ≠ Some (File b)) ->
  exists m1,
    makedirs path true m = inr m1 /\
    dir_chain m1 (resolve path) /\
    (forall k, (forall i, 0 < i -> k ≠ take i (resolve path)) -> m1 !! k = m !! k).
Proof.
  intros Hk Hfiles.
  assert (Hp : path ≠ "") by (by intros ->).
  destruct (mkdirs_creates path (resolve path) [] m) as (m1 & Hrun & _ & Hframe).
  { intros i b Hi. cbn [app]. specialize (Hfiles i b).
    destruct i as [|i]; [lia|]. destruct (resolve path) as [|c k]; [done|].
    exact Hfiles. }
  assert (Hrun' : makedirs path true m = inr m1).
  { unfold makedirs. case_bool_decide; [done|].
    by destruct (resolve path). }
  exists m1. split; [done|]. split.
  - apply makedirs_spec in Hrun' as [_ [_ Hdirs]]. exact Hdirs.
  - intros k Hk'. apply Hframe. intros i Hi. cbn [app]. apply Hk'. lia.
Qed.

Lemma take_self (k rk : list string) (i : nat) :
  k = take i rk -> k = take (length k) rk.
Proof.
  intros ->. rewrite length_take.
  destruct (decide (i <= length rk)) as [Hi|Hi].
  - by rewrite Nat.min_l.
  - rewrite Nat.min_r by lia. by rewrite !take_ge by lia.
Qed.

(** The whole mirror of a well-named tree to a local root that is not there
    yet: no regular file stands on the way to it, and nothing is at it or
    below it. *)
Lemma mirror_spec_anywhere (svc : Service) (fuel : nat) (root_id dest : string)
    (w : World) (md : Metadata) (kids : list RemoteNode) :
  files_get svc root_id = inr md ->
  served svc (RFolder root_id (md_name md) kids) ->
  well_named (RFolder root_id (md_name md) kids) ->
  depth (RFolder root_id (md_name md) kids) <= fuel ->
  let rk := resolve (os_path_join dest (md_name md)) in
  rk ≠ [] ->
  (forall i b, stat (fs w) (take i rk) ≠ Some (File b)) ->
  (forall rel, fs w !! (rk ++ rel) = None) ->
  exists w',
    download_folder fuel svc root_id dest w =
      (Ret (os_path_join dest (md_name md)), w') /\
    (forall rel,
       fs w' !! (rk ++ rel) = expected_node svc (RFolder root_id (md_name md) kids) rel) /\
    dir_chain (fs w') rk /\
    (forall k, (forall rel, k ≠ rk ++ rel) -> (forall i, 0 < i -> k ≠ take i rk) ->
       fs w' !! k = fs w !! k).
Proof.
  intros Hget Hserved Hnamed Hdepth rk Hrk Hfiles Hfresh.
  destruct (makedirs_creates _ (fs w) Hrk Hfiles) as (m1 & Hmk & Hchain & Hmframe).
  fold rk in Hchain, Hmframe.
  assert (Hunder : forall rel i, rk ++ rel ≠ take i rk \/ rel = []).
  { intros [|c rel] i; [by right|]. left. intros H. symmetry in H.
    by apply take_not_under in H. }
  rewrite download_folder_unfold, Hget. cbv zeta.
  unfold bind at 1. unfold print at 1, emit. cbn [fs log].
  unfold bind at 1. unfold os_makedirs, fs_op. cbn [fs log].
  rewrite Hmk. unfold bind at 1.
  set (w2 := mkWorld m1 _).
  destruct (contents_ok_all svc fuel root_id (md_name md) kids
              (os_path_join dest (md_name md)) w2) as (w' & Hrun & Himg & Hframe).
  - done.
  - done.
  - cbn [depth] in Hdepth. lia.
  - exact Hchain.
  - intros n rel _. fold rk. subst w2. cbn [fs]. rewrite Hmframe; [apply Hfresh|].
    intros i _. destruct (Hunder (n :: rel) i); done.
  - fold rk in Himg, Hframe. subst w2. cbn [fs] in Himg, Hframe.
    rewrite Hrun. cbn [print emit]. eexists. split; [reflexivity|]. cbn [fs].
    assert (Hroot : m1 !! rk = Some Dir).
    { pose proof (dir_chain_self _ _ Hchain) as Hd. unfold is_dir, stat in Hd.
      by destruct rk. }
    split; [|split].
    + intros [|c rel]; cbn [expected_node].
      * rewrite app_nil_r, Hframe; [done|]. intros n rel _ H.
        apply (f_equal length) in H. rewrite length_app in H.
        cbn [length] in H. lia.
      * destruct (in_dec String.string_dec c (map name_of kids)) as [Hc|Hc].
        -- by apply Himg.
        -- rewrite Hframe.
           ++ rewrite Hmframe; [|intros i _; destruct (Hunder (c :: rel) i); done].
              by rewrite Hfresh, expected_unfold, find_child_None.
           ++ intros n' rel' Hn' H. apply under_inj in H as [-> _]. done.
    + eapply dir_chain_frame; [|exact Hchain].
      intros j _. apply Hframe. intros n rel _. apply take_not_under.
    + intros k Hk Hpre. rewrite Hframe; [by apply Hmframe|].
      intros n rel _. apply Hk.
Qed.

(** ** The mirror of a tree *)

(** C1 (as the code has it).  Take the remote tree as the listings show it:
    the children of a folder are the items of the response to its listing.
    Suppose that its listing, metadata and transfer calls all succeed, that
    the metadata of each file has the MIME type its listing gave, and that
    the children of every folder have safe names, no two the same.  Let the
    local root be the destination joined with the name of the root, on a path
    without [".."] segment, with no regular file on the way to it and nothing
    yet at it or below it.  Then [download_folder] returns the local root
    path; at and below it the directories are exactly the root and the
    folders of the tree, every file that is not an online document is there
    under its chain of names with exactly the bytes of its download, and
    online documents have no entry.  Outside the local root nothing has
    changed, except that the directories missing on the way to it have been
    created. *)
Theorem mirror_of_well_named_tree (svc : Service) (fuel : nat)
    (root_id dest : string) (w : World) (md : Metadata) (kids : list RemoteNode) :
  files_get svc root_id = inr md ->
  served svc (RFolder root_id (md_name md) kids) ->
  Forall (healthy svc) kids ->
  well_named (RFolder root_id (md_name md) kids) ->
  depth (RFolder root_id (md_name md) kids) <= fuel ->
  let rk := resolve (os_path_join dest (md_name md)) in
  rk ≠ [] ->
  ~ In ".." rk ->
  (forall i b, stat (fs w) (take i rk) ≠ Some (File b)) ->
  (forall rel, fs w !! (rk ++ rel) = None) ->
  exists w',
    download_folder fuel svc root_id dest w =
      (Ret (os_path_join dest (md_name md)), w') /\
    (forall rel,
       fs w' !! (rk ++ rel) = Some Dir <->
       rel = [] \/ exists i n kids', located kids rel (RFolder i n kids')) /\
    (forall rel i n m,
       located kids rel (RFile i n m) -> kind_of m = KFile ->
       fs w' !! (rk ++ rel) = Some (File (delivered (get_media svc i))) /\
       transfer_error (get_media svc i) = None) /\
    (forall rel i n m,
       located kids rel (RFile i n m) -> kind_of m = KVirtualDocument ->
       fs w' !! (rk ++ rel) = None) /\
    (forall k, (forall rel, k ≠ rk ++ rel) ->
       fs w' !! k = fs w !! k \/
       (fs w !! k = None /\ fs w' !! k = Some Dir /\ exists i, k = take i rk)).
Proof.
  intros Hget Hserved Hhealthy Hnamed Hdepth rk Hrk _ Hfiles Hfresh.
  destruct (mirror_spec_anywhere svc fuel root_id dest w md kids)
    as (w' & Hrun & Himg & Hchain & Hframe); try done.
  fold rk in Himg, Hchain, Hframe.
  exists w'. split; [done|].
  inversion Hserved as [? ? ? resp _ _ Hskids|]; subst.
  inversion Hnamed as [? ? ? Hnodup _ Hwn|]; subst.
  assert (Hat : forall rel t, located kids rel t ->
            fs w' !! (rk ++ rel) = expected_node svc t []).
  { intros rel t Hloc. rewrite Himg.
    pose proof (located_nonempty _ _ _ Hloc).
    destruct rel as [|c rel]; [done|]. cbn [expected_node].
    by apply expected_located. }
  split; [|split; [|split]].
  - intros rel. split.
    + intros Hdir. destruct rel as [|c rel]; [by left|]. right.
      rewrite Himg in Hdir. by apply expected_dir_located in Hdir.
    + intros [->|(i & n & kids' & Hloc)].
      * apply (Himg []).
      * by rewrite (Hat _ _ Hloc).
  - intros rel i n m Hloc Hkind. rewrite (Hat _ _ Hloc). cbn [expected_node].
    pose proof (located_healthy _ _ _ _ Hloc Hhealthy) as Hh.
    inversion Hh as [|? ? ? md' Hget' Hm Hdone]; subst.
    unfold kind_of in Hkind.
    destruct (String.eqb m folder_mime); [done|].
    destruct (String.prefix workspace_prefix m) eqn:Hp; [done|].
    unfold leaf_entry, reaches_open. rewrite Hget', Hm, Hp. split; [done|].
    by apply Hdone.
  - intros rel i n m Hloc Hkind. rewrite (Hat _ _ Hloc). cbn [expected_node].
    pose proof (located_healthy _ _ _ _ Hloc Hhealthy) as Hh.
    inversion Hh as [|? ? ? md' Hget' Hm Hdone]; subst.
    unfold kind_of in Hkind.
    destruct (String.eqb m folder_mime); [done|].
    destruct (String.prefix workspace_prefix m) eqn:Hp; [|done].
    unfold leaf_entry, reaches_open. by rewrite Hget', Hm, Hp.
  - intros k Hk.
    destruct (decide (k = take (length k) rk)) as [Hpre|Hpre].
    + destruct k as [|c k'].
      * left. apply Hframe; [done|]. intros i Hi H. symmetry in H.
        apply (f_equal length) in H. rewrite length_take in H. cbn [length] in H.
        destruct rk; [done|]. cbn [length] in H. lia.
      * pose proof (Hchain (length (c :: k'))) as Hd. rewrite <- Hpre in Hd.
        unfold is_dir, stat in Hd.
        pose proof (Hfiles (length (c :: k'))) as Hf. rewrite <- Hpre in Hf.
        unfold stat in Hf.
        destruct (fs w !! (c :: k')) as [[|b]|] eqn:Hold.
        -- left. by rewrite Hd.
        -- by destruct (Hf b).
        -- right. split; [done|]. split; [done|]. by exists (length (c :: k')).
    + left. apply Hframe; [done|]. intros i _ H. by apply take_self in H.
Qed.

Ltac solve_served :=
  repeat first
    [ apply List.Forall_nil
    | apply List.Forall_cons
    | eapply served_folder; [reflexivity | reflexivity | ]
    | apply served_file; reflexivity ].

Ltac solve_healthy :=
  repeat first
    [ apply List.Forall_nil
    | apply List.Forall_cons
    | apply healthy_folder
    | eapply healthy_file; [reflexivity | reflexivity | intros; try reflexivity; try discriminate ] ].

Ltac solve_well_named :=
  repeat first
    [ apply List.Forall_nil
    | apply List.Forall_cons
    | apply well_named_file
    | apply well_named_folder; [apply (bool_decide_unpack _); vm_compute; reflexivity | | ]
    | reflexivity ].

Lemma mirror_of_well_named_tree_witness :
  exists w',
    download_folder 2 scenario_svc "root" "backup/today" empty_world =
      (Ret "backup/today/R", w') /\
    (forall rel,
       fs w' !! (["backup"; "today"; "R"] ++ rel) = Some Dir <->
       rel = [] \/ exists i n kids', located scenario_kids rel (RFolder i n kids')) /\
    (forall rel i n m,
       located scenario_kids rel (RFile i n m) -> kind_of m = KFile ->
       fs w' !! (["backup"; "today"; "R"] ++ rel) =
         Some (File (delivered (get_media scenario_svc i))) /\
       transfer_error (get_media scenario_svc i) = None) /\
    (forall rel i n m,
       located scenario_kids rel (RFile i n m) -> kind_of m = KVirtualDocument ->
       fs w' !! (["backup"; "today"; "R"] ++ rel) = None) /\
    (forall k, (forall rel, k ≠ ["backup"; "today"; "R"] ++ rel) ->
       fs w' !! k = fs empty_world !! k \/
       (fs empty_world !! k = None /\ fs w' !! k = Some Dir /\
        exists i, k = take i ["backup"; "today"; "R"])).
Proof.
  apply (mirror_of_well_named_tree scenario_svc 2 "root" "backup/today" empty_world
           (mkMetadata "R" (Some folder_mime)) scenario_kids).
  - reflexivity.
  - solve_served.
  - solve_healthy.
  - solve_well_named.
  - vm_compute. lia.
  - discriminate.
  - vm_compute. intros [H|[H|[H|[]]]]; discriminate H.
  - intros i b. destruct (take i _); [discriminate|reflexivity || discriminate].
  - intros rel. reflexivity.
Defined.

(** The scenario of the specification, computed: ["R/a.txt"] has its 10
    bytes and ["R/S/b.txt"] its 5. *)
Example scenario_mirror :
  let r := download_folder 2 scenario_svc "root" "." empty_world in
  fst r = Ret "./R" /\
  fs (snd r) =
    {[ ["R"] := Dir;
       ["R"; "S"] := Dir;
       ["R"; "S"; "b.txt"] := File ["h"; "e"; "l"; "l"; "o"]%byte;
       ["R"; "a.txt"] := File ["0"; "1"; "2"; "3"; "4"; "5"; "6"; "7"; "8"; "9"]%byte ]}.
Proof. split; reflexivity. Qed.

(** C1, refuted as stated: every listing, metadata and transfer call of this
    tree succeeds, and the mirror completes; but its two files share the name
    ["a.txt"], the second download overwrites the first, and the local file
    does not hold the bytes of the file ["f1"]. *)
Lemma same_name_last_write_wins :
  served twins_svc (RFolder "root" "R" twins_kids) /\
  Forall (healthy twins_svc) twins_kids /\
  located twins_kids ["a.txt"] (RFile "f1" "a.txt" "text/plain") /\
  kind_of "text/plain" = KFile /\
  let r := download_folder 2 twins_svc "root" "." empty_world in
  fst r = Ret "./R" /\
  fs (snd r) !! (resolve "./R" ++ ["a.txt"]) = Some (File ["2"]%byte) /\
  delivered (get_media twins_svc "f1") = ["1"]%byte.
Proof.
  split; [solve_served|]. split; [solve_healthy|].
  split; [apply (located_child twins_kids (RFile "f1" "a.txt" "text/plain")); by left|].
  repeat split; reflexivity.
Qed.




(** The walk of [demo_svc], computed: the download of ["broken.bin"] breaks
    after one chunk and the metadata of ["gone.txt"] cannot be fetched; the
    files listed after them and the folder ["S"] are mirrored all the same. *)
Example demo_mirror :
  let r := download_folder 2 demo_svc "root" "." empty_world in
  fst r = Ret "./R" /\
  fs (snd r) =
    {[ ["R"] := Dir;
       ["R"; "broken.bin"] := File ["x"]%byte;
       ["R"; "a.txt"] := File ["h"; "e"; "y"]%byte;
       ["R"; "S"] := Dir;
       ["R"; "S"; "b.txt"] := File ["b"]%byte ]}.
Proof. split; reflexivity. Qed.

(** * Further properties of the script *)

(** ** [download_file]: what it writes and what it reports *)

Lemma open_wb_on_dir (path : string) (m : FS) :
  dir_exists m path -> open_wb path m = inl (IsADirectoryError path).
Proof.
  intros [Hp Hdirs]. unfold open_wb. case_bool_decide; [done|].
  destruct (resolve path) as [|c k] eqn:Hk; [done|].
  pose proof (Hdirs (pred (length (c :: k)))) as Hparent.
  rewrite <- removelast_firstn_len in Hparent.
  unfold is_dir in Hparent. rewrite Hparent.
  pose proof (Hdirs (length (c :: k))) as Hself.
  rewrite take_ge in Hself by done. unfold is_dir in Hself. by rewrite Hself.
Qed.

Lemma open_wb_existing_file (path : string) (pk : list string) (n : string)
    (old : bytes) (m : FS) :
  path ≠ "" ->
  resolve path = pk ++ [n] ->
  is_dir m pk ->
  m !! (pk ++ [n]) = Some (File old) ->
  open_wb path m = inr (<[pk ++ [n] := File []]> m).
Proof.
  intros Hp Hk Hdir Hold. unfold open_wb. case_bool_decide; [done|].
  rewrite Hk. destruct (pk ++ [n]) as [|c l] eqn:E; [by destruct pk|].
  rewrite <- E in *.
  rewrite removelast_last. unfold is_dir in Hdir. rewrite Hdir.
  by rewrite stat_nonempty, Hold.
Qed.

Lemma open_wb_no_parent (path : string) (m : FS) :
  path ≠ "" ->
  resolve path ≠ [] ->
  stat m (removelast (resolve path)) = None ->
  open_wb path m = inl (FileNotFoundError path).
Proof.
  intros Hp Hk Hparent. unfold open_wb. case_bool_decide; [done|].
  destruct (resolve path) as [|c k]; [done|]. by rewrite Hparent.
Qed.

(** X1.  When [os.path.join(local_path, file_name)] has no [".."] segment,
    so that its segments name the place of the file, [download_file] leaves
    every local path other than that one exactly as it was, whatever the
    client answers. *)
Theorem download_file_touches_one_path (svc : Service)
    (file_id file_name local_path : string) (w : World) (k : list string) :
  ~ In ".." (resolve (os_path_join local_path file_name)) ->
  k ≠ resolve (os_path_join local_path file_name) ->
  fs (snd (download_file svc file_id file_name local_path w)) !! k = fs w !! k.
Proof.
  intros _ Hk. download_file_cases w; cbn [snd fs]; try done.
  by rewrite lookup_insert_ne.
Qed.

Lemma download_file_touches_one_path_witness :
  fs (snd (download_file demo_svc "f1" "a.txt" "R" world_with_R)) !! ["R"] =
    fs world_with_R !! ["R"].
Proof.
  apply (download_file_touches_one_path demo_svc "f1" "a.txt" "R" world_with_R ["R"]).
  - vm_compute. intros [H|[H|[]]]; discriminate H.
  - vm_compute. discriminate.
Defined.

(** X2.  When the local path of a file is an existing directory, opening it
    raises [IsADirectoryError]; [download_file] catches it, prints the
    failure line with that error, makes no [next_chunk] call and leaves the
    directory and everything else as it was. *)
Theorem download_file_onto_directory (svc : Service)
    (file_id file_name local_path : string) (w : World) (md : Metadata) (m : string) :
  files_get svc file_id = inr md ->
  md_mimeType md = Some m ->
  String.prefix workspace_prefix m = false ->
  dir_exists (fs w) (os_path_join local_path file_name) ->
  download_file svc file_id file_name local_path w =
    (Ret tt,
     mkWorld (fs w)
       (log w ++ [CallGet file_id;
                  failed_line file_name
                    (IsADirectoryError (os_path_join local_path file_name))])).
Proof.
  intros Hget Hm Hp Hdir.
  by apply download_file_open_fails with md m, open_wb_on_dir.
Qed.

Lemma download_file_onto_directory_witness :
  download_file demo_svc "f1" "R" "." world_with_R =
    (Ret tt,
     mkWorld (fs world_with_R)
       (log world_with_R ++
          [CallGet "f1"; failed_line "R" (IsADirectoryError (os_path_join "." "R"))])).
Proof.
  apply (download_file_onto_directory demo_svc "f1" "R" "." world_with_R
           (mkMetadata "a.txt" (Some "text/plain")) "text/plain");
    try reflexivity.
  split; [vm_compute; discriminate|]. intros [|[|i]]; reflexivity.
Defined.

(** X3.  A download that runs to its end replaces the local file.  Let
    the name of the file be a safe name and [local_path] an existing
    directory, on a path without [".."] segment, in which a file of that
    name already is.  Then what the file held before is gone, it holds
    exactly the chunks of this download, in order, and the line printed is
    the success line. *)
Theorem download_file_overwrites (svc : Service)
    (file_id file_name local_path : string) (w : World) (md : Metadata) (m : string)
    (old : bytes) :
  files_get svc file_id = inr md ->
  md_mimeType md = Some m ->
  String.prefix workspace_prefix m = false ->
  safe_name file_name = true ->
  ~ In ".." (resolve local_path) ->
  dir_chain (fs w) (resolve local_path) ->
  fs w !! (resolve local_path ++ [file_name]) = Some (File old) ->
  transfer_error (get_media svc file_id) = None ->
  download_file svc file_id file_name local_path w =
    (Ret tt,
     mkWorld (<[resolve local_path ++ [file_name] :=
                  File (delivered (get_media svc file_id))]> (fs w))
       (log w ++ CallGet file_id ::
          replicate (chunk_calls (get_media svc file_id)) (CallNextChunk file_id) ++
          [downloaded_line file_name])).
Proof.
  intros Hget Hm Hp Hsafe _ Hchain Hold Hdone.
  destruct (resolve_join local_path _ Hsafe) as [Hk Hne].
  rewrite (download_file_streams svc file_id file_name local_path w md m
             (<[resolve local_path ++ [file_name] := File []]> (fs w)) Hget Hm Hp).
  - by rewrite Hk, Hdone.
  - apply open_wb_existing_file with old; try done. by apply dir_chain_self.
Qed.

Lemma download_file_overwrites_witness :
  download_file demo_svc "f1" "a.txt" "R" world_with_old_file =
    (Ret tt,
     mkWorld (<[ ["R"; "a.txt"] := File (delivered (get_media demo_svc "f1")) ]>
                (fs world_with_old_file))
       (log world_with_old_file ++ CallGet "f1" ::
          replicate (chunk_calls (get_media demo_svc "f1")) (CallNextChunk "f1") ++
          [downloaded_line "a.txt"])).
Proof.
  apply (download_file_overwrites demo_svc "f1" "a.txt" "R" world_with_old_file
           (mkMetadata "a.txt" (Some "text/plain")) "text/plain"
           ["o"; "l"; "d"; "e"; "r"]%byte).
  - reflexivity.
  - reflexivity.
  - reflexivity.
  - reflexivity.
  - vm_compute. intros [H|[]]. discriminate H.
  - intros [|[|i]]; reflexivity.
  - reflexivity.
  - reflexivity.
Defined.

(** X4.  When the metadata comes back without a [mimeType] key,
    [file_metadata.get('mimeType')] is [None] and [None.startswith] raises
    [AttributeError]; the handler catches it like a transfer error: the
    failure line is printed, no local file is opened and no download is
    attempted. *)
Theorem download_file_without_mime_type (svc : Service)
    (file_id file_name local_path : string) (w : World) (md : Metadata) :
  files_get svc file_id = inr md ->
  md_mimeType md = None ->
  exists msg,
    download_file svc file_id file_name local_path w =
      (Ret tt,
       mkWorld (fs w)
         (log w ++ [CallGet file_id; failed_line file_name (AttributeError msg)])) /\
    download_file_body svc file_id file_name local_path w =
      (Raise (AttributeError msg), mkWorld (fs w) (log w ++ [CallGet file_id])).
Proof.
  intros Hget Hm. eexists. split.
  - by apply download_file_no_mime with md.
  - unfold download_file_body, get_execute, bind, emit, lift, ret,
      startswith_workspace, raise.
    rewrite Hget. cbn. by rewrite Hm.
Qed.

Lemma download_file_without_mime_type_witness :
  exists msg,
    download_file untyped_svc "f9" "x.bin" "R" world_with_R =
      (Ret tt,
       mkWorld (fs world_with_R)
         (log world_with_R ++ [CallGet "f9"; failed_line "x.bin" (AttributeError msg)])) /\
    download_file_body untyped_svc "f9" "x.bin" "R" world_with_R =
      (Raise (AttributeError msg),
       mkWorld (fs world_with_R) (log world_with_R ++ [CallGet "f9"])).
Proof.
  apply (download_file_without_mime_type untyped_svc "f9" "x.bin" "R" world_with_R
           (mkMetadata "x.bin" None));
    reflexivity.
Defined.

Lemma downloaded_not_failed (n n' : string) (e : exn) :
  downloaded_line n ≠ failed_line n' e.
Proof.
  unfold downloaded_line, failed_line. intros H. injection H as H.
  cbn in H. discriminate H.
Qed.

Lemma downloaded_not_skipped (n n' : string) : downloaded_line n ≠ skipped_line n'.
Proof.
  unfold downloaded_line, skipped_line. intros H. injection H as H.
  cbn in H. discriminate H.
Qed.

(** X5.  The success line is truthful: whenever [download_file] prints
    ["Downloaded: <name>"], the download ran to its end and the local file
    at [os.path.join(local_path, file_name)] holds exactly the bytes it
    delivered. *)
Theorem downloaded_line_is_truthful (svc : Service)
    (file_id file_name local_path : string) (w : World) :
  let r := download_file svc file_id file_name local_path w in
  exists evs,
    log (snd r) = log w ++ evs /\
    (In (downloaded_line file_name) evs ->
     transfer_error (get_media svc file_id) = None /\
     fs (snd r) !! resolve (os_path_join local_path file_name) =
       Some (File (delivered (get_media svc file_id)))).
Proof.
  cbv zeta. download_file_cases w; cbn [snd fs log]; eexists; (split; [reflexivity|]).
  1-3,5: intros [H|[H|[]]]; try discriminate H;
    first [ by apply eq_sym, downloaded_not_failed in H
          | by apply eq_sym, downloaded_not_skipped in H ].
  intros [H|H]; [discriminate H|].
  apply in_app_or in H as [H|[H|[]]].
  - apply list_elem_of_In, elem_of_replicate in H as [H _]. discriminate H.
  - destruct (transfer_error (get_media svc file_id)) as [e|].
    + by apply eq_sym, downloaded_not_failed in H.
    + split; [done|]. apply lookup_insert_eq.
Qed.

(** X6.  [download_file] creates no directory.  Let the path
    [os.path.join(local_path, file_name)] have no [".."] segment and no
    slash at its end, and let no regular file stand on the way to it.  When
    the directory that should hold the file does not exist locally, as for a
    remote name with a slash in it, opening the file raises
    [FileNotFoundError]; the error is caught and reported, and nothing is
    written. *)
Theorem download_file_into_missing_directory (svc : Service)
    (file_id file_name local_path : string) (w : World) (md : Metadata) (m : string) :
  files_get svc file_id = inr md ->
  md_mimeType md = Some m ->
  String.prefix workspace_prefix m = false ->
  let path := os_path_join local_path file_name in
  endswith_slash path = false ->
  ~ In ".." (resolve path) ->
  resolve path ≠ [] ->
  (forall i b, stat (fs w) (take i (resolve path)) ≠ Some (File b)) ->
  stat (fs w) (removelast (resolve path)) = None ->
  download_file svc file_id file_name local_path w =
    (Ret tt,
     mkWorld (fs w)
       (log w ++ [CallGet file_id; failed_line file_name (FileNotFoundError path)])).
Proof.
  intros Hget Hm Hp path _ _ Hk _ Hparent.
  assert (Hne : path ≠ "") by (intros H; by rewrite H in Hk).
  by apply download_file_open_fails with md m, open_wb_no_parent.
Qed.

Lemma download_file_into_missing_directory_witness :
  download_file demo_svc "f1" "sub/a.txt" "R" world_with_R =
    (Ret tt,
     mkWorld (fs world_with_R)
       (log world_with_R ++
          [CallGet "f1";
           failed_line "sub/a.txt" (FileNotFoundError "R/sub/a.txt")])).
Proof.
  apply (download_file_into_missing_directory demo_svc "f1" "sub/a.txt" "R" world_with_R
           (mkMetadata "a.txt" (Some "text/plain")) "text/plain").
  - reflexivity.
  - reflexivity.
  - reflexivity.
  - reflexivity.
  - vm_compute. intros [H|[H|[H|[]]]]; discriminate H.
  - discriminate.
  - intros [|[|[|[|i]]]] b; vm_compute; discriminate.
  - reflexivity.
Defined.

(** X7.  A child whose name starts with a slash escapes the destination:
    [os.path.join] drops the directory in front of an absolute name, so the
    loop body does the same thing whatever directory it is mirroring into,
    and writes at the path the name spells. *)
Theorem absolute_name_escapes_destination (recurse : string -> string -> M unit)
    (svc : Service) (item : Item) (path1 path2 : string) (w : World) :
  String.prefix "/" (name item) = true ->
  os_path_join path1 (name item) = name item /\
  process_item recurse svc path1 item w = process_item recurse svc path2 item w.
Proof.
  intros Habs.
  assert (Hjoin : forall p, os_path_join p (name item) = name item).
  { intros p. unfold os_path_join. by rewrite Habs. }
  split; [apply Hjoin|].
  unfold process_item, download_file, download_file_body.
  by rewrite !Hjoin.
Qed.

Lemma absolute_name_escapes_destination_witness :
  os_path_join "R" "/tmp/x" = "/tmp/x" /\
  process_item (download_folder_contents 1 demo_svc) demo_svc "R"
      (mkItem "f1" "/tmp/x" "text/plain") world_with_R =
    process_item (download_folder_contents 1 demo_svc) demo_svc "elsewhere"
      (mkItem "f1" "/tmp/x" "text/plain") world_with_R.
Proof.
  apply (absolute_name_escapes_destination (download_folder_contents 1 demo_svc)
           demo_svc (mkItem "f1" "/tmp/x" "text/plain") "R" "elsewhere" world_with_R).
  reflexivity.
Defined.

(** ** [download_folder_contents] and [download_folder]: edges of the walk *)

(** X8.  A folder whose listing has no ['files'] key, or an empty one, is
    walked by its one listing call: the loop does nothing, nothing is written
    and the call returns normally. *)
Theorem empty_listing_is_a_no_op (fuel : nat) (svc : Service)
    (folder_id local_path : string) (w : World) (resp : ListResponse) :
  files_list svc (children_query folder_id) = inr resp ->
  files resp = None \/ files resp = Some [] ->
  download_folder_contents (S fuel) svc folder_id local_path w =
    (Ret tt, mkWorld (fs w) (log w ++ [CallList (children_query folder_id)])).
Proof.
  intros Hlist Hfiles. cbn [download_folder_contents].
  unfold bind, list_execute, bind, emit, lift, ret. rewrite Hlist.
  unfold get_files. by destruct Hfiles as [-> | ->].
Qed.

Lemma empty_listing_is_a_no_op_witness :
  download_folder_contents 1 clash_svc "s1" "R/a" world_with_R =
    (Ret tt,
     mkWorld (fs world_with_R) (log world_with_R ++ [CallList (children_query "s1")])).
Proof.
  apply (empty_listing_is_a_no_op 0 clash_svc "s1" "R/a" world_with_R
           (mkListResponse (Some []))).
  - reflexivity.
  - right. reflexivity.
Defined.

Lemma mkdirs_onto_file (path : string) (n : string) (b : bytes) (todo : list string) :
  forall (made : list string) (m : FS),
    (forall i, 0 < i <= length todo -> is_dir m (made ++ take i todo)) ->
    m !! (made ++ todo ++ [n]) = Some (File b) ->
    mkdirs path true made (todo ++ [n]) m = inl (FileExistsError path).
Proof.
  induction todo as [|c rest IH]; intros made m Hdirs Hfile.
  - cbn [app mkdirs] in *. by rewrite stat_nonempty, Hfile.
  - cbn [app].
    assert (H1 : is_dir m (made ++ [c])).
    { apply (Hdirs 1). cbn [length]. lia. }
    rewrite mkdirs_step_dir by (done || by destruct rest).
    apply IH.
    + intros i Hi.
      replace ((made ++ [c]) ++ take i rest) with (made ++ take (S i) (c :: rest))
        by (by rewrite <- app_assoc).
      apply Hdirs. cbn [length]. lia.
    + by rewrite <- app_assoc.
Qed.

Lemma makedirs_onto_file (path : string) (pk : list string) (n : string) (b : bytes)
    (m : FS) :
  path ≠ "" ->
  resolve path = pk ++ [n] ->
  dir_chain m pk ->
  m !! (pk ++ [n]) = Some (File b) ->
  makedirs path true m = inl (FileExistsError path).
Proof.
  intros Hp Hk Hchain Hfile. unfold makedirs. case_bool_decide; [done|].
  rewrite Hk. destruct (pk ++ [n]) as [|c l] eqn:E; [by destruct pk|].
  rewrite <- E in *.
  apply (mkdirs_onto_file path n b pk [] m); [|done].
  intros i _. apply Hchain.
Qed.

Lemma open_wb_not_a_dir (path : string) (pk : list string) (n : string) (m : FS) :
  path ≠ "" ->
  resolve path = pk ++ [n] ->
  is_dir m pk ->
  m !! (pk ++ [n]) ≠ Some Dir ->
  open_wb path m = inr (<[pk ++ [n] := File []]> m).
Proof.
  intros Hp Hk Hdir Hnot. destruct (m !! (pk ++ [n])) as [[|old]|] eqn:E; [done| |].
  - by apply open_wb_existing_file with old.
  - by apply open_wb_fresh.
Qed.

(** X9.  [exist_ok=True] tolerates a directory, not a file.  When a listing
    returns a file and, right after it, a folder of the same name, the file
    is downloaded first, [os.makedirs] then raises [FileExistsError] on the
    file just written, nothing catches it, and the walk of the parent raises
    it: the children listed after the folder are not visited. *)
Theorem folder_after_file_of_same_name_aborts (fuel : nat) (svc : Service)
    (folder_id local_path : string) (w : World) (resp : ListResponse)
    (F C : Item) (rest : list Item) (md : Metadata) (m : string) :
  files_list svc (children_query folder_id) = inr resp ->
  get_files resp = F :: C :: rest ->
  String.eqb (mimeType F) folder_mime = false ->
  mimeType C = folder_mime ->
  name C = name F ->
  safe_name (name F) = true ->
  dir_chain (fs w) (resolve local_path) ->
  fs w !! (resolve local_path ++ [name F]) ≠ Some Dir ->
  files_get svc (id F) = inr md ->
  md_mimeType md = Some m ->
  String.prefix workspace_prefix m = false ->
  download_folder_contents (S fuel) svc folder_id local_path w =
    (Raise (FileExistsError (os_path_join local_path (name F))),
     mkWorld (<[resolve local_path ++ [name F] :=
                  File (delivered (get_media svc (id F)))]> (fs w))
       (log w ++ CallList (children_query folder_id) :: CallGet (id F) ::
          replicate (chunk_calls (get_media svc (id F))) (CallNextChunk (id F)) ++
          [match transfer_error (get_media svc (id F)) with
           | None => downloaded_line (name F)
           | Some e => failed_line (name F) e
           end])).
Proof.
  intros Hlist Hitems HF HC Hname Hsafe Hchain Hnot Hget Hm Hp.
  destruct (resolve_join local_path _ Hsafe) as [Hk Hne].
  cbn [download_folder_contents]. unfold bind at 1.
  unfold list_execute, bind, emit, lift, ret. rewrite Hlist, Hitems. cbn [fs log].
  cbn [for_each]. unfold bind at 1. unfold process_item at 1. rewrite HF.
  rewrite (download_file_streams svc (id F) (name F) local_path _ md m
             (<[resolve local_path ++ [name F] := File []]> (fs w)) Hget Hm Hp)
    by (apply open_wb_not_a_dir; [done..|by apply dir_chain_self|done]).
  cbn [fs log]. rewrite Hk.
  unfold bind at 1. unfold process_item at 1. rewrite HC, String.eqb_refl, Hname.
  unfold bind at 1. unfold os_makedirs, fs_op. cbn [fs log].
  rewrite (makedirs_onto_file _ (resolve local_path) (name F)
             (delivered (get_media svc (id F)))).
  - by rewrite <- app_assoc.
  - done.
  - done.
  - eapply dir_chain_frame; [|exact Hchain].
    intros j _. rewrite lookup_insert_ne; [done|].
    intros H. symmetry in H. by apply (take_not_under _ _ _ []) in H.
  - apply lookup_insert_eq.
Qed.


Lemma folder_after_file_of_same_name_aborts_witness :
  download_folder_contents 2 clash_svc "root" "R" world_with_R =
    (Raise (FileExistsError (os_path_join "R" "a")),
     mkWorld (<[resolve "R" ++ ["a"] := File (delivered (get_media clash_svc "f1"))]>
                (fs world_with_R))
       (log world_with_R ++ CallList (children_query "root") :: CallGet "f1" ::
          replicate (chunk_calls (get_media clash_svc "f1")) (CallNextChunk "f1") ++
          [match transfer_error (get_media clash_svc "f1") with
           | None => downloaded_line "a"
           | Some e => failed_line "a" e
           end])).
Proof.
  apply (folder_after_file_of_same_name_aborts 1 clash_svc "root" "R" world_with_R
           (mkListResponse (Some [ mkItem "f1" "a" "text/plain";
                                   mkItem "s1" "a" folder_mime;
                                   mkItem "f2" "later.txt" "text/plain" ]))
           (mkItem "f1" "a" "text/plain") (mkItem "s1" "a" folder_mime)
           [mkItem "f2" "later.txt" "text/plain"]
           (mkMetadata "a" (Some "text/plain")) "text/plain");
    try reflexivity.
  - intros [|[|i]]; reflexivity.
  - vm_compute. discriminate.
Defined.

(** X10.  When a file is in the way of the local root, [download_folder]
    raises [FileExistsError] from its own [os.makedirs], before any listing:
    the remote tree is never looked at and the file is left as it was. *)
Theorem root_path_taken_by_a_file (fuel : nat) (svc : Service)
    (folder_id local_path : string) (w : World) (md : Metadata) (b : bytes) :
  files_get svc folder_id = inr md ->
  safe_name (md_name md) = true ->
  dir_chain (fs w) (resolve local_path) ->
  fs w !! (resolve local_path ++ [md_name md]) = Some (File b) ->
  download_folder fuel svc folder_id local_path w =
    (Raise (FileExistsError (os_path_join local_path (md_name md))),
     mkWorld (fs w)
       (log w ++ [CallGet folder_id;
                  Print ("Downloading folder: " +:+ md_name md)])).
Proof.
  intros Hget Hsafe Hchain Hfile.
  destruct (resolve_join local_path _ Hsafe) as [Hk Hne].
  rewrite download_folder_unfold, Hget. cbv zeta.
  unfold bind at 1. unfold print at 1, emit. cbn [fs log].
  unfold bind at 1. unfold os_makedirs, fs_op. cbn [fs log].
  rewrite (makedirs_onto_file _ (resolve local_path) (md_name md) b) by done.
  by rewrite <- app_assoc.
Qed.

Lemma root_path_taken_by_a_file_witness :
  download_folder 3 demo_svc "root" "." world_with_file_R =
    (Raise (FileExistsError (os_path_join "." "R")),
     mkWorld (fs world_with_file_R)
       (log world_with_file_R ++
          [CallGet "root"; Print ("Downloading folder: " +:+ "R")])).
Proof.
  apply (root_path_taken_by_a_file 3 demo_svc "root" "." world_with_file_R
           (mkMetadata "R" (Some folder_mime)) ["x"]%byte);
    try reflexivity.
  intros [|i]; reflexivity.
Defined.

(** X11.  Whenever [download_folder] returns, the path it returns is
    [os.path.join(local_path, <root name>)], that directory exists together
    with every directory above it (a destination that was missing has been
    created), and the completion line is the last thing printed. *)
Theorem returned_path_is_a_directory (fuel : nat) (svc : Service)
    (folder_id local_path : string) (w w' : World) (p : string) :
  download_folder fuel svc folder_id local_path w = (Ret p, w') ->
  exists md,
    files_get svc folder_id = inr md /\
    p = os_path_join local_path (md_name md) /\
    dir_exists (fs w') p /\
    last (log w') = Some (Print ("✅ Download complete: " +:+ p)).
Proof.
  rewrite download_folder_unfold.
  destruct (files_get svc folder_id) as [e|md]; [done|]. cbv zeta.
  set (path := os_path_join local_path (md_name md)).
  intros Hrun. exists md. split; [done|].
  unfold bind at 1 in Hrun. unfold print at 1, emit in Hrun. cbn [fs log] in Hrun.
  unfold bind at 1 in Hrun. unfold os_makedirs, fs_op in Hrun. cbn [fs log] in Hrun.
  destruct (makedirs path true (fs w)) as [e|m1] eqn:Hmk; [done|].
  destruct (makedirs_spec _ _ _ Hmk) as [_ Hex].
  unfold bind at 1 in Hrun.
  pose proof (keeps_dirs_download_folder_contents svc fuel folder_id path
                (mkWorld m1 (log w ++ [CallGet folder_id] ++
                   [Print ("Downloading folder: " +:+ md_name md)]))) as Hkeep.
  rewrite <- app_assoc in Hrun.
  destruct (download_folder_contents fuel svc folder_id path _) as [[[]|e|] w1];
    [|done..].
  cbn [print emit] in Hrun. injection Hrun as <- <-. cbn [snd fs] in Hkeep.
  split; [done|]. split.
  - cbn [fs]. by eapply dir_exists_mono.
  - cbn [log]. by rewrite last_snoc.
Qed.

Lemma returned_path_is_a_directory_witness :
  exists md,
    files_get demo_svc "root" = inr md /\
    "out/there/R" = os_path_join "out/there" (md_name md) /\
    dir_exists (fs (snd (download_folder 3 demo_svc "root" "out/there" empty_world)))
      "out/there/R" /\
    last (log (snd (download_folder 3 demo_svc "root" "out/there" empty_world))) =
      Some (Print ("✅ Download complete: " +:+ "out/there/R")).
Proof.
  apply (returned_path_is_a_directory 3 demo_svc "root" "out/there" empty_world).
  reflexivity.
Defined.

(** *** Nothing is deleted *)

Lemma kinds_kept_refl (m : FS) : kinds_kept m m.
Proof. intros k e He. exists e. split; [done|]. by destruct e. Qed.

Lemma same_kind_trans (a b c : Entry) : same_kind a b -> same_kind b c -> same_kind a c.
Proof. by destruct a, b, c. Qed.

Lemma kinds_kept_trans (m1 m2 m3 : FS) :
  kinds_kept m1 m2 -> kinds_kept m2 m3 -> kinds_kept m1 m3.
Proof.
  intros H12 H23 k e He. destruct (H12 _ _ He) as (e2 & He2 & Hk2).
  destruct (H23 _ _ He2) as (e3 & He3 & Hk3). exists e3. split; [done|].
  by eapply same_kind_trans.
Qed.

Lemma kinds_kept_insert (m : FS) (k : list string) (x : Entry) :
  (forall e, m !! k = Some e -> same_kind e x) ->
  kinds_kept m (<[k := x]> m).
Proof.
  intros Hk k' e He. destruct (decide (k = k')) as [->|Hne].
  - exists x. split; [apply lookup_insert_eq|by apply Hk].
  - exists e. split; [by rewrite lookup_insert_ne|by destruct e].
Qed.

Lemma mkdirs_kinds (path : string) (ok : bool) (todo : list string) :
  forall (made : list string) (m m1 : FS),
    mkdirs path ok made todo m = inr m1 -> kinds_kept m m1.
Proof.
  induction todo as [|c rest IH]; intros made m m1 Hrun.
  - injection Hrun as <-. apply kinds_kept_refl.
  - cbn [mkdirs] in Hrun.
    assert (Hstat : stat m (made ++ [c]) = m !! (made ++ [c])).
    { unfold stat. by destruct made. }
    destruct (stat m (made ++ [c])) as [[|b]|] eqn:Hs.
    + destruct rest as [|c' rest'].
      * destruct ok; [|done]. injection Hrun as <-. apply kinds_kept_refl.
      * by apply IH in Hrun.
    + by destruct rest.
    + assert (Hrun' : mkdirs path ok (made ++ [c]) rest (<[made ++ [c] := Dir]> m)
                        = inr m1) by (by destruct rest).
      eapply kinds_kept_trans; [|eapply IH, Hrun'].
      apply kinds_kept_insert. intros e He. congruence.
Qed.

Lemma keeps_kinds_bind {A B} (c : M A) (k : A -> M B) :
  keeps_kinds c -> (forall a, keeps_kinds (k a)) -> keeps_kinds (bind c k).
Proof.
  intros Hc Hk w. unfold bind. specialize (Hc w).
  destruct (c w) as [[a|e|] w1]; cbn [snd] in *; [|done..].
  eapply kinds_kept_trans; [exact Hc|apply Hk].
Qed.

Lemma keeps_kinds_quiet {A} (c : M A) :
  (forall w, fs (snd (c w)) = fs w) -> keeps_kinds c.
Proof. intros Hc w. rewrite Hc. apply kinds_kept_refl. Qed.

Lemma keeps_kinds_makedirs (path : string) : keeps_kinds (os_makedirs path true).
Proof.
  intros w. unfold os_makedirs, fs_op.
  destruct (makedirs path true (fs w)) as [e|m1] eqn:Hrun; cbn [snd fs].
  - apply kinds_kept_refl.
  - unfold makedirs in Hrun. case_bool_decide; [done|].
    destruct (resolve path) as [|c k].
    + injection Hrun as <-. apply kinds_kept_refl.
    + by eapply mkdirs_kinds.
Qed.

Lemma keeps_kinds_download_file (svc : Service) (file_id file_name local_path : string) :
  keeps_kinds (download_file svc file_id file_name local_path).
Proof.
  intros w. download_file_cases w; cbn [snd fs]; try apply kinds_kept_refl.
  apply kinds_kept_insert. intros e He.
  pose proof (open_wb_not_dir _ _ _ Ho) as Hnot.
  destruct e; [|done]. exfalso. apply Hnot.
  unfold stat. by destruct (resolve (os_path_join local_path file_name)).
Qed.

Lemma keeps_kinds_for_each {A} (l : list A) (body : A -> M unit) :
  (forall x, keeps_kinds (body x)) -> keeps_kinds (for_each l body).
Proof.
  intros Hbody. induction l as [|x l IH]; [intros w; apply kinds_kept_refl|].
  cbn [for_each]. by apply keeps_kinds_bind.
Qed.

Lemma keeps_kinds_download_folder_contents (svc : Service) (fuel : nat) :
  forall folder_id local_path,
    keeps_kinds (download_folder_contents fuel svc folder_id local_path).
Proof.
  induction fuel as [|fuel IH]; intros folder_id local_path.
  - intros w. apply kinds_kept_refl.
  - cbn [download_folder_contents]. apply keeps_kinds_bind.
    + apply keeps_kinds_quiet. intros w. unfold list_execute, bind, emit, lift.
      by destruct (files_list svc _).
    + intros results. apply keeps_kinds_for_each. intros item. unfold process_item.
      destruct (String.eqb (mimeType item) folder_mime).
      * apply keeps_kinds_bind; [apply keeps_kinds_makedirs|]. intros _.
        apply keeps_kinds_bind; [by apply keeps_kinds_quiet|]. intros _. apply IH.
      * apply keeps_kinds_download_file.
Qed.

(** X12.  The mirror only ever adds and overwrites.  Whatever the remote
    side answers and however the run ends, every local entry that was there
    before [download_folder] is still there after it, a directory as a
    directory and a file as a file (its content may have been replaced). *)
Theorem mirror_deletes_nothing (fuel : nat) (svc : Service)
    (folder_id local_path : string) (w : World) :
  kinds_kept (fs w) (fs (snd (download_folder fuel svc folder_id local_path w))).
Proof.
  revert w. change (keeps_kinds (download_folder fuel svc folder_id local_path)).
  unfold download_folder.
  apply keeps_kinds_bind.
  { apply keeps_kinds_quiet. intros w. unfold get_execute, bind, emit, lift.
    by destruct (files_get svc _). }
  intros folder. apply keeps_kinds_bind; [by apply keeps_kinds_quiet|]. intros _.
  apply keeps_kinds_bind; [apply keeps_kinds_makedirs|]. intros _.
  apply keeps_kinds_bind; [apply keeps_kinds_download_folder_contents|]. intros _.
  apply keeps_kinds_bind; [by apply keeps_kinds_quiet|]. intros _.
  by apply keeps_kinds_quiet.
Qed.

(** ** Running the mirror again *)

Lemma dir_chain_snoc (m : FS) (pk : list string) (n : string) :
  dir_chain m pk -> m !! (pk ++ [n]) = Some Dir -> dir_chain m (pk ++ [n]).
Proof.
  intros Hchain Hdir j. destruct (decide (j <= length pk)) as [Hj|Hj].
  - rewrite take_app_le by done. apply Hchain.
  - rewrite take_ge by (rewrite length_app; cbn; lia).
    unfold is_dir. by rewrite stat_nonempty.
Qed.

Section Settled.
Variable svc : Service.
Variable fuel : nat.
Hypothesis IHfuel : contents_settled svc fuel.
Variable path : string.
Variable kids : list RemoteNode.
Hypothesis Hnodup : NoDup (map name_of kids).

Let pk := resolve path.

Lemma item_settled (t : RemoteNode) (w : World) :
  In t kids ->
  served svc t ->
  well_named t ->
  safe_name (name_of t) = true ->
  depth t <= fuel ->
  dir_chain (fs w) pk ->
  image_present svc pk kids (fs w) ->
  exists w',
    process_item (download_folder_contents fuel svc) svc path (node_item t) w
      = (Ret tt, w') /\
    fs w' = fs w.
Proof.
  intros Hin Hserved Hnamed Hsafe Hdepth Hchain Himg.
  assert (Hat : forall rel, fs w !! (pk ++ name_of t :: rel) = expected_node svc t rel).
  { intros rel. rewrite Himg by (by apply in_map).
    by rewrite expected_unfold, (find_child_In _ _ Hnodup Hin). }
  destruct t as [i n kids'|i n m]; unfold name_of in *; cbn [node_item name] in *.
  - destruct (resolve_join path n Hsafe) as [Hk Hne]. fold pk in Hk.
    unfold process_item. cbn [mimeType name id]. rewrite String.eqb_refl.
    unfold bind at 1. unfold os_makedirs, fs_op.
    assert (Hsub : dir_chain (fs w) (pk ++ [n])).
    { apply dir_chain_snoc; [done|]. apply (Hat []). }
    rewrite makedirs_existing by (split; [done|by rewrite Hk]).
    unfold bind at 1. unfold print, emit. cbn [fs log].
    inversion Hnamed; subst.
    destruct (IHfuel i n kids' (os_path_join path n) (mkWorld (fs w) (log w ++
                [Print ("📁 Created folder: " +:+ n)]))) as (w' & Hrun & Hfs).
    + done.
    + done.
    + cbn [depth] in Hdepth. lia.
    + by rewrite Hk.
    + rewrite Hk. intros c rel Hc. cbn [fs]. rewrite <- app_assoc. cbn [app].
      by rewrite Hat.
    + exists w'. by split.
  - inversion Hserved as [|? ? ? Hmime]; subst.
    unfold process_item. cbn [mimeType name id]. rewrite Hmime.
    destruct (resolve_join path n Hsafe) as [Hk Hne]. fold pk in Hk.
    specialize (Hat []). cbn [expected_node] in Hat.
    download_file_cases w; cbn [fs]; (eexists; split; [reflexivity|]); cbn [fs];
      try done.
    unfold leaf_entry, reaches_open in Hat. rewrite Hget, Hm, Hp in Hat.
    cbn [negb] in Hat. rewrite Hk. by apply insert_id.
Qed.

Lemma loop_settled (l : list RemoteNode) :
  forall w,
    (forall t, In t l -> In t kids) ->
    Forall (served svc) l ->
    Forall well_named l ->
    Forall (fun t => safe_name (name_of t) = true) l ->
    Forall (fun t => depth t <= fuel) l ->
    dir_chain (fs w) pk ->
    image_present svc pk kids (fs w) ->
    exists w',
      for_each (map node_item l)
        (process_item (download_folder_contents fuel svc) svc path) w
        = (Ret tt, w') /\
      fs w' = fs w.
Proof.
  induction l as [|t l IH]; intros w Hsub Hserved Hnamed Hsafe Hdepth Hchain Himg.
  { by exists w. }
  apply Forall_cons in Hserved as [Hs_t Hs]. apply Forall_cons in Hnamed as [Hn_t Hn].
  apply Forall_cons in Hsafe as [Hsafe_t Hsafe]. apply Forall_cons in Hdepth as [Hd_t Hd].
  destruct (item_settled t w) as (w1 & Hrun1 & Hfs1); try done.
  { apply Hsub. by left. }
  destruct (IH w1) as (w' & Hrun & Hfs); try done.
  { intros t' Ht'. apply Hsub. by right. }
  { by rewrite Hfs1. }
  { by rewrite Hfs1. }
  exists w'. split.
  - cbn [map for_each]. unfold bind. by rewrite Hrun1.
  - congruence.
Qed.

End Settled.

Lemma contents_settled_all (svc : Service) (fuel : nat) : contents_settled svc fuel.
Proof.
  induction fuel as [|fuel IH]; intros i nm kids path w Hserved Hnamed Hdepth Hchain Himg;
    [lia|].
  inversion Hserved as [? ? ? resp Hlist Hitems Hkids|]; subst.
  inversion Hnamed as [? ? ? Hnodup Hsafe Hwn|]; subst.
  cbn [download_folder_contents]. unfold bind at 1.
  unfold list_execute, bind, emit, lift. rewrite Hlist. unfold ret. rewrite Hitems.
  apply (loop_settled svc fuel IH path kids Hnodup kids (mkWorld (fs w) _)); try done.
  apply Forall_forall. intros t Ht. apply list_elem_of_In in Ht.
  pose proof (depth_le_list_max t kids Ht). lia.
Qed.



(** ** The order of a listing *)

Lemma expected_inv (svc : Service) (rel : list string) :
  forall kids e,
    expected svc kids rel = Some e ->
    exists t, located kids rel t /\ expected_node svc t [] = Some e.
Proof.
  induction rel as [|c rel IH]; intros kids e Hexp; [done|].
  rewrite expected_unfold in Hexp.
  destruct (find_child c kids) as [t|] eqn:Hfind; [|done].
  apply find_child_Some in Hfind as [Hin <-].
  destruct rel as [|c' rel].
  - exists t. split; [by apply located_child|done].
  - destruct t as [i n kids'|i n m]; cbn [expected_node] in Hexp; [|done].
    destruct (IH _ _ Hexp) as (t & Hloc & Ht).
    exists t. split; [|done]. by apply located_below with i kids'.
Qed.

Lemma leaf_entry_ext (svc svc' : Service) (i : string) :
  files_get svc i = files_get svc' i ->
  get_media svc i = get_media svc' i ->
  leaf_entry svc i = leaf_entry svc' i.
Proof. intros Hget Hmedia. unfold leaf_entry, reaches_open. by rewrite Hget, Hmedia. Qed.

Lemma expected_same_places_le (svc svc' : Service) (kids kids' : list RemoteNode)
    (rel : list string) (e : Entry) :
  (forall i, files_get svc i = files_get svc' i) ->
  (forall i, get_media svc i = get_media svc' i) ->
  same_places kids kids' ->
  NoDup (map name_of kids') ->
  Forall well_named kids' ->
  expected svc kids rel = Some e ->
  expected svc' kids' rel = Some e.
Proof.
  intros Hget Hmedia [Hfiles Hfolders] Hnd Hwn Hexp.
  destruct (expected_inv _ _ _ _ Hexp) as ([i n k|i n m] & Hloc & Ht);
    cbn [expected_node] in Ht.
  - injection Ht as <-.
    destruct (proj1 (Hfolders rel)) as (i' & n' & k' & Hloc'); [by eauto|].
    by rewrite (expected_located svc' _ _ _ Hloc' Hnd Hwn).
  - apply Hfiles in Hloc.
    rewrite (expected_located svc' _ _ _ Hloc Hnd Hwn). cbn [expected_node].
    by rewrite <- (leaf_entry_ext svc svc').
Qed.

Lemma same_places_sym (kids kids' : list RemoteNode) :
  same_places kids kids' -> same_places kids' kids.
Proof. intros [Hfiles Hfolders]. split; intros; symmetry; auto. Qed.

Lemma expected_same_places (svc svc' : Service) (kids kids' : list RemoteNode)
    (rel : list string) :
  (forall i, files_get svc i = files_get svc' i) ->
  (forall i, get_media svc i = get_media svc' i) ->
  same_places kids kids' ->
  NoDup (map name_of kids) -> Forall well_named kids ->
  NoDup (map name_of kids') -> Forall well_named kids' ->
  expected svc kids rel = expected svc' kids' rel.
Proof.
  intros Hget Hmedia Hsame Hnd Hwn Hnd' Hwn'.
  destruct (expected svc kids rel) as [e|] eqn:He.
  - symmetry. by eapply expected_same_places_le.
  - destruct (expected svc' kids' rel) as [e'|] eqn:He'; [|done].
    apply (expected_same_places_le svc' svc kids' kids) in He';
      [congruence|done|done|by apply same_places_sym|done|done].
Qed.

Lemma located_In_equiv (kids kids' : list RemoteNode) (rel : list string)
    (t : RemoteNode) :
  (forall x, In x kids -> In x kids') ->
  located kids rel t -> located kids' rel t.
Proof.
  intros Hsub Hloc. inversion Hloc; subst.
  - apply located_child. by apply Hsub.
  - eapply located_below; [|done]. by apply Hsub.
Qed.

(** Listing the same children in another order leaves every node where it
    was. *)
Lemma same_places_Permutation (kids kids' : list RemoteNode) :
  kids ≡ₚ kids' -> same_places kids kids'.
Proof.
  intros Hperm.
  assert (H1 : forall x, In x kids -> In x kids').
  { intros x. rewrite <- !list_elem_of_In. by rewrite Hperm. }
  assert (H2 : forall x, In x kids' -> In x kids).
  { intros x. rewrite <- !list_elem_of_In. by rewrite Hperm. }
  split.
  - intros rel i n m. split; by apply located_In_equiv.
  - intros rel. split; intros (i & n & k & Hloc); exists i, n, k;
      by eapply located_In_equiv.
Qed.



(** ** [authenticate] *)

Lemma open_wb_result (path : string) (m m1 : FS) :
  open_wb path m = inr m1 -> m1 = <[resolve path := File []]> m.
Proof.
  unfold open_wb. case_bool_decide; [discriminate|].
  destruct (resolve path) as [|c k] eqn:Hk; [discriminate|].
  destruct (stat m (removelast (c :: k))) as [[|?]|]; try discriminate.
  destruct (stat m (c :: k)) as [[|?]|]; try discriminate; congruence.
Qed.

Lemma save_token_spec (env : AuthEnv) (c : Credentials) (w : World) :
  fs w !! ["token.pickle"] ≠ Some Dir ->
  save_token env c w =
    (Ret tt, mkWorld (<[ ["token.pickle"] := File (pickle_dump env c) ]> (fs w)) (log w)).
Proof.
  intros Hnot. unfold save_token, bind, fs_op.
  rewrite (open_wb_not_a_dir "token.pickle" [] "token.pickle" (fs w));
    [|done|reflexivity|reflexivity|exact Hnot].
  cbn [fs log app]. change (resolve "token.pickle") with ["token.pickle"].
  unfold fd_write. rewrite lookup_insert_eq. by rewrite insert_insert_eq.
Qed.

Lemma save_token_inv (env : AuthEnv) (c : Credentials) (w w' : World) :
  save_token env c w = (Ret tt, w') ->
  fs w' !! ["token.pickle"] = Some (File (pickle_dump env c)).
Proof.
  unfold save_token, bind, fs_op.
  destruct (open_wb "token.pickle" (fs w)) as [e|m1] eqn:Ho; [done|].
  apply open_wb_result in Ho as ->. change (resolve "token.pickle") with ["token.pickle"].
  intros [= <-]. cbn [fs]. unfold fd_write. rewrite lookup_insert_eq.
  apply lookup_insert_eq.
Qed.

Lemma load_token_file (env : AuthEnv) (w : World) (b : bytes) :
  fs w !! ["token.pickle"] = Some (File b) ->
  load_token env w = lift (pickle_load env b) w.
Proof.
  intros Hb. unfold load_token, read_file.
  change (resolve "token.pickle") with ["token.pickle"]. unfold stat. by rewrite Hb.
Qed.

Lemma load_token_absent (env : AuthEnv) (w : World) :
  fs w !! ["token.pickle"] = None -> load_token env w = (Ret None, w).
Proof.
  intros Hb. unfold load_token.
  change (resolve "token.pickle") with ["token.pickle"]. unfold stat. by rewrite Hb.
Qed.

Lemma load_token_world (env : AuthEnv) (w : World) : snd (load_token env w) = w.
Proof.
  unfold load_token, read_file. change (resolve "token.pickle") with ["token.pickle"].
  destruct (stat (fs w) ["token.pickle"]) as [[|b]|]; try done.
  unfold lift, raise, ret. by destruct (pickle_load env b).
Qed.

Lemma load_token_not_dir (env : AuthEnv) (w w0 : World) (creds : option Credentials) :
  load_token env w = (Ret creds, w0) -> fs w !! ["token.pickle"] ≠ Some Dir.
Proof.
  unfold load_token, read_file. change (resolve "token.pickle") with ["token.pickle"].
  unfold stat. by destruct (fs w !! ["token.pickle"]) as [[|b]|].
Qed.

Lemma authenticate_valid (env : AuthEnv) (w : World) (c : Credentials) :
  load_token env w = (Ret (Some c), w) ->
  valid c = true ->
  authenticate env w = (Ret (build env c), w).
Proof. intros Hload Hvalid. unfold authenticate, bind. by rewrite Hload, Hvalid. Qed.

(** X15.  With a [token.pickle] that holds a valid credential,
    [authenticate] builds the service from that credential and does nothing
    else: nothing is printed, the token file is not rewritten, and neither
    the refresh nor the browser flow is used, whatever they would have
    done. *)
Theorem authenticate_with_valid_token (env : AuthEnv) (w : World) (b : bytes)
    (c : Credentials) :
  fs w !! ["token.pickle"] = Some (File b) ->
  pickle_load env b = inr (Some c) ->
  valid c = true ->
  authenticate env w = (Ret (build env c), w).
Proof.
  intros Hb Hload Hvalid. apply authenticate_valid; [|done].
  by rewrite (load_token_file env w b Hb), Hload.
Qed.

Lemma toy_split_unary (n : nat) (rest : bytes) :
  split_unary (replicate n x01 ++ x00 :: rest) = Some (n, rest).
Proof. induction n as [|n IH]; [done|]. cbn. by rewrite IH. Qed.

Lemma toy_pickle_round_trip (c : Credentials) : toy_load (toy_dump c) = inr (Some c).
Proof.
  destruct c as [tok v e r]. unfold toy_dump, toy_load. cbn [token valid expired refresh_token app].
  rewrite toy_split_unary.
  rewrite take_app_length, drop_app_length, String.string_of_list_byte_of_string.
  destruct r as [r|]; destruct v, e; cbn;
    by rewrite ?String.string_of_list_byte_of_string.
Qed.

Lemma authenticate_with_valid_token_witness :
  authenticate demo_env (world_with_token good_credentials) =
    (Ret (build demo_env good_credentials), world_with_token good_credentials).
Proof.
  apply (authenticate_with_valid_token demo_env (world_with_token good_credentials)
           (toy_dump good_credentials) good_credentials); reflexivity.
Defined.

(** X16.  An invalid credential that is expired and has a refresh token is
    refreshed, without the browser.  When the refresh succeeds the refreshed
    credential is written to [token.pickle] and the service is built from
    it, with nothing printed; its validity is not looked at again.  When the
    refresh raises, [authenticate] raises the same exception and
    [token.pickle] is left as it was. *)
Theorem authenticate_refreshes_expired_token (env : AuthEnv) (w : World) (b : bytes)
    (c : Credentials) :
  fs w !! ["token.pickle"] = Some (File b) ->
  pickle_load env b = inr (Some c) ->
  valid c = false ->
  expired c = true ->
  truthy (refresh_token c) = true ->
  match refresh env c with
  | inr c' =>
      authenticate env w =
        (Ret (build env c'),
         mkWorld (<[ ["token.pickle"] := File (pickle_dump env c') ]> (fs w)) (log w))
  | inl e => authenticate env w = (Raise e, w)
  end.
Proof.
  intros Hb Hload Hvalid Hexp Hrt.
  assert (Hnot : fs w !! ["token.pickle"] ≠ Some Dir) by (rewrite Hb; discriminate).
  destruct (refresh env c) as [e|c'] eqn:Href;
    unfold authenticate; unfold bind at 1;
    rewrite (load_token_file env w b Hb), Hload;
    unfold lift at 1, ret at 1; cbv beta iota; rewrite Hvalid;
    unfold bind at 1; unfold renew; unfold bind at 1;
    rewrite Hexp, Hrt; cbn [andb]; rewrite Href;
    unfold lift, raise, ret; cbv beta iota; [done|].
  unfold bind. by rewrite save_token_spec.
Qed.

Lemma authenticate_refreshes_expired_token_witness :
  authenticate demo_env (world_with_token stale_credentials) =
    (Ret (build demo_env (mkCredentials "refreshed:old" true false (Some "r0"))),
     mkWorld (<[ ["token.pickle"] :=
                   File (pickle_dump demo_env
                           (mkCredentials "refreshed:old" true false (Some "r0"))) ]>
                (fs (world_with_token stale_credentials)))
             (log (world_with_token stale_credentials))).
Proof.
  apply (authenticate_refreshes_expired_token demo_env (world_with_token stale_credentials)
           (toy_dump stale_credentials) stale_credentials); reflexivity.
Defined.

Lemma browser_flow_no_secrets (env : AuthEnv) (w : World) :
  fs w !! ["credentials.json"] = None ->
  browser_flow env w =
    (Raise (FileNotFoundError "credentials.json"),
     mkWorld (fs w)
       (log w ++ [Print "🔐 Opening browser for Google Drive authentication...";
                  Print "📋 Please sign in and authorize access to Google Drive"])).
Proof.
  intros Hs. unfold browser_flow. unfold bind at 1. unfold print at 1, emit at 1.
  unfold bind at 1. unfold print at 1, emit at 1. unfold bind at 1.
  cbn [fs log]. unfold read_file. change (resolve "credentials.json") with ["credentials.json"].
  unfold stat. rewrite Hs. cbn [lift raise]. by rewrite <- app_assoc.
Qed.

Lemma browser_flow_succeeds (env : AuthEnv) (w : World) (s : bytes) (flow : Flow)
    (new : Credentials) :
  fs w !! ["credentials.json"] = Some (File s) ->
  from_client_secrets_file env s = inr flow ->
  run_local_server flow = inr new ->
  browser_flow env w =
    (Ret new,
     mkWorld (fs w)
       (log w ++ [Print "🔐 Opening browser for Google Drive authentication...";
                  Print "📋 Please sign in and authorize access to Google Drive";
                  Print "✅ Authentication successful!"])).
Proof.
  intros Hs Hflow Hrun. unfold browser_flow. unfold bind at 1. unfold print at 1, emit at 1.
  unfold bind at 1. unfold print at 1, emit at 1. unfold bind at 1.
  cbn [fs log]. unfold read_file. change (resolve "credentials.json") with ["credentials.json"].
  unfold stat. rewrite Hs. cbn [lift ret]. unfold bind at 1. rewrite Hflow. cbn [lift ret].
  unfold bind at 1. rewrite Hrun. cbn [lift ret]. unfold bind, print, emit, ret.
  cbn [fs log]. by rewrite <- !app_assoc.
Qed.

(** X17.  On a first run with neither [token.pickle] nor [credentials.json],
    [authenticate] announces the browser, then raises [FileNotFoundError]
    for [credentials.json]; no [token.pickle] is created. *)
Theorem authenticate_without_client_secrets (env : AuthEnv) (w : World) :
  fs w !! ["token.pickle"] = None ->
  fs w !! ["credentials.json"] = None ->
  authenticate env w =
    (Raise (FileNotFoundError "credentials.json"),
     mkWorld (fs w)
       (log w ++ [Print "🔐 Opening browser for Google Drive authentication...";
                  Print "📋 Please sign in and authorize access to Google Drive"])).
Proof.
  intros Ht Hs. unfold authenticate. unfold bind at 1.
  rewrite (load_token_absent env w Ht). unfold bind at 1. unfold renew.
  unfold bind at 1. by rewrite (browser_flow_no_secrets env w Hs).
Qed.

Lemma authenticate_without_client_secrets_witness :
  authenticate demo_env empty_world =
    (Raise (FileNotFoundError "credentials.json"),
     mkWorld (fs empty_world)
       (log empty_world ++
          [Print "🔐 Opening browser for Google Drive authentication...";
           Print "📋 Please sign in and authorize access to Google Drive"])).
Proof.
  apply (authenticate_without_client_secrets demo_env empty_world); reflexivity.
Defined.

(** X18.  The browser flow is the fallback for everything the refresh does
    not cover: no stored credential, or an invalid one that is not expired
    or has no refresh token.  The refresh is then not tried, whatever it
    would give; when the flow succeeds, its credential is written to
    [token.pickle], the service is built from it, and the three lines of the
    flow are printed. *)
Theorem authenticate_falls_back_to_browser (env : AuthEnv) (w : World)
    (creds : option Credentials) (s : bytes) (flow : Flow) (new : Credentials) :
  load_token env w = (Ret creds, w) ->
  match creds with
  | Some c => valid c = false /\ expired c && truthy (refresh_token c) = false
  | None => True
  end ->
  fs w !! ["credentials.json"] = Some (File s) ->
  from_client_secrets_file env s = inr flow ->
  run_local_server flow = inr new ->
  authenticate env w =
    (Ret (build env new),
     mkWorld (<[ ["token.pickle"] := File (pickle_dump env new) ]> (fs w))
       (log w ++ [Print "🔐 Opening browser for Google Drive authentication...";
                  Print "📋 Please sign in and authorize access to Google Drive";
                  Print "✅ Authentication successful!"])).
Proof.
  intros Hload Hcreds Hs Hflow Hrun.
  pose proof (load_token_not_dir _ _ _ _ Hload) as Hnot.
  assert (Hrenew : renew env creds w =
    (Ret new,
     mkWorld (<[ ["token.pickle"] := File (pickle_dump env new) ]> (fs w))
       (log w ++ [Print "🔐 Opening browser for Google Drive authentication...";
                  Print "📋 Please sign in and authorize access to Google Drive";
                  Print "✅ Authentication successful!"]))).
  { unfold renew. unfold bind at 1.
    assert (Hnew : match creds with
                   | Some c => if expired c && truthy (refresh_token c)
                               then lift (refresh env c) else browser_flow env
                   | None => browser_flow env
                   end = browser_flow env).
    { destruct creds as [c|]; [|done]. destruct Hcreds as [_ ->]. done. }
    rewrite Hnew, (browser_flow_succeeds env w s flow new Hs Hflow Hrun).
    unfold bind. by rewrite save_token_spec. }
  unfold authenticate. unfold bind at 1. rewrite Hload.
  destruct creds as [c|].
  - destruct Hcreds as [-> _]. unfold bind. by rewrite Hrenew.
  - unfold bind. by rewrite Hrenew.
Qed.

Lemma authenticate_falls_back_to_browser_witness :
  authenticate demo_env world_with_secrets =
    (Ret (build demo_env (mkCredentials "from-browser" true false (Some "r1"))),
     mkWorld (<[ ["token.pickle"] :=
                   File (pickle_dump demo_env
                           (mkCredentials "from-browser" true false (Some "r1"))) ]>
                (fs world_with_secrets))
       (log world_with_secrets ++
          [Print "🔐 Opening browser for Google Drive authentication...";
           Print "📋 Please sign in and authorize access to Google Drive";
           Print "✅ Authentication successful!"])).
Proof.
  apply (authenticate_falls_back_to_browser demo_env world_with_secrets None
           ["{"; "}"]%byte
           (mkFlow (inr (mkCredentials "from-browser" true false (Some "r1"))))
           (mkCredentials "from-browser" true false (Some "r1")));
    first [reflexivity | exact I].
Defined.

Lemma renew_saves (env : AuthEnv) (creds : option Credentials) (w w' : World)
    (new : Credentials) :
  renew env creds w = (Ret new, w') ->
  fs w' !! ["token.pickle"] = Some (File (pickle_dump env new)).
Proof.
  unfold renew. unfold bind at 1.
  match goal with
  | |- context [match ?c w with _ => _ end] => destruct (c w) as [[c1|e|] w1]
  end; try done.
  unfold bind. destruct (save_token env c1 w1) as [[[]|e|] w2] eqn:Hsave; try done.
  intros [= <- <-]. by apply save_token_inv in Hsave.
Qed.

(** X19.  What [authenticate] saves is what it uses.  Given a pickle that
    reads back what it wrote, whenever [authenticate] returns a service,
    [token.pickle] then holds the very credential the service was built
    from; and when that credential is valid, calling [authenticate] again
    returns the same service without touching the world. *)
Theorem authenticate_saves_what_it_uses (env : AuthEnv) (w w' : World) (svc : Service) :
  (forall c, pickle_load env (pickle_dump env c) = inr (Some c)) ->
  authenticate env w = (Ret svc, w') ->
  exists c,
    svc = build env c /\
    load_token env w' = (Ret (Some c), w') /\
    (valid c = true -> authenticate env w' = (Ret svc, w')).
Proof.
  intros Hpickle Hrun. unfold authenticate in Hrun. unfold bind at 1 in Hrun.
  pose proof (load_token_world env w) as Hw.
  destruct (load_token env w) as [[creds|e|] w0] eqn:Hload; try done.
  cbn [snd] in Hw. subst w0.
  assert (Hrenewed : forall new w1,
            renew env creds w = (Ret new, w1) ->
            load_token env w1 = (Ret (Some new), w1)).
  { intros new w1 Hrenew. apply renew_saves in Hrenew.
    by rewrite (load_token_file env w1 _ Hrenew), Hpickle. }
  assert (Hcase : (exists c, creds = Some c /\ valid c = true /\
                             svc = build env c /\ w' = w) \/
                  (exists new, renew env creds w = (Ret new, w') /\ svc = build env new)).
  { destruct creds as [c|].
    - destruct (valid c) eqn:Hvalid.
      + left. exists c. by injection Hrun as <- <-.
      + right. unfold bind in Hrun.
        destruct (renew env (Some c) w) as [[new|e|] w1]; try done.
        exists new. by injection Hrun as <- <-.
    - right. unfold bind in Hrun.
      destruct (renew env None w) as [[new|e|] w1]; try done.
      exists new. by injection Hrun as <- <-. }
  destruct Hcase as [(c & -> & Hvalid & -> & ->)|(new & Hrenew & ->)].
  - exists c. split; [done|]. split; [done|]. intros _. by apply authenticate_valid.
  - exists new. split; [done|]. split; [by apply Hrenewed|].
    intros Hvalid. apply authenticate_valid; [by apply Hrenewed|done].
Qed.

Lemma authenticate_saves_what_it_uses_witness :
  exists c,
    build demo_env (mkCredentials "refreshed:old" true false (Some "r0")) =
      build demo_env c /\
    load_token demo_env
        (snd (authenticate demo_env (world_with_token stale_credentials))) =
      (Ret (Some c), snd (authenticate demo_env (world_with_token stale_credentials))) /\
    (valid c = true ->
     authenticate demo_env
         (snd (authenticate demo_env (world_with_token stale_credentials))) =
       (Ret (build demo_env (mkCredentials "refreshed:old" true false (Some "r0"))),
        snd (authenticate demo_env (world_with_token stale_credentials)))).
Proof.
  apply (authenticate_saves_what_it_uses demo_env (world_with_token stale_credentials)
           (snd (authenticate demo_env (world_with_token stale_credentials)))
           (build demo_env (mkCredentials "refreshed:old" true false (Some "r0")))).
  - apply toy_pickle_round_trip.
  - reflexivity.
Defined.

(** ** [main] *)

Lemma strip_all_space (s : string) : all_space s = true -> strip s = "".
Proof.
  unfold strip. induction s as [|c r IH]; [done|].
  cbn [all_space lstrip]. intros H. apply andb_prop in H as [-> Hr]. by apply IH.
Qed.

(** X20.  A line of white space only is no folder id: [main] prints
    ["No folder ID provided"] and returns, without authenticating, calling
    the client or touching the file system. *)
Theorem main_without_folder_id (fuel : nat) (env : AuthEnv) (line : string) (w : World) :
  all_space line = true ->
  main fuel env line w =
    (Ret tt, mkWorld (fs w) (log w ++ [Print "No folder ID provided"])).
Proof. intros Hblank. unfold main. by rewrite (strip_all_space _ Hblank). Qed.

Lemma main_without_folder_id_witness :
  main 3 demo_env "   " empty_world =
    (Ret tt, mkWorld (fs empty_world) (log empty_world ++ [Print "No folder ID provided"])).
Proof. apply (main_without_folder_id 3 demo_env "   " empty_world). reflexivity. Defined.

(** X21.  [main] never raises.  Whatever [authenticate] or [download_folder]
    raises reaches the handler of [main], which prints the error line with
    [str(e)] and lets [main] return. *)
Theorem main_never_raises (fuel : nat) (env : AuthEnv) (line : string) (w : World) :
  (forall e, fst (main fuel env line w) ≠ Raise e) /\
  (forall e w1,
     strip line ≠ "" ->
     main_body fuel env (strip line) w = (Raise e, w1) ->
     main fuel env line w =
       (Ret tt, mkWorld (fs w1) (log w1 ++ [Print ("❌ Error: " +:+ str e)]))).
Proof.
  split.
  - intros e. unfold main. destruct (String.eqb (strip line) ""); [done|].
    unfold try_except.
    by destruct (main_body fuel env (strip line) w) as [[[]|e'|] w1].
  - intros e w1 Hid Hbody. unfold main.
    apply String.eqb_neq in Hid. rewrite Hid. unfold try_except. by rewrite Hbody.
Qed.

Lemma main_never_raises_witness :
  (forall e, fst (main 3 demo_env "root" empty_world) ≠ Raise e) /\
  (forall e w1,
     strip "root" ≠ "" ->
     main_body 3 demo_env (strip "root") empty_world = (Raise e, w1) ->
     main 3 demo_env "root" empty_world =
       (Ret tt, mkWorld (fs w1) (log w1 ++ [Print ("❌ Error: " +:+ str e)]))).
Proof. exact (main_never_raises 3 demo_env "root" empty_world). Defined.

(** X22.  A folder id the client cannot resolve ends in one error line.
    Once authenticated, when the metadata fetch of the given id raises
    [e], [main] prints the error line for [e] and returns; no directory has
    been created and no listing asked for. *)
Theorem main_reports_unknown_folder (fuel : nat) (env : AuthEnv) (line : string)
    (w w1 : World) (svc : Service) (e : exn) :
  strip line ≠ "" ->
  authenticate env w = (Ret svc, w1) ->
  files_get svc (strip line) = inl e ->
  main fuel env line w =
    (Ret tt,
     mkWorld (fs w1)
       (log w1 ++ [CallGet (strip line); Print ("❌ Error: " +:+ str e)])).
Proof.
  intros Hid Hauth Hget. unfold main.
  apply String.eqb_neq in Hid. rewrite Hid. unfold try_except, main_body.
  unfold bind at 1. rewrite Hauth. unfold bind at 1.
  rewrite download_folder_unfold, Hget.
  unfold print, emit. cbn [fs log]. by rewrite <- app_assoc.
Qed.

Lemma main_reports_unknown_folder_witness :
  main 3 demo_env " nowhere " (world_with_token good_credentials) =
    (Ret tt,
     mkWorld (fs (world_with_token good_credentials))
       (log (world_with_token good_credentials) ++
          [CallGet (strip " nowhere ");
           Print ("❌ Error: " +:+ str (not_found "nowhere"))])).
Proof.
  apply (main_reports_unknown_folder 3 demo_env " nowhere "
           (world_with_token good_credentials) (world_with_token good_credentials)
           demo_svc (not_found "nowhere")).
  - vm_compute. discriminate.
  - reflexivity.
  - reflexivity.
Defined.

Lemma downloaded_line_is_truthful_witness :
  let r := download_file demo_svc "f1" "a.txt" "R" world_with_R in
  exists evs,
    log (snd r) = log world_with_R ++ evs /\
    (In (downloaded_line "a.txt") evs ->
     transfer_error (get_media demo_svc "f1") = None /\
     fs (snd r) !! resolve (os_path_join "R" "a.txt") =
       Some (File (delivered (get_media demo_svc "f1")))).
Proof. exact (downloaded_line_is_truthful demo_svc "f1" "a.txt" "R" world_with_R). Defined.

(** ** Remote calls of a completed walk *)

Lemma count_lists_app (a b : list Event) :
  count_lists (a ++ b) = count_lists a + count_lists b.
Proof. unfold count_lists. by rewrite List.filter_app, length_app. Qed.

Lemma count_gets_app (a b : list Event) :
  count_gets (a ++ b) = count_gets a + count_gets b.
Proof. unfold count_gets. by rewrite List.filter_app, length_app. Qed.

Lemma calls_bind {A B} (c : M A) (k : A -> M B) (l1 g1 l2 g2 : nat) :
  emits c (calls l1 g1) ->
  (forall a, emits (k a) (calls l2 g2)) ->
  emits (bind c k) (calls (l1 + l2) (g1 + g2)).
Proof.
  intros Hc Hk.
  apply emits_bind with (Φ := calls l1 g1) (Ψ := fun _ => calls l2 g2); try done.
  - intros a evs1 out evs2 H1 H2 Hret.
    destruct H1 as [<- <-]; [by eexists|]. destruct (H2 Hret) as [<- <-].
    by rewrite count_lists_app, count_gets_app.
  - intros e evs _ [a Ha]. discriminate Ha.
  - intros evs _ [a Ha]. discriminate Ha.
Qed.

Lemma calls_none {A} (c : M A) :
  emits c (fun _ evs => count_lists evs = 0 /\ count_gets evs = 0) ->
  emits c (calls 0 0).
Proof. intros Hc. eapply emits_weaken; [exact Hc|]. by intros out evs H _. Qed.

Lemma calls_download_file (svc : Service) (file_id file_name local_path : string) :
  emits (download_file svc file_id file_name local_path) (calls 0 1).
Proof.
  intros w. download_file_cases w; cbn [snd fst log]; eexists;
    (split; [reflexivity|]); intros _; try done.
  unfold count_lists, count_gets. cbn [List.filter is_listing is_get length].
  rewrite !List.filter_app, !length_app.
  assert (H1 : forall n, List.filter is_listing (replicate n (CallNextChunk file_id)) = []).
  { intros n. by induction n. }
  assert (H2 : forall n, List.filter is_get (replicate n (CallNextChunk file_id)) = []).
  { intros n. by induction n. }
  rewrite H1, H2. by destruct (transfer_error _).
Qed.

Lemma calls_for_each (svc : Service) (recurse : string -> string -> M unit)
    (local_path : string) (kids : list RemoteNode) :
  (forall t, In t kids ->
     emits (process_item recurse svc local_path (node_item t))
       (calls (folders_in t) (files_in t))) ->
  emits (for_each (map node_item kids) (process_item recurse svc local_path))
    (calls (list_sum (map folders_in kids)) (list_sum (map files_in kids))).
Proof.
  induction kids as [|t kids IH]; intros Hbody.
  - intros w. exists []. cbn. rewrite app_nil_r. by split.
  - cbn [map for_each list_sum]. apply calls_bind.
    + apply Hbody. by left.
    + intros _. apply IH. intros t' Ht'. apply Hbody. by right.
Qed.

Lemma calls_download_folder_contents (svc : Service) (fuel : nat) :
  forall i n kids local_path,
    served svc (RFolder i n kids) ->
    emits (download_folder_contents fuel svc i local_path)
      (calls (S (list_sum (map folders_in kids))) (list_sum (map files_in kids))).
Proof.
  induction fuel as [|fuel IH]; intros i n kids local_path Hserved.
  { intros w. exists []. cbn. rewrite app_nil_r. split; [done|]. by intros [a Ha]. }
  inversion Hserved as [? ? ? resp Hlist Hitems Hkids|]; subst.
  assert (Hloop : emits
    (for_each (map node_item kids)
       (process_item (download_folder_contents fuel svc) svc local_path))
    (calls (list_sum (map folders_in kids)) (list_sum (map files_in kids)))).
  { apply calls_for_each.
    intros t Ht. rewrite Forall_forall in Hkids. apply list_elem_of_In in Ht.
    specialize (Hkids _ Ht). destruct t as [i' n' kids'|i' n' m'].
    - unfold process_item. cbn [node_item mimeType name id]. rewrite String.eqb_refl.
      change (folders_in (RFolder i' n' kids'))
        with (0 + (0 + S (list_sum (map folders_in kids')))).
      change (files_in (RFolder i' n' kids'))
        with (0 + (0 + list_sum (map files_in kids'))).
      apply calls_bind.
      + apply calls_none. eapply emits_weaken; [apply emits_fs_op|]. by intros out evs ->.
      + intros _. apply calls_bind.
        * apply calls_none. eapply emits_weaken; [apply emits_emit|].
          by intros out evs [_ ->].
        * intros _. by apply IH with n'.
    - inversion Hkids as [|? ? ? Hmime]; subst.
      unfold process_item. cbn [node_item mimeType name id].
      rewrite Hmime. apply calls_download_file. }
  intros w. cbn [download_folder_contents]. unfold bind at 1.
  unfold list_execute, bind, emit, lift. rewrite Hlist. unfold ret. rewrite Hitems.
  destruct (Hloop (mkWorld (fs w) (log w ++ [CallList (children_query i)])))
    as (evs & Hlog & Hcalls).
  exists (CallList (children_query i) :: evs). split.
  - rewrite Hlog. cbn [log]. by rewrite <- app_assoc.
  - intros Hret. destruct (Hcalls Hret) as [<- <-]. by split.
Qed.

(** The same count, for the calls about one id. *)
Lemma count_lists_of_app (j : string) (a b : list Event) :
  count_lists_of j (a ++ b) = count_lists_of j a + count_lists_of j b.
Proof. unfold count_lists_of. by rewrite List.filter_app, length_app. Qed.

Lemma count_gets_of_app (j : string) (a b : list Event) :
  count_gets_of j (a ++ b) = count_gets_of j a + count_gets_of j b.
Proof. unfold count_gets_of. by rewrite List.filter_app, length_app. Qed.

Lemma calls_of_bind {A B} (j : string) (c : M A) (k : A -> M B) (l1 g1 l2 g2 : nat) :
  emits c (calls_of j l1 g1) ->
  (forall a, emits (k a) (calls_of j l2 g2)) ->
  emits (bind c k) (calls_of j (l1 + l2) (g1 + g2)).
Proof.
  intros Hc Hk.
  apply emits_bind with (Φ := calls_of j l1 g1) (Ψ := fun _ => calls_of j l2 g2);
    try done.
  - intros a evs1 out evs2 H1 H2 Hret.
    destruct H1 as [<- <-]; [by eexists|]. destruct (H2 Hret) as [<- <-].
    by rewrite count_lists_of_app, count_gets_of_app.
  - intros e evs _ [a Ha]. discriminate Ha.
  - intros evs _ [a Ha]. discriminate Ha.
Qed.

Lemma calls_of_none {A} (j : string) (c : M A) :
  emits c (fun _ evs => evs = [] \/ exists s, evs = [Print s]) ->
  emits c (calls_of j 0 0).
Proof.
  intros Hc. eapply emits_weaken; [exact Hc|].
  by intros out evs [->|[s ->]] _.
Qed.

Lemma calls_of_download_file (j : string) (svc : Service)
    (file_id file_name local_path : string) :
  emits (download_file svc file_id file_name local_path)
    (calls_of j 0 (one_if (String.eqb file_id j))).
Proof.
  assert (H1 : forall n,
    List.filter (is_listing_of j) (replicate n (CallNextChunk file_id)) = []).
  { intros n. by induction n. }
  assert (H2 : forall n,
    List.filter (is_get_of j) (replicate n (CallNextChunk file_id)) = []).
  { intros n. by induction n. }
  intros w. download_file_cases w; cbn [snd fst log]; eexists;
    (split; [reflexivity|]); intros _;
    unfold count_lists_of, count_gets_of;
    cbn [List.filter is_listing_of is_get_of];
    rewrite ?List.filter_app, ?H1, ?H2;
    destruct (String.eqb file_id j); try done;
    by destruct (transfer_error _).
Qed.

Lemma calls_of_for_each (j : string) (svc : Service)
    (recurse : string -> string -> M unit) (local_path : string)
    (kids : list RemoteNode) :
  (forall t, In t kids ->
     emits (process_item recurse svc local_path (node_item t))
       (calls_of j (folders_with j t) (files_with j t))) ->
  emits (for_each (map node_item kids) (process_item recurse svc local_path))
    (calls_of j (list_sum (map (folders_with j) kids))
       (list_sum (map (files_with j) kids))).
Proof.
  induction kids as [|t kids IH]; intros Hbody.
  - intros w. exists []. cbn. rewrite app_nil_r. by split.
  - cbn [map for_each list_sum]. apply calls_of_bind.
    + apply Hbody. by left.
    + intros _. apply IH. intros t' Ht'. apply Hbody. by right.
Qed.

Lemma calls_of_download_folder_contents (j : string) (svc : Service) (fuel : nat) :
  forall i n kids local_path,
    served svc (RFolder i n kids) ->
    emits (download_folder_contents fuel svc i local_path)
      (calls_of j (folders_with j (RFolder i n kids)) (files_with j (RFolder i n kids))).
Proof.
  induction fuel as [|fuel IH]; intros i n kids local_path Hserved.
  { intros w. exists []. cbn. rewrite app_nil_r. split; [done|]. by intros [a Ha]. }
  inversion Hserved as [? ? ? resp Hlist Hitems Hkids|]; subst.
  assert (Hloop : emits
    (for_each (map node_item kids)
       (process_item (download_folder_contents fuel svc) svc local_path))
    (calls_of j (list_sum (map (folders_with j) kids))
       (list_sum (map (files_with j) kids)))).
  { apply calls_of_for_each.
    intros t Ht. rewrite Forall_forall in Hkids. apply list_elem_of_In in Ht.
    specialize (Hkids _ Ht). destruct t as [i' n' kids'|i' n' m'].
    - unfold process_item. cbn [node_item mimeType name id]. rewrite String.eqb_refl.
      change (folders_with j (RFolder i' n' kids'))
        with (0 + (0 + folders_with j (RFolder i' n' kids'))).
      change (files_with j (RFolder i' n' kids'))
        with (0 + (0 + files_with j (RFolder i' n' kids'))).
      apply calls_of_bind.
      + apply calls_of_none. eapply emits_weaken; [apply emits_fs_op|].
        intros out evs ->. by left.
      + intros _. apply calls_of_bind.
        * apply calls_of_none. eapply emits_weaken; [apply emits_emit|].
          intros out evs [_ ->]. right. by eexists.
        * intros _. by apply IH.
    - inversion Hkids as [|? ? ? Hmime]; subst.
      unfold process_item. cbn [node_item mimeType name id].
      rewrite Hmime. apply calls_of_download_file. }
  intros w. cbn [download_folder_contents]. unfold bind at 1.
  unfold list_execute, bind, emit, lift. rewrite Hlist. unfold ret. rewrite Hitems.
  destruct (Hloop (mkWorld (fs w) (log w ++ [CallList (children_query i)])))
    as (evs & Hlog & Hcalls).
  exists (CallList (children_query i) :: evs). split.
  - rewrite Hlog. cbn [log]. by rewrite <- app_assoc.
  - intros Hret.
    change (folders_with j (RFolder i n kids))
      with (one_if (String.eqb i j) + list_sum (map (folders_with j) kids)).
    change (files_with j (RFolder i n kids))
      with (list_sum (map (files_with j) kids)).
    destruct (Hcalls Hret) as [<- <-].
    unfold count_lists_of, count_gets_of.
    cbn [List.filter is_listing_of is_get_of children_query q_parent].
    by destruct (String.eqb i j).
Qed.

(** X23.  The calls of a completed walk, id by id.  When the walk of a
    folder whose listings match a tree returns, then for every id [j] the
    new events hold as many [files().list] calls about [j] as the tree has
    folders of id [j], and as many [files().get] calls about [j] as it has
    files of id [j].  So a folder is listed once for each time it is in the
    tree and is fetched only if a file has its id, and a file is fetched
    once for each time it is in the tree and never listed; in all there is
    one listing for each folder and one metadata fetch for each file. *)
Theorem one_call_per_node (svc : Service) (fuel : nat) (i n local_path : string)
    (kids : list RemoteNode) (w w' : World) :
  served svc (RFolder i n kids) ->
  download_folder_contents fuel svc i local_path w = (Ret tt, w') ->
  exists evs,
    log w' = log w ++ evs /\
    (forall j,
       count_lists_of j evs = folders_with j (RFolder i n kids) /\
       count_gets_of j evs = files_with j (RFolder i n kids)) /\
    count_lists evs = folders_in (RFolder i n kids) /\
    count_gets evs = files_in (RFolder i n kids).
Proof.
  intros Hserved Hrun.
  destruct (calls_download_folder_contents svc fuel i n kids local_path Hserved w)
    as (evs & Hlog & Hcalls).
  rewrite Hrun in Hlog, Hcalls. cbn [fst snd] in *.
  exists evs. split; [done|]. split; [|apply Hcalls; by exists tt].
  intros j.
  destruct (calls_of_download_folder_contents j svc fuel i n kids local_path Hserved w)
    as (evs' & Hlog' & Hcalls').
  rewrite Hrun in Hlog', Hcalls'. cbn [fst snd] in *.
  rewrite Hlog in Hlog'. apply app_inv_head in Hlog'. subst evs'.
  apply Hcalls'. by exists tt.
Qed.

Lemma one_call_per_node_witness :
  exists evs,
    log (snd (download_folder_contents 2 demo_svc "root" "R" world_with_R)) =
      log world_with_R ++ evs /\
    (forall j,
       count_lists_of j evs = folders_with j (RFolder "root" "R" demo_kids) /\
       count_gets_of j evs = files_with j (RFolder "root" "R" demo_kids)) /\
    count_lists evs = folders_in (RFolder "root" "R" demo_kids) /\
    count_gets evs = files_in (RFolder "root" "R" demo_kids).
Proof.
  apply (one_call_per_node demo_svc 2 "root" "R" "R" demo_kids world_with_R).
  - solve_served.
  - reflexivity.
Defined.


